(** * kvmboi: a shallow embedding of the asynchronous KVM client

    The development follows the layout of the Python package:
    - [Binary64]       : the binary64 arithmetic Python uses in [AsyncMouse.drag];
    - [pyval]          : Python values as [json.loads] produces them;
    - [exn], [M]       : exceptions and the state-and-error monad of one
                         cooperative task;
    - [AsyncKVMClient] : src/kvmboi/async_client.py;
    - [AsyncKeyboard], [AsyncMouse] : src/kvmboi/hid.py;
    - [AsyncMSD]       : src/kvmboi/msd.py;
    - [AsyncVideo]     : src/kvmboi/video.py;
    - [AsyncATX]       : src/kvmboi/atx.py;
    - [KVMClient]      : src/kvmboi/client.py, the synchronous client and
                         the event loop thread it drives;
    - [Concurrent]     : interleavings of several tasks at their [await]s;
    - [Sample]         : a concrete runtime and device, to run the client on.
    The statements and their proofs follow the definitions.

    A [World] holds the attributes of the client, the state of its peers
    (the httpx client, the WebSocket connections made so far), the
    answers the device and the network are going to give, and the trace
    of the I/O done.  The statements quantify over the world, hence over
    everything the environment may answer.
*)

From Stdlib Require Import ZArith List String Ascii Bool Lia.
From Stdlib Require Import Floats.SpecFloat.
Import ListNotations.

#[local] Open Scope string_scope.
#[local] Open Scope Z_scope.

(* ================================================================== *)
(** * Binary64 floating point, as Python's [float] *)

Module Binary64.

(** Every finite binary64 number is an integer multiple of [2^-1074];
    a finite float is stored as that integer.  The sign of zero is not
    kept: nothing in the client observes it. *)
Definition unit_exp : Z := 1074.
Definition one : Z := 2 ^ unit_exp.

Inductive float :=
| Finite (n : Z)
| Infinity (neg : bool)
| NaN.

(** [a / b] rounded to the nearest integer, ties to even ([0 < b]). *)
Definition rne_div (a b : Z) : Z :=
  let q := a / b in
  let r := a mod b in
  if 2 * r <? b then q
  else if b <? 2 * r then q + 1
  else if Z.even q then q else q + 1.

(** Spacing of the floats around [a / b], as a power of two: 53 bits
    of precision above the subnormal range, the unit below it. *)
Definition ulp_exp (a b : Z) : Z :=
  Z.max 0 (Z.log2 (Z.abs a / b) - 52).

(** Round-to-nearest-even of the rational [a / b] (counted in units,
    [0 < b]); magnitudes from [2^1024] on overflow. *)
Definition round (a b : Z) : float :=
  let k := ulp_exp a b in
  let n := rne_div a (b * 2 ^ k) * 2 ^ k in
  if 2 ^ (1024 + unit_exp) <=? Z.abs n then Infinity (a <? 0) else Finite n.

Definition is_zero (x : float) : bool :=
  match x with Finite n => n =? 0 | _ => false end.

(** [float(n)] for a Python int: [None] is [OverflowError]. *)
Definition of_int (n : Z) : option float :=
  match round (n * one) 1 with
  | Finite m => Some (Finite m)
  | _ => None
  end.

(** [x * y] on floats. *)
Definition mul (x y : float) : float :=
  match x, y with
  | NaN, _ | _, NaN => NaN
  | Finite a, Finite b => round (a * b) one
  | Infinity s, Finite b | Finite b, Infinity s =>
      if b =? 0 then NaN else Infinity (xorb s (b <? 0))
  | Infinity s, Infinity s' => Infinity (xorb s s')
  end.

(** [x + y] on floats. *)
Definition add (x y : float) : float :=
  match x, y with
  | NaN, _ | _, NaN => NaN
  | Finite a, Finite b => round (a + b) 1
  | Infinity s, Finite _ | Finite _, Infinity s => Infinity s
  | Infinity s, Infinity s' => if Bool.eqb s s' then Infinity s else NaN
  end.

(** [int(x)]: truncation towards zero; [None] is the [OverflowError]
    of an infinity or the [ValueError] of a NaN. *)
Definition to_int (x : float) : option Z :=
  match x with
  | Finite n => Some (Z.quot n one)
  | _ => None
  end.

(** The value of a [spec_float] of the Standard Library's IEEE 754
    specification, in the representation above. *)
Definition of_spec (x : spec_float) : float :=
  match x with
  | S754_zero _ => Finite 0
  | S754_infinity s => Infinity s
  | S754_nan => NaN
  | S754_finite s m e =>
      Finite ((if s then -1 else 1) * Z.pos m * 2 ^ (e + unit_exp))
  end.

Definition spec_of_int (n : Z) : spec_float :=
  binary_normalize 53 1024 n 0 false.

(** [int(x)] on a [spec_float]. *)
Definition spec_to_int (x : spec_float) : option Z :=
  match x with
  | S754_zero _ => Some 0
  | S754_finite s m e =>
      Some ((if s then -1 else 1)
            * (if 0 <=? e then Z.pos m * 2 ^ e else Z.pos m / 2 ^ (- e)))
  | _ => None
  end.

(** [int(a + (b - a) * (i / steps))] computed with the Standard
    Library's binary64 operations. *)
Definition spec_drag_point (a b i steps : Z) : option Z :=
  spec_to_int
    (SFadd 53 1024 (spec_of_int a)
       (SFmul 53 1024 (spec_of_int (b - a))
          (SFdiv 53 1024 (spec_of_int i) (spec_of_int steps)))).

End Binary64.

(* ================================================================== *)
(** * Python values *)

#[local] Set Warnings "-register-all".

(** The values [json.loads] builds, which are also the ones the client
    passes to [json.dumps] and to httpx; [None] is [PyNone].  A dict is
    kept as its items in insertion order, the first item of a key being
    the one a lookup finds. *)
Inductive pyval :=
| PyNone
| PyBool (b : bool)
| PyInt (n : Z)
| PyFloat (x : Binary64.float)
| PyStr (s : string)
| PyList (l : list pyval)
| PyDict (d : list (string * pyval)).

Fixpoint assoc {V : Type} (k : string) (d : list (string * V)) : option V :=
  match d with
  | [] => None
  | (k', v) :: d' => if String.eqb k k' then Some v else assoc k d'
  end.

(** Truth value of an object, as [if x:], [not x] and [x or y] test it. *)
Definition truthy (v : pyval) : bool :=
  match v with
  | PyNone => false
  | PyBool b => b
  | PyInt n => negb (n =? 0)
  | PyFloat x => negb (Binary64.is_zero x)
  | PyStr s => negb (String.eqb s "")
  | PyList l => match l with [] => false | _ => true end
  | PyDict d => match d with [] => false | _ => true end
  end.

(** [v == s] for a str [s]. *)
Definition eq_str (v : pyval) (s : string) : bool :=
  match v with PyStr s' => String.eqb s' s | _ => false end.

(* ================================================================== *)
(** * Exceptions and results *)

Inductive exn :=
(* kvmboi.exceptions *)
| AuthError (msg : string)
| APIError (error message : pyval)
(* httpx *)
| HTTPStatusError (status : Z)
| TransportError
| ClientClosedError
(* websockets *)
| ConnectionClosed
| ConnectFailed
| CloseFailed
(* builtins *)
| TimeoutError
| JSONDecodeError
| AttributeError
| KeyError (key : string)
| TypeError
| OverflowError
| ValueError
| ZeroDivisionError
| OSError (path : string).

Definition is_AuthError (e : exn) : bool :=
  match e with AuthError _ => true | _ => false end.

Inductive result (A : Type) :=
| Ok (a : A)
| Raise (e : exn).
Arguments Ok {A} a.
Arguments Raise {A} e.

Definition rbind {A B : Type} (r : result A) (k : A -> result B) : result B :=
  match r with
  | Ok a => k a
  | Raise e => Raise e
  end.

Declare Scope result_scope.
Delimit Scope result_scope with res.
Notation "x <- c ;; k" := (rbind c (fun x => k))
  (at level 61, c at next level, right associativity) : result_scope.

(** [o.get(k, default)]: only a dict has the method. *)
Definition py_get (o : pyval) (k : string) (default : pyval) : result pyval :=
  match o with
  | PyDict d => Ok (match assoc k d with Some v => v | None => default end)
  | _ => Raise AttributeError
  end.

(** [o[k]] for a str key. *)
Definition py_getitem (o : pyval) (k : string) : result pyval :=
  match o with
  | PyDict d => match assoc k d with Some v => Ok v | None => Raise (KeyError k) end
  | _ => Raise TypeError
  end.

(** [a / b] on Python ints (true division) is correctly rounded. *)
Definition truediv (a b : Z) : result Binary64.float :=
  if b =? 0 then Raise ZeroDivisionError
  else match Binary64.round (a * Z.sgn b * Binary64.one) (Z.abs b) with
       | Binary64.Finite n => Ok (Binary64.Finite n)
       | _ => Raise OverflowError
       end.

(** An int operand of a float operation is converted first. *)
Definition float_of_int (n : Z) : result Binary64.float :=
  match Binary64.of_int n with
  | Some x => Ok x
  | None => Raise OverflowError
  end.

(** [int(x)] on a float. *)
Definition int_of_float (x : Binary64.float) : result Z :=
  match x with
  | Binary64.Finite _ =>
      match Binary64.to_int x with Some n => Ok n | None => Raise OverflowError end
  | Binary64.Infinity _ => Raise OverflowError
  | Binary64.NaN => Raise ValueError
  end.

(** What the interpreter and the libraries leave open: the JSON decoder,
    base64 and the path flavour of the platform. *)
Class Runtime := {
  json_loads : string -> option pyval;
  b64encode : string -> string;
  path_name : string -> string;
}.

(* ================================================================== *)
(** * The world of one client *)

Record Config := {
  host : string;
  username : string;
  password : string;
  _resolved_ip : string;
  ssl_verify : bool;
}.

(** Bytes (a request body, the content of a response or of a file) are
    strings: a [string] is a sequence of 8-bit characters. *)
Record Request := {
  method : string;
  url : string;
  params : option (list (string * pyval));
  data : option pyval;
  body : option string;
  headers : list (string * string);
}.

Record Response := {
  status_code : Z;
  content : string;
}.

(** What one [recv()] under [wait_for(..., timeout=0.5)] meets. *)
Inductive recv_outcome :=
| Message (msg : string)
| Silence
| PeerClosed.

Record Conn := {
  inbox : list recv_outcome;
  closed : bool;
}.

Inductive http_outcome :=
| Responds (r : Response)
| RequestFails.

Inductive io_event :=
| HttpRequest (rq : Request)
| HttpClose
| WsConnect (c : nat) (uri : string) (hdrs : list (string * string)) (no_verify : bool)
| WsPing (c : nat)
| WsRecv (c : nat) (r : recv_outcome)
| WsSend (c : nat) (frame : pyval)
| WsClose (c : nat)
| Sleep (ms : Z)
| ReadFile (path : string).

(** The attributes of an [AsyncKVMClient] ([cfg], [_ws], [_token]), the
    peers it talks to, the answers the environment will give (consumed
    in order: an empty script means no answer for HTTP and connect, no
    fault for the WebSocket), and the trace of what was done: requests
    issued, connections made, probes and frames that went out, every
    [recv] with what it met. *)
Record World := {
  cfg : Config;
  _ws : option nat;
  _token : pyval;
  http_closed : bool;
  conns : list Conn;
  http_script : list http_outcome;
  connect_script : list (option (list recv_outcome));
  fault_script : list bool;
  fs : string -> option string;
  log : list io_event;
}.

Definition set_ws (v : option nat) (w : World) : World :=
  {| cfg := cfg w; _ws := v; _token := _token w; http_closed := http_closed w;
     conns := conns w; http_script := http_script w;
     connect_script := connect_script w; fault_script := fault_script w;
     fs := fs w; log := log w |}.

Definition set_token (v : pyval) (w : World) : World :=
  {| cfg := cfg w; _ws := _ws w; _token := v; http_closed := http_closed w;
     conns := conns w; http_script := http_script w;
     connect_script := connect_script w; fault_script := fault_script w;
     fs := fs w; log := log w |}.

Definition set_http_closed (v : bool) (w : World) : World :=
  {| cfg := cfg w; _ws := _ws w; _token := _token w; http_closed := v;
     conns := conns w; http_script := http_script w;
     connect_script := connect_script w; fault_script := fault_script w;
     fs := fs w; log := log w |}.

Definition set_conns (v : list Conn) (w : World) : World :=
  {| cfg := cfg w; _ws := _ws w; _token := _token w; http_closed := http_closed w;
     conns := v; http_script := http_script w;
     connect_script := connect_script w; fault_script := fault_script w;
     fs := fs w; log := log w |}.

Definition set_http_script (v : list http_outcome) (w : World) : World :=
  {| cfg := cfg w; _ws := _ws w; _token := _token w; http_closed := http_closed w;
     conns := conns w; http_script := v;
     connect_script := connect_script w; fault_script := fault_script w;
     fs := fs w; log := log w |}.

Definition set_connect_script (v : list (option (list recv_outcome))) (w : World) : World :=
  {| cfg := cfg w; _ws := _ws w; _token := _token w; http_closed := http_closed w;
     conns := conns w; http_script := http_script w;
     connect_script := v; fault_script := fault_script w;
     fs := fs w; log := log w |}.

Definition set_fault_script (v : list bool) (w : World) : World :=
  {| cfg := cfg w; _ws := _ws w; _token := _token w; http_closed := http_closed w;
     conns := conns w; http_script := http_script w;
     connect_script := connect_script w; fault_script := v;
     fs := fs w; log := log w |}.

Definition emit (ev : io_event) (w : World) : World :=
  {| cfg := cfg w; _ws := _ws w; _token := _token w; http_closed := http_closed w;
     conns := conns w; http_script := http_script w;
     connect_script := connect_script w; fault_script := fault_script w;
     fs := fs w; log := log w ++ [ev] |}.

(** ** The monad of one task: state and exceptions *)

Definition M (A : Type) : Type := World -> result A * World.

Definition ret {A : Type} (a : A) : M A := fun w => (Ok a, w).

Definition raise {A : Type} (e : exn) : M A := fun w => (Raise e, w).

Definition bind {A B : Type} (m : M A) (k : A -> M B) : M B :=
  fun w => match m w with
           | (Ok a, w') => k a w'
           | (Raise e, w') => (Raise e, w')
           end.

Declare Scope task_scope.
Delimit Scope task_scope with task.
Notation "x <- c ;; k" := (bind c (fun x => k))
  (at level 61, c at next level, right associativity) : task_scope.
Notation "c ;;; k" := (bind c (fun _ => k))
  (at level 61, right associativity) : task_scope.

Definition lift {A : Type} (r : result A) : M A := fun w => (r, w).

Definition gets {A : Type} (f : World -> A) : M A := fun w => (Ok (f w), w).

Definition modify (f : World -> World) : M unit := fun w => (Ok tt, f w).

(** [try: m except <the exceptions h answers>: ...]; [h e = None] lets
    [e] propagate. *)
Definition try_except {A : Type} (m : M A) (h : exn -> option (M A)) : M A :=
  fun w => match m w with
           | (Ok a, w') => (Ok a, w')
           | (Raise e, w') =>
               match h e with
               | Some k => k w'
               | None => (Raise e, w')
               end
           end.

(** ** The peers: httpx client and WebSocket connections *)

Definition conn_closed (c : nat) (w : World) : bool :=
  match nth_error (conns w) c with
  | Some k => closed k
  | None => true
  end.

Fixpoint update_nth {A : Type} (n : nat) (f : A -> A) (l : list A) : list A :=
  match l, n with
  | [], _ => []
  | x :: l', O => f x :: l'
  | x :: l', S n' => x :: update_nth n' f l'
  end.

Definition mark_closed (c : nat) (w : World) : World :=
  set_conns (update_nth c (fun k => {| inbox := inbox k; closed := true |}) (conns w)) w.

Definition set_inbox (c : nat) (q : list recv_outcome) (w : World) : World :=
  set_conns (update_nth c (fun k => {| inbox := q; closed := closed k |}) (conns w)) w.

(** [await self._http.request(...)]: a closed client refuses; otherwise
    the request goes out and the environment answers. *)
Definition http_request (rq : Request) : M Response :=
  fun w =>
    if http_closed w then (Raise ClientClosedError, w)
    else
      let w1 := emit (HttpRequest rq) w in
      match http_script w1 with
      | Responds r :: rest => (Ok r, set_http_script rest w1)
      | RequestFails :: rest => (Raise TransportError, set_http_script rest w1)
      | [] => (Raise TransportError, w1)
      end.

(** [await self._http.aclose()]: closing a closed client does nothing. *)
Definition http_aclose : M unit :=
  fun w =>
    if http_closed w then (Ok tt, w)
    else (Ok tt, set_http_closed true (emit HttpClose w)).

(** The environment may break the connection before an operation on it. *)
Definition fault : M bool :=
  fun w =>
    match fault_script w with
    | b :: rest => (Ok b, set_fault_script rest w)
    | [] => (Ok false, w)
    end.

(** [await websockets.asyncio.client.connect(uri, ssl=..., additional_headers=...)] *)
Definition ws_connect (uri : string) (hdrs : list (string * string))
    (no_verify : bool) : M nat :=
  fun w =>
    match connect_script w with
    | Some q :: rest =>
        let c := List.length (conns w) in
        (Ok c,
         emit (WsConnect c uri hdrs no_verify)
           (set_conns (conns w ++ [{| inbox := q; closed := false |}])
              (set_connect_script rest w)))
    | None :: rest => (Raise ConnectFailed, set_connect_script rest w)
    | [] => (Raise ConnectFailed, w)
    end.

(** [await ws.ping()]: sends a ping frame, without waiting for the pong;
    fails on a closed connection. *)
Definition ws_ping (c : nat) : M unit :=
  (broken <- fault ;;
   (if broken : bool then modify (mark_closed c) else ret tt) ;;;
   dead <- gets (conn_closed c) ;;
   if dead : bool then raise ConnectionClosed
   else modify (emit (WsPing c)))%task.

(** [await ws.send(json.dumps(frame))]: the trace keeps the object that
    was serialised. *)
Definition ws_write (c : nat) (frame : pyval) : M unit :=
  (broken <- fault ;;
   (if broken : bool then modify (mark_closed c) else ret tt) ;;;
   dead <- gets (conn_closed c) ;;
   if dead : bool then raise ConnectionClosed
   else modify (emit (WsSend c frame)))%task.

(** [await asyncio.wait_for(ws.recv(), timeout=0.5)] *)
Definition ws_recv (c : nat) : M string :=
  fun w =>
    if conn_closed c w then (Raise ConnectionClosed, emit (WsRecv c PeerClosed) w)
    else
      match nth_error (conns w) c with
      | Some k =>
          match inbox k with
          | Message m :: q =>
              (Ok m, emit (WsRecv c (Message m)) (set_inbox c q w))
          | Silence :: q =>
              (Raise TimeoutError, emit (WsRecv c Silence) (set_inbox c q w))
          | PeerClosed :: q =>
              (Raise ConnectionClosed,
               emit (WsRecv c PeerClosed) (mark_closed c (set_inbox c q w)))
          | [] => (Raise TimeoutError, emit (WsRecv c Silence) w)
          end
      | None => (Raise ConnectionClosed, emit (WsRecv c PeerClosed) w)
      end.

(** [await ws.close()]: when it fails the connection is left as it was. *)
Definition ws_close (c : nat) : M unit :=
  (broken <- fault ;;
   if broken : bool then raise CloseFailed
   else modify (fun w => emit (WsClose c) (mark_closed c w)))%task.

(** [await asyncio.sleep(ms / 1000)] *)
Definition sleep (ms : Z) : M unit := modify (emit (Sleep ms)).

(** [Path(p).read_bytes()] *)
Definition read_bytes (p : string) : M string :=
  fun w =>
    match fs w p with
    | Some d => (Ok d, emit (ReadFile p) w)
    | None => (Raise (OSError p), w)
    end.

Definition set_fs (v : string -> option string) (w : World) : World :=
  {| cfg := cfg w; _ws := _ws w; _token := _token w; http_closed := http_closed w;
     conns := conns w; http_script := http_script w;
     connect_script := connect_script w; fault_script := fault_script w;
     fs := v; log := log w |}.

(** [Path(p).write_bytes(d)]; [writable] tells which paths the platform
    lets the process create or overwrite.  The file then holds exactly
    [d]; the other files are left as they were. *)
Definition write_bytes (writable : string -> bool) (p : string) (d : string) : M unit :=
  fun w =>
    if writable p
    then (Ok tt, set_fs (fun q => if String.eqb q p then Some d else fs w q) w)
    else (Raise (OSError p), w).

(** [asyncio.Lock]: a task on its own always finds the lock free, and
    gives it back on every exit; tasks that share the client are in
    [Concurrent]. *)
Definition with_lock {A : Type} (m : M A) : M A := m.

(* ================================================================== *)
(** * src/kvmboi/async_client.py *)

Module AsyncKVMClient.
Section Client.
Context {rt : Runtime}.

(** [str.rstrip("/")] *)
Fixpoint rstrip_slash (s : string) : string :=
  match s with
  | EmptyString => EmptyString
  | String a s' =>
      match rstrip_slash s' with
      | EmptyString => if Ascii.eqb a "/"%char then EmptyString else String a EmptyString
      | t => String a t
      end
  end.

(** [__init__]; [resolved] is what [socket.gethostbyname] answered,
    [None] standing for [socket.gaierror]. *)
Definition __init__ (host_ username_ password_ : string) (ssl_verify_ : bool)
    (resolved : option string) (files : string -> option string) : World :=
  let h := rstrip_slash host_ in
  {| cfg := {| host := h; username := username_; password := password_;
               _resolved_ip := match resolved with Some ip => ip | None => h end;
               ssl_verify := ssl_verify_ |};
     _ws := None; _token := PyNone; http_closed := false; conns := [];
     http_script := []; connect_script := []; fault_script := [];
     fs := files; log := [] |}.

(** [httpx.Response.raise_for_status]: every status outside 2xx raises. *)
Definition raise_for_status (resp : Response) : result unit :=
  if (200 <=? status_code resp) && (status_code resp <=? 299) then Ok tt
  else Raise (HTTPStatusError (status_code resp)).

(** [httpx.Response.json] *)
Definition resp_json (resp : Response) : result pyval :=
  match json_loads (content resp) with
  | Some v => Ok v
  | None => Raise JSONDecodeError
  end.

Definition _check_response (resp : Response) : result pyval :=
  (if status_code resp =? 401 then Raise (AuthError "Authentication failed")
   else if status_code resp =? 403 then Raise (AuthError "Forbidden")
   else
     _ <- raise_for_status resp ;;
     body <- resp_json resp ;;
     ok <- py_get body "ok" PyNone ;;
     if negb (truthy ok) then
       result <- py_get body "result" (PyDict []) ;;
       error <- py_get result "error" (PyStr "UnknownError") ;;
       error_msg <- py_get result "error_msg" (PyStr "Unknown error") ;;
       Raise (APIError error error_msg)
     else
       py_get body "result" (PyDict []))%res.

(** [params or None] *)
Definition or_None {A : Type} (l : list A) : option (list A) :=
  match l with [] => None | _ => Some l end.

Definition _api_get (path : string) (params_ : list (string * pyval)) : M pyval :=
  (resp <- http_request
     {| method := "GET"; url := "/api/" ++ path; params := or_None params_;
        data := None; body := None; headers := [] |} ;;
   lift (_check_response resp))%task.

Definition _api_post (path : string) (params_ : option (list (string * pyval)))
    (data_ : option pyval) (content_ : option string)
    (headers_ : list (string * string)) : M pyval :=
  (resp <- http_request
     {| method := "POST"; url := "/api/" ++ path; params := params_;
        data := data_; body := content_; headers := headers_ |} ;;
   lift (_check_response resp))%task.

Definition _api_get_bytes (path : string) (params_ : list (string * pyval)) : M string :=
  (resp <- http_request
     {| method := "GET"; url := "/api/" ++ path; params := or_None params_;
        data := None; body := None; headers := [] |} ;;
   if status_code resp =? 401 then raise (AuthError "Authentication failed")
   else
     _ <- lift (raise_for_status resp) ;;
     ret (content resp))%task.

Definition _ensure_token : M pyval :=
  (token <- gets _token ;;
   if truthy token then ret token
   else
     c <- gets cfg ;;
     resp <- http_request
       {| method := "POST"; url := "/api/auth/login"; params := None;
          data := Some (PyDict [("user", PyStr (username c));
                                ("passwd", PyStr (password c))]);
          body := None; headers := [] |} ;;
     body <- lift (resp_json resp) ;;
     ok <- lift (py_get body "ok" PyNone) ;;
     if negb (truthy ok) then raise (AuthError "Login failed")
     else
       result <- lift (py_getitem body "result") ;;
       token <- lift (py_getitem result "token") ;;
       modify (set_token token) ;;;
       ret token)%task.

(** The loop [for _ in range(n)] of [_ensure_ws]; returning is the
    [break] or the end of the range. *)
Fixpoint drain (n : nat) (ws : nat) : M unit :=
  match n with
  | O => ret tt
  | S n' =>
      (msg <- ws_recv ws ;;
       data <- lift (match json_loads msg with
                     | Some v => Ok v
                     | None => Raise JSONDecodeError
                     end) ;;
       event_type <- lift (py_get data "event_type" PyNone) ;;
       if eq_str event_type "streamer" then ret tt
       else drain n' ws)%task
  end.

Definition only_TimeoutError (e : exn) : option (M unit) :=
  match e with TimeoutError => Some (ret tt) | _ => None end.

(** The part of [_ensure_ws] after the liveness probe. *)
Definition connect_and_drain : M nat :=
  (c <- gets cfg ;;
   let creds := b64encode (username c ++ ":" ++ password c) in
   let uri := "wss://" ++ _resolved_ip c ++ "/api/ws?stream=0" in
   ws <- ws_connect uri [("Authorization", "Basic " ++ creds)]
           (negb (ssl_verify c)) ;;
   modify (set_ws (Some ws)) ;;;
   try_except (drain 20 ws) only_TimeoutError ;;;
   ret ws)%task.

Definition any_Exception {A : Type} (k : M A) (e : exn) : option (M A) := Some k.

(** [_ensure_ws]: the probe answers [Some ws] where the source returns
    from inside the [try], and [None] where it falls through to the
    connection code. *)
Definition _ensure_ws : M nat :=
  with_lock
    (cur <- gets _ws ;;
     live <- match cur with
             | Some ws =>
                 try_except (ws_ping ws ;;; ret (Some ws))
                   (any_Exception (modify (set_ws None) ;;; ret None))
             | None => ret None
             end ;;
     match live with
     | Some ws => ret ws
     | None => connect_and_drain
     end)%task.

Definition ws_send (event_type : string) (event : pyval) : M unit :=
  (ws <- _ensure_ws ;;
   ws_write ws (PyDict [("event_type", PyStr event_type); ("event", event)]))%task.

Definition info : M pyval := _api_get "info" [].

Definition streamer_info : M pyval := _api_get "streamer" [].

(** [close]; a connection object is true in [if self._ws:], so the
    test is whether the attribute holds one. *)
Definition close : M unit :=
  (cur <- gets _ws ;;
   match cur with
   | Some ws => ws_close ws ;;; modify (set_ws None)
   | None => ret tt
   end ;;;
   http_aclose)%task.

Definition __aexit__ : M unit := close.

(** [async with client: body]: [__aenter__] hands the client over,
    [__aexit__] is awaited when the body is left, by its end or by an
    exception; it returns [None], so an exception of the body goes on
    once [__aexit__] has returned, and one raised by [__aexit__] takes
    its place. *)
Definition async_with {A : Type} (body : M A) : M A :=
  fun w =>
    match body w with
    | (r, w1) =>
        match __aexit__ w1 with
        | (Ok _, w2) => (r, w2)
        | (Raise e, w2) => (Raise e, w2)
        end
    end.

End Client.
End AsyncKVMClient.

(* ================================================================== *)
(** * src/kvmboi/hid.py *)

(** [for x in l: body(x)] *)
Fixpoint for_each {A : Type} (l : list A) (body : A -> M unit) : M unit :=
  match l with
  | [] => ret tt
  | x :: l' => (body x ;;; for_each l' body)%task
  end.

(** [range(lo, hi)] *)
Definition range (lo hi : Z) : list Z :=
  map (fun k => lo + Z.of_nat k) (seq 0 (Z.to_nat (hi - lo))).

Module AsyncKeyboard.
Section Keyboard.
Context {rt : Runtime}.

Definition key_event (key : string) (state : bool) : pyval :=
  PyDict [("key", PyStr key); ("state", PyBool state)].

Definition press (key : string) : M unit :=
  (AsyncKVMClient.ws_send "key" (key_event key true) ;;;
   sleep 20 ;;;
   AsyncKVMClient.ws_send "key" (key_event key false))%task.

Definition hold (key : string) : M unit :=
  AsyncKVMClient.ws_send "key" (key_event key true).

Definition release (key : string) : M unit :=
  AsyncKVMClient.ws_send "key" (key_event key false).

Definition shortcut (keys : list string) : M unit :=
  (for_each keys (fun key =>
     AsyncKVMClient.ws_send "key" (key_event key true) ;;;
     sleep 20) ;;;
   sleep 50 ;;;
   for_each (rev keys) (fun key =>
     AsyncKVMClient.ws_send "key" (key_event key false) ;;;
     sleep 20))%task.

Definition type (text : string) (keymap : string) : M unit :=
  (_ <- AsyncKVMClient._api_post "hid/print"
          (Some [("limit", PyInt 0); ("keymap", PyStr keymap)])
          (Some (PyStr text)) None [] ;;
   ret tt)%task.

End Keyboard.
End AsyncKeyboard.

Module AsyncMouse.
Section Mouse.
Context {rt : Runtime}.

Definition move_event (x y : Z) : pyval :=
  PyDict [("to", PyDict [("x", PyInt x); ("y", PyInt y)])].

Definition button_event (button : string) (state : bool) : pyval :=
  PyDict [("button", PyStr button); ("state", PyBool state)].

Definition delta_event (dx dy : Z) : pyval :=
  PyDict [("delta", PyDict [("x", PyInt dx); ("y", PyInt dy)])].

Definition move (x y : Z) : M unit :=
  AsyncKVMClient.ws_send "mouse_move" (move_event x y).

Definition click (x y : option Z) (button : string) : M unit :=
  (match x, y with
   | Some x', Some y' => move x' y' ;;; sleep 50
   | _, _ => ret tt
   end ;;;
   AsyncKVMClient.ws_send "mouse_button" (button_event button true) ;;;
   sleep 50 ;;;
   AsyncKVMClient.ws_send "mouse_button" (button_event button false))%task.

Definition right_click (x y : option Z) : M unit := click x y "right".

Definition middle_click (x y : option Z) : M unit := click x y "middle".

Definition double_click (x y : option Z) : M unit :=
  (click x y "left" ;;; sleep 100 ;;; click x y "left")%task.

Definition scroll (delta_x delta_y : Z) : M unit :=
  AsyncKVMClient.ws_send "mouse_wheel" (delta_event delta_x delta_y).

(** [int(a + (b - a) * t)] with [t] a float. *)
Definition interpolate (a b : Z) (t : Binary64.float) : result Z :=
  (d <- float_of_int (b - a) ;;
   a' <- float_of_int a ;;
   int_of_float (Binary64.add a' (Binary64.mul d t)))%res.

(** The body of the [for] loop of [drag]. *)
Definition drag_step (from_x from_y to_x to_y steps : Z) (i : Z) : M unit :=
  (t <- lift (truediv i steps) ;;
   x <- lift (interpolate from_x to_x t) ;;
   y <- lift (interpolate from_y to_y t) ;;
   move x y ;;;
   sleep 20)%task.

Definition drag (from_x from_y to_x to_y : Z) (button : string) (steps : Z) : M unit :=
  (move from_x from_y ;;;
   sleep 50 ;;;
   AsyncKVMClient.ws_send "mouse_button" (button_event button true) ;;;
   sleep 50 ;;;
   for_each (range 1 (steps + 1)) (drag_step from_x from_y to_x to_y steps) ;;;
   AsyncKVMClient.ws_send "mouse_button" (button_event button false))%task.

Definition relative_move (delta_x delta_y : Z) : M unit :=
  AsyncKVMClient.ws_send "mouse_relative" (delta_event delta_x delta_y).

End Mouse.
End AsyncMouse.

(* ================================================================== *)
(** * src/kvmboi/msd.py *)

Module AsyncMSD.
Section MSD.
Context {rt : Runtime}.

Definition status : M pyval := AsyncKVMClient._api_get "msd" [].

Definition list_images : M pyval :=
  (result <- status ;;
   storage <- lift (py_get result "storage" (PyDict [])) ;;
   lift (py_get storage "images" (PyDict [])))%task.

(** [image_name or path.name] *)
Definition name_or (image_name : option string) (fallback : string) : string :=
  match image_name with
  | Some n => if truthy (PyStr n) then n else fallback
  | None => fallback
  end.

Definition upload (file_path : string) (image_name : option string) : M pyval :=
  (let name := name_or image_name (path_name file_path) in
   data_ <- read_bytes file_path ;;
   AsyncKVMClient._api_post "msd/write"
     (Some [("image", PyStr name)]) None (Some data_)
     [("Content-Type", "application/octet-stream")])%task.

Definition upload_url (url_ : string) (image_name : option string) : M pyval :=
  (let params_ :=
     ("url", PyStr url_) ::
     match image_name with
     | Some n => if truthy (PyStr n) then [("image", PyStr n)] else []
     | None => []
     end in
   AsyncKVMClient._api_post "msd/write_remote" (Some params_) None None [])%task.

(** [int(cdrom)] is 1 or 0. *)
Definition set_image (image_name : string) (cdrom : bool) : M pyval :=
  AsyncKVMClient._api_post "msd/set_params"
    (Some [("image", PyStr image_name); ("cdrom", PyInt (if cdrom then 1 else 0))])
    None None [].

Definition connect : M pyval :=
  AsyncKVMClient._api_post "msd/set_connected" (Some [("connected", PyInt 1)]) None None [].

Definition disconnect : M pyval :=
  AsyncKVMClient._api_post "msd/set_connected" (Some [("connected", PyInt 0)]) None None [].

Definition remove_image (image_name : string) : M pyval :=
  AsyncKVMClient._api_post "msd/remove" (Some [("image", PyStr image_name)]) None None [].

End MSD.
End AsyncMSD.

(* ================================================================== *)
(** * src/kvmboi/video.py *)

Module AsyncVideo.
Section Video.
Context {rt : Runtime}.
Variable writable : string -> bool.

Definition screenshot (save_to : option string) : M string :=
  (data_ <- AsyncKVMClient._api_get_bytes "streamer/snapshot" [] ;;
   match save_to with
   | Some p => write_bytes writable p data_
   | None => ret tt
   end ;;;
   ret data_)%task.

Definition streamer_info : M pyval := AsyncKVMClient._api_get "streamer" [].

End Video.
End AsyncVideo.

(* ================================================================== *)
(** * src/kvmboi/atx.py *)

Module AsyncATX.
Section ATX.
Context {rt : Runtime}.

Definition status : M pyval := AsyncKVMClient._api_get "atx" [].

Definition short_press : M pyval :=
  AsyncKVMClient._api_post "atx/click" (Some [("button", PyStr "power")]) None None [].

Definition long_press : M pyval :=
  AsyncKVMClient._api_post "atx/click" (Some [("button", PyStr "power_long")]) None None [].

Definition reset : M pyval :=
  AsyncKVMClient._api_post "atx/click" (Some [("button", PyStr "reset")]) None None [].

End ATX.
End AsyncATX.

(* ================================================================== *)
(** * src/kvmboi/client.py *)

(** The synchronous client owns an asynchronous one and an event loop
    that a background thread runs for ever.  The calling thread hands
    each coroutine to that loop and waits for its outcome; nothing else
    runs on the loop meanwhile, so a call is a run of the coroutine on
    the asynchronous client.  Once the loop has been stopped a
    coroutine handed to it is queued and never started, and the caller
    waits for ever: such a call has no outcome. *)
Module KVMClient.
Section Sync.
Context {rt : Runtime}.

Record Sync := {
  _async_client : World;
  loop_running : bool;
}.

(** A call comes back with a result or an exception, or not at all. *)
Definition S (A : Type) : Type := Sync -> option (result A * Sync).

Definition sbind {A B : Type} (m : S A) (k : A -> S B) : S B :=
  fun s => match m s with
           | Some (Ok a, s') => k a s'
           | Some (Raise e, s') => Some (Raise e, s')
           | None => None
           end.

(** [_EventLoopThread.run]:
    [asyncio.run_coroutine_threadsafe(coro, self._loop).result()] *)
Definition run {A : Type} (coro : M A) : S A :=
  fun s =>
    if loop_running s then
      match coro (_async_client s) with
      | (r, w') => Some (r, {| _async_client := w'; loop_running := true |})
      end
    else None.

(** [_EventLoopThread.stop]: asks the loop to stop and joins the
    thread; on a loop already stopped the thread has ended and the join
    returns at once. *)
Definition stop : S unit :=
  fun s => Some (Ok tt, {| _async_client := _async_client s; loop_running := false |}).

Definition __init__ (host_ username_ password_ : string) (ssl_verify_ : bool)
    (resolved : option string) (files : string -> option string) : Sync :=
  {| _async_client :=
       AsyncKVMClient.__init__ host_ username_ password_ ssl_verify_ resolved files;
     loop_running := true |}.

Definition info : S pyval := run AsyncKVMClient.info.

Definition streamer_info : S pyval := run AsyncKVMClient.streamer_info.

Definition screenshot (writable : string -> bool) (save_to : option string) : S string :=
  run (AsyncVideo.screenshot writable save_to).

Definition close : S unit :=
  sbind (run AsyncKVMClient.close) (fun _ => stop).

Definition __exit__ : S unit := close.

(** [with KVMClient(...) as kvm: body] *)
Definition sync_with {A : Type} (body : S A) : S A :=
  fun s =>
    match body s with
    | Some (r, s1) =>
        match __exit__ s1 with
        | Some (Ok _, s2) => Some (r, s2)
        | Some (Raise e, s2) => Some (Raise e, s2)
        | None => None
        end
    | None => None
    end.

End Sync.
End KVMClient.

(* ================================================================== *)
(** * Several tasks on one client *)

(** asyncio runs the tasks of a client on one thread and switches
    between them only where a task awaits something that is not ready.
    [_ensure_ws] is cut here into the blocks it runs between two such
    points; a block starts when the awaited operation completes.
    [asyncio.Lock] lets one task at a time into [async with
    self._ws_lock] and is given back when the task leaves it, by
    [return] or by an exception. *)
Module Concurrent.
Section Tasks.
Context {rt : Runtime}.
Import AsyncKVMClient.

(** Where a task inside the [async with] is suspended. *)
Inductive pc :=
| AtEntry                        (* lock taken, about to test [self._ws] *)
| AtPing (ws : nat)              (* [await self._ws.ping()] *)
| AtConnect                      (* [await websockets.asyncio.client.connect(...)] *)
| AtRecv (n : nat) (ws : nat).   (* [await asyncio.wait_for(self._ws.recv(), ...)],
                                    [n] iterations of the loop left after this one *)

Inductive next :=
| Goto (p : pc)
| Returns (ws : nat).

(** The loop goes on while iterations are left. *)
Definition loop (n : nat) (ws : nat) : next :=
  match n with
  | O => Returns ws
  | S n' => Goto (AtRecv n' ws)
  end.

Definition block (p : pc) : M next :=
  match p with
  | AtEntry =>
      (cur <- gets _ws ;;
       match cur with
       | Some ws => ret (Goto (AtPing ws))
       | None => ret (Goto AtConnect)
       end)%task
  | AtPing ws =>
      try_except (ws_ping ws ;;; ret (Returns ws))%task
        (any_Exception (modify (set_ws None) ;;; ret (Goto AtConnect))%task)
  | AtConnect =>
      (c <- gets cfg ;;
       let creds := b64encode (username c ++ ":" ++ password c) in
       let uri := "wss://" ++ _resolved_ip c ++ "/api/ws?stream=0" in
       ws <- ws_connect uri [("Authorization", "Basic " ++ creds)]
               (negb (ssl_verify c)) ;;
       modify (set_ws (Some ws)) ;;;
       ret (loop 20 ws))%task
  | AtRecv n ws =>
      try_except
        (msg <- ws_recv ws ;;
         data <- lift (match json_loads msg with
                       | Some v => Ok v
                       | None => Raise JSONDecodeError
                       end) ;;
         event_type <- lift (py_get data "event_type" PyNone) ;;
         if eq_str event_type "streamer" then ret (Returns ws)
         else ret (loop n ws))%task
        (fun e => match e with
                  | TimeoutError => Some (ret (Returns ws))
                  | _ => None
                  end)
  end.

(** One task alone: its blocks one after the other. *)
Fixpoint run (fuel : nat) (p : pc) (w : World) : option (result nat * World) :=
  match fuel with
  | O => None
  | S fuel' =>
      match block p w with
      | (Ok (Goto p'), w') => run fuel' p' w'
      | (Ok (Returns ws), w') => Some (Ok ws, w')
      | (Raise e, w') => Some (Raise e, w')
      end
  end.

(** A task that called [_ensure_ws]. *)
Inductive stage :=
| Waiting                     (* at [async with self._ws_lock], lock not taken yet *)
| Inside (p : pc)             (* holds the lock, suspended at [p] *)
| Left (r : result nat).      (* has left the [async with]; the lock is released *)

Record system := {
  world : World;
  stages : list stage;
}.

Definition lock_free (st : list stage) : bool :=
  forallb (fun s => match s with Inside _ => false | _ => true end) st.

(** What can happen next: a waiting task takes the free lock, a task
    inside is resumed for one block, or the peer closes a connection. *)
Inductive action :=
| Enter (i : nat)
| Resume (i : nat)
| PeerCloses (c : nat).

Definition set_stage (i : nat) (st : stage) (s : list stage) : list stage :=
  update_nth i (fun _ => st) s.

Definition fire (a : action) (s : system) : option system :=
  match a with
  | Enter i =>
      match nth_error (stages s) i with
      | Some Waiting =>
          if lock_free (stages s)
          then Some {| world := world s; stages := set_stage i (Inside AtEntry) (stages s) |}
          else None
      | _ => None
      end
  | Resume i =>
      match nth_error (stages s) i with
      | Some (Inside p) =>
          let (r, w') := block p (world s) in
          Some {| world := w';
                  stages := set_stage i
                              match r with
                              | Ok (Goto p') => Inside p'
                              | Ok (Returns ws) => Left (Ok ws)
                              | Raise e => Left (Raise e)
                              end (stages s) |}
      | _ => None
      end
  | PeerCloses c =>
      Some {| world := mark_closed c (world s); stages := stages s |}
  end.

Fixpoint play (schedule : list action) (s : system) : option system :=
  match schedule with
  | [] => Some s
  | a :: rest =>
      match fire a s with
      | Some s' => play rest s'
      | None => None
      end
  end.

End Tasks.
End Concurrent.

(* ================================================================== *)
(** * A concrete runtime and device, for running the client *)

Module Sample.

(** [pathlib.PurePosixPath(p).name]: the last component that is
    neither empty nor a single dot. *)
Fixpoint split_slash (s : string) (cur : string) : list string :=
  match s with
  | EmptyString => [cur]
  | String a s' =>
      if Ascii.eqb a "/"%char then cur :: split_slash s' EmptyString
      else split_slash s' (cur ++ String a EmptyString)
  end.

Definition posix_name (p : string) : string :=
  last (filter (fun part => negb (String.eqb part "" || String.eqb part "."))
               (split_slash p EmptyString))
       EmptyString.

(** The device texts used below, with what [json.loads] makes of them. *)
Definition texts : list (string * pyval) :=
  [ ("<login ok>",
     PyDict [("ok", PyBool true); ("result", PyDict [("token", PyStr "t0k3n")])]);
    ("<login empty token>",
     PyDict [("ok", PyBool true); ("result", PyDict [("token", PyStr "")])]);
    ("<login refused>",
     PyDict [("ok", PyBool false);
             ("result", PyDict [("error", PyStr "ForbiddenError");
                                ("error_msg", PyStr "Forbidden")])]);
    ("<info>",
     PyDict [("ok", PyBool true); ("result", PyDict [("version", PyStr "1.0")])]);
    ("<failure without details>", PyDict [("ok", PyBool false)]);
    ("<written>", PyDict [("ok", PyBool true); ("result", PyDict [])]);
    ("<hid state>", PyDict [("event_type", PyStr "hid_state"); ("event", PyDict [])]);
    ("<atx state>", PyDict [("event_type", PyStr "atx_state"); ("event", PyDict [])]);
    ("<streamer state>", PyDict [("event_type", PyStr "streamer"); ("event", PyDict [])]) ].

(** [base64.b64encode(s.encode()).decode()] *)
Definition b64_char (n : nat) : ascii :=
  match String.get n "ABCDEFGHIJKLMNOPQRSTUVWXYZabcdefghijklmnopqrstuvwxyz0123456789+/" with
  | Some a => a
  | None => "="%char
  end.

Fixpoint b64_bytes (l : list nat) : string :=
  match l with
  | [] => EmptyString
  | [a] =>
      String (b64_char (a / 4)) (String (b64_char (a mod 4 * 16)) "==")
  | [a; b] =>
      String (b64_char (a / 4))
        (String (b64_char (a mod 4 * 16 + b / 16))
           (String (b64_char (b mod 16 * 4)) "="))
  | a :: b :: c :: rest =>
      String (b64_char (a / 4))
        (String (b64_char (a mod 4 * 16 + b / 16))
           (String (b64_char (b mod 16 * 4 + c / 64))
              (String (b64_char (c mod 64)) (b64_bytes rest))))
  end%nat.

Definition base64 (s : string) : string :=
  b64_bytes (map nat_of_ascii (list_ascii_of_string s)).

#[local] Instance runtime : Runtime :=
  {| json_loads := fun s => assoc s texts;
     b64encode := base64;
     path_name := posix_name |}.

Definition files (p : string) : option string :=
  if String.eqb p "/srv/images/debian.iso" then Some "CD001 debian" else None.

(** A freshly constructed client for [kvm.local]. *)
Definition fresh : World :=
  AsyncKVMClient.__init__ "kvm.local/" "admin" "secret" false (Some "192.168.1.50") files.

(** The same client facing a device that will answer HTTP with [rs],
    accept connections with the inbound bursts [cs] and break
    WebSocket operations as [fs]. *)
Definition facing (rs : list http_outcome)
    (cs : list (option (list recv_outcome))) (bs : list bool) : World :=
  set_fault_script bs (set_connect_script cs (set_http_script rs fresh)).

Definition answer (status : Z) (text : string) : http_outcome :=
  Responds {| status_code := status; content := text |}.

(** The state burst a device pushes on a new WebSocket. *)
Definition burst : list recv_outcome :=
  [Message "<hid state>"; Message "<atx state>"; Message "<streamer state>"].

(** A client whose device accepts one WebSocket connection. *)
Definition online : World := facing [] [Some burst] [].

(** The same, the device pushing one more state after the burst. *)
Definition chatty : World :=
  facing [] [Some (burst ++ [Message "<hid state>"])%list] [].

(** A client that has sent a key event over its WebSocket ... *)
Definition connected : World :=
  snd (AsyncKVMClient.ws_send "key" (AsyncKeyboard.key_event "Enter" true) online).

(** ... and one whose WebSocket will then fail to close. *)
Definition stubborn : World :=
  snd (AsyncKVMClient.ws_send "key" (AsyncKeyboard.key_event "Enter" true)
         (facing [] [Some burst] [false; true])).

End Sample.

#[local] Existing Instance Sample.runtime.

(* ================================================================== *)
(** * Vocabulary of the statements *)

(** [d.get(k, default)] on the items of a dict. *)
Definition field (k : string) (d : list (string * pyval)) (default : pyval) : pyval :=
  match assoc k d with Some v => v | None => default end.

Definition raises_AuthError {A : Type} (r : result A) : bool :=
  match r with Raise e => is_AuthError e | Ok _ => false end.

(** The frame [ws_send] serialises. *)
Definition ws_frame (event_type : string) (event : pyval) : pyval :=
  PyDict [("event_type", PyStr event_type); ("event", event)].

(** A view of the trace: what each event contributes, in order. *)
Definition seen {X : Type} (view : io_event -> list X) (l : list io_event) : list X :=
  flat_map view l.

(** [emits view m F]: a run of [m] that returns adds exactly [F] to the
    view of the trace; a run that raises adds a prefix of [F]. *)
Definition emits {X A : Type} (view : io_event -> list X) (m : M A) (F : list X) : Prop :=
  forall w r w', m w = (r, w') ->
    exists F', seen view (log w') = (seen view (log w) ++ F')%list
               /\ match r with
                  | Ok _ => F' = F
                  | Raise _ => exists rest, F = (F' ++ rest)%list
                  end.

(** The frames put on the WebSocket, in order. *)
Definition sent_frame (ev : io_event) : list pyval :=
  match ev with WsSend _ f => [f] | _ => [] end.

Definition sent (l : list io_event) : list pyval := seen sent_frame l.

Definition sends {A : Type} (m : M A) (F : list pyval) : Prop := emits sent_frame m F.

Definition key_frame (state : bool) (key : string) : pyval :=
  ws_frame "key" (AsyncKeyboard.key_event key state).

Definition move_frame (x y : Z) : pyval :=
  ws_frame "mouse_move" (AsyncMouse.move_event x y).

Definition button_frame (button : string) (state : bool) : pyval :=
  ws_frame "mouse_button" (AsyncMouse.button_event button state).

(** The point [drag] computes for step [i] of [steps], between [a] and
    [b] on one axis. *)
Definition drag_point (a b i steps : Z) : result Z :=
  (t <- truediv i steps ;; AsyncMouse.interpolate a b t)%res.

(** What makes [p] the point of step [i] of a drag. *)
Definition is_drag_point (from_x from_y to_x to_y steps : Z) (i : Z) (p : Z * Z) : Prop :=
  drag_point from_x to_x i steps = Ok (fst p)
  /\ drag_point from_y to_y i steps = Ok (snd p).

Definition move_to (p : Z * Z) : pyval := move_frame (fst p) (snd p).

(** An int that binary64 holds exactly. *)
Definition exact_in_binary64 (n : Z) : Prop := Z.abs n < 2 ^ 53.

(** The interpolation as the specification writes it,
    [int(from + (to - from) * i/10)]: the rational value, truncated ... *)
Definition stated_point (a b i : Z) : Z := Z.quot (a * 10 + (b - a) * i) 10.

(** ... and the same expression as Python evaluates it, the product
    taken on ints before the one division. *)
Definition stated_point_py (a b i : Z) : result Z :=
  (q <- truediv ((b - a) * i) 10 ;;
   a' <- float_of_int a ;;
   int_of_float (Binary64.add a' q))%res.

(** The frames of a drag with [steps=10] as the specification states
    them. *)
Definition stated_drag_frames (from_x from_y to_x to_y : Z) (button : string) : list pyval :=
  ([move_frame from_x from_y; button_frame button true]
   ++ map (fun i => move_frame (stated_point from_x to_x i) (stated_point from_y to_y i))
        (range 1 11)
   ++ [button_frame button false])%list.



(** A message whose JSON object has [event_type] "streamer". *)
Definition is_streamer {rt : Runtime} (msg : string) : bool :=
  match json_loads msg with
  | Some (PyDict d) => eq_str (field "event_type" d PyNone) "streamer"
  | _ => false
  end.

(** What a drain of at most [n] receives may have met: no more than [n]
    outcomes, each but the last a message that is not a streamer
    event. *)
Definition drained {rt : Runtime} (n : nat) (R : list recv_outcome) : Prop :=
  (List.length R <= n)%nat
  /\ forall i o, nth_error R i = Some o -> (S i < List.length R)%nat ->
       exists m, o = Message m /\ is_streamer m = false.


(** The one request [_ensure_token] makes. *)
Definition login_request (c : Config) : Request :=
  {| method := "POST"; url := "/api/auth/login"; params := None;
     data := Some (PyDict [("user", PyStr (username c)); ("passwd", PyStr (password c))]);
     body := None; headers := [] |}.

(** The request [upload] makes for the image [name] with the bytes [data_]. *)
Definition upload_request (name : string) (data_ : string) : Request :=
  {| method := "POST"; url := "/api/msd/write";
     params := Some [("image", PyStr name)]; data := None; body := Some data_;
     headers := [("Content-Type", "application/octet-stream")] |}.

(** The image name as the specification states it: the supplied name
    when one is given, the base name of the file otherwise. *)
Definition stated_image_name {rt : Runtime} (file_path : string)
    (image_name : option string) : string :=
  match image_name with
  | Some n => n
  | None => path_name file_path
  end.

(** Every connection that is still open is the one the client holds in
    [_ws]: there is at most one live connection. *)
Definition one_live (w : World) : Prop :=
  forall c, conn_closed c w = false -> _ws w = Some c.

Definition no_open_connection (w : World) : Prop :=
  forall c, conn_closed c w = true.

(** [preserves I m]: every run of [m] from a world in [I] ends in [I]. *)
Definition preserves {A : Type} (I : World -> Prop) (m : M A) : Prop :=
  forall w r w', I w -> m w = (r, w') -> I w'.

(** The WebSocket sub-close of [close] is about to fail: there is a
    connection to close and the environment breaks the operation. *)
Definition sub_close_fails (w : World) : bool :=
  match _ws w, fault_script w with
  | Some _, true :: _ => true
  | _, _ => false
  end.

(** The drain loop of [_ensure_ws] followed by its [return self._ws]. *)
Definition drain_then_return {rt : Runtime} (n : nat) (ws : nat) : M nat :=
  bind (try_except (AsyncKVMClient.drain n ws) AsyncKVMClient.only_TimeoutError)
       (fun _ => ret ws).

(** What holds of a system of tasks between two steps: at most one
    live connection; at most one task inside the lock; a task about to
    connect finds no connection open; a task probing [ws] finds it in
    [_ws]. *)
Definition inv (s : Concurrent.system) : Prop :=
  one_live (Concurrent.world s)
  /\ (forall i j p q,
        nth_error (Concurrent.stages s) i = Some (Concurrent.Inside p) ->
        nth_error (Concurrent.stages s) j = Some (Concurrent.Inside q) -> i = j)
  /\ (forall i,
        nth_error (Concurrent.stages s) i = Some (Concurrent.Inside Concurrent.AtConnect) ->
        no_open_connection (Concurrent.world s))
  /\ (forall i ws,
        nth_error (Concurrent.stages s) i = Some (Concurrent.Inside (Concurrent.AtPing ws)) ->
        _ws (Concurrent.world s) = Some ws).

(** [keeps R m]: every run of [m] relates the world it starts in to the
    one it ends in. *)
Definition keeps {A : Type} (R : World -> World -> Prop) (m : M A) : Prop :=
  forall w r w', m w = (r, w') -> R w w'.

(** No connection was made. *)
Definition same_connections (w w' : World) : Prop :=
  List.length (conns w') = List.length (conns w).

(** The stage a task is left in by a block. *)
Definition stage_after (r : result Concurrent.next) : Concurrent.stage :=
  match r with
  | Ok (Concurrent.Goto p') => Concurrent.Inside p'
  | Ok (Concurrent.Returns ws) => Concurrent.Left (Ok ws)
  | Raise e => Concurrent.Left (Raise e)
  end.

(** The HTTP requests issued, in order. *)
Definition request_of (ev : io_event) : list Request :=
  match ev with HttpRequest rq => [rq] | _ => [] end.

Definition requests (l : list io_event) : list Request := seen request_of l.

(** The request [screenshot] makes. *)
Definition snapshot_request : Request :=
  {| method := "GET"; url := "/api/streamer/snapshot"; params := None;
     data := None; body := None; headers := [] |}.

(** The operations of the client and of its video, power and storage
    parts that make one JSON call and hand its result back. *)
Definition json_operations {rt : Runtime} (name : string) (opt : option string)
    (flag : bool) : list (M pyval) :=
  [ AsyncKVMClient.info; AsyncKVMClient.streamer_info;
    AsyncVideo.streamer_info;
    AsyncATX.status; AsyncATX.short_press; AsyncATX.long_press; AsyncATX.reset;
    AsyncMSD.status; AsyncMSD.list_images; AsyncMSD.upload_url name opt;
    AsyncMSD.set_image name flag; AsyncMSD.connect; AsyncMSD.disconnect;
    AsyncMSD.remove_image name ].

(** A status of the 2xx class. *)
Definition is_success (resp : Response) : Prop := 200 <= status_code resp <= 299.

(** The connections made, in order: the handle, the URI, the headers
    and whether the certificate goes unverified. *)
Definition connect_of (ev : io_event)
    : list (nat * string * list (string * string) * bool) :=
  match ev with WsConnect c uri hdrs nv => [(c, uri, hdrs, nv)] | _ => [] end.

Definition connects (l : list io_event) : list (nat * string * list (string * string) * bool) :=
  seen connect_of l.

(** The connection [_ensure_ws] asks for in the world [w]. *)
Definition stated_connect {rt : Runtime} (w : World)
    : nat * string * list (string * string) * bool :=
  (List.length (conns w),
   "wss://" ++ _resolved_ip (cfg w) ++ "/api/ws?stream=0",
   [("Authorization",
     "Basic " ++ b64encode (username (cfg w) ++ ":" ++ password (cfg w)))],
   negb (ssl_verify (cfg w))).

(** The client holds the open connection [c] and the environment is
    not going to break a WebSocket operation. *)
Definition steady (c : nat) (w : World) : Prop :=
  _ws w = Some c /\ conn_closed c w = false /\ fault_script w = [].

(** The probe of the connection [c] is going to fail: the connection
    is closed already, or breaks under the probe. *)
Definition probe_fails (c : nat) (w : World) : Prop :=
  conn_closed c w = true \/ exists bs, fault_script w = true :: bs.

(** Neither the handle nor the connections made change. *)
Definition same_handle (w w' : World) : Prop :=
  _ws w' = _ws w /\ connects (log w') = connects (log w).

(** The operations of the keyboard and of the mouse that go over the
    WebSocket, each with arguments of its own. *)
Definition hid_operations {rt : Runtime} (key : string) (keys : list string)
    (x y : Z) (ox oy : option Z) (button : string)
    (from_x from_y to_x to_y steps : Z) (delta_x delta_y : Z) : list (M unit) :=
  [ AsyncKeyboard.press key; AsyncKeyboard.hold key; AsyncKeyboard.release key;
    AsyncKeyboard.shortcut keys;
    AsyncMouse.move x y; AsyncMouse.click ox oy button; AsyncMouse.right_click ox oy;
    AsyncMouse.middle_click ox oy; AsyncMouse.double_click ox oy;
    AsyncMouse.scroll delta_x delta_y;
    AsyncMouse.drag from_x from_y to_x to_y button steps;
    AsyncMouse.relative_move delta_x delta_y ].

(** A client that has used its WebSocket, when the connection is about
    to break and the device will accept a new one. *)
Definition reconnecting : World :=
  snd (AsyncKVMClient.ws_send "key" (AsyncKeyboard.key_event "Enter" true)
         (Sample.facing [] [Some Sample.burst; Some Sample.burst] [false; true])).

(** What a person watching the WebSocket sees of the keyboard and the
    mouse: a frame put on the wire, or a pause. *)
Inductive beat :=
| Frame (f : pyval)
| Pause (ms : Z).

Definition beat_of (ev : io_event) : list beat :=
  match ev with
  | WsSend _ f => [Frame f]
  | Sleep ms => [Pause ms]
  | _ => []
  end.

Definition beats (l : list io_event) : list beat := seen beat_of l.

Definition paces {A : Type} (m : M A) (F : list beat) : Prop := emits beat_of m F.

(** The beats of one [click]. *)
Definition click_beats (x y : option Z) (button : string) : list beat :=
  match x, y with
  | Some x', Some y' => [Frame (move_frame x' y'); Pause 50]
  | _, _ => []
  end ++ [Frame (button_frame button true); Pause 50; Frame (button_frame button false)].

(** The beats of one [shortcut]. *)
Definition shortcut_beats (keys : list string) : list beat :=
  flat_map (fun k => [Frame (key_frame true k); Pause 20]) keys
  ++ [Pause 50]
  ++ flat_map (fun k => [Frame (key_frame false k); Pause 20]) (rev keys).

(** [falls_short view m F]: a run of [m] that returns adds exactly [F]
    to the view of the trace; a run that raises adds only a part of
    [F] that stops before its end. *)
Definition falls_short {X A : Type} (view : io_event -> list X) (m : M A)
    (F : list X) : Prop :=
  forall w r w', m w = (r, w') ->
    exists F', seen view (log w') = (seen view (log w) ++ F')%list
               /\ match r with
                  | Ok _ => F' = F
                  | Raise _ => exists x rest, F = (F' ++ x :: rest)%list
                  end.

(** The frames of a [shortcut], in order. *)
Definition shortcut_frames (keys : list string) : list pyval :=
  (map (key_frame true) keys ++ map (key_frame false) (rev keys))%list.

(** The point [p] lies in the rectangle spanned by the start and the
    end point of a drag. *)
Definition in_box (from_x from_y to_x to_y : Z) (p : Z * Z) : Prop :=
  Z.min from_x to_x <= fst p <= Z.max from_x to_x
  /\ Z.min from_y to_y <= snd p <= Z.max from_y to_y.

(** The request [AsyncMSD.status] makes. *)
Definition msd_request : Request :=
  {| method := "GET"; url := "/api/msd"; params := None;
     data := None; body := None; headers := [] |}.

(** [n] slashes. *)
Fixpoint slashes (n : nat) : string :=
  match n with
  | O => EmptyString
  | S n' => String "/"%char (slashes n')
  end.

(** The last character of a string, if any. *)
Fixpoint last_char (s : string) : option ascii :=
  match s with
  | EmptyString => None
  | String a EmptyString => Some a
  | String _ s' => last_char s'
  end.

(** A synchronous client made of the sample asynchronous client that
    holds a connection. *)
Definition sync_connected : KVMClient.Sync :=
  {| KVMClient._async_client := Sample.connected; KVMClient.loop_running := true |}.

(** The same, when its WebSocket will fail to close. *)
Definition sync_stubborn : KVMClient.Sync :=
  {| KVMClient._async_client := Sample.stubborn; KVMClient.loop_running := true |}.

(** The request [upload_url] makes: the [image] parameter goes with a
    name that is given and not empty. *)
Definition upload_url_request (url_ : string) (image_name : option string) : Request :=
  {| method := "POST"; url := "/api/msd/write_remote";
     params := Some (("url", PyStr url_) ::
                     match image_name with
                     | None => []
                     | Some n => if String.eqb n "" then [] else [("image", PyStr n)]
                     end);
     data := None; body := None; headers := [] |}.




(* ================================================================== *)
(** * Reasoning about tasks *)

#[local] Open Scope list_scope.

Lemma bind_inv {A B : Type} (m : M A) (k : A -> M B) (w : World) r w' :
  bind m k w = (r, w') ->
  (exists a w1, m w = (Ok a, w1) /\ k a w1 = (r, w'))
  \/ (exists e, m w = (Raise e, w') /\ r = Raise e).
Proof.
  unfold bind. destruct (m w) as [[a|e] w1]; intros H.
  - left. eauto.
  - right. inversion H; subst. eauto.
Qed.

Lemma flat_map_single {A B : Type} (f : A -> B) (l : list A) :
  flat_map (fun x => [f x]) l = map f l.
Proof. induction l; simpl; congruence. Qed.

Lemma bind_ok {A B : Type} (m : M A) (k : A -> M B) (w w1 : World) a :
  m w = (Ok a, w1) -> bind m k w = k a w1.
Proof. unfold bind. intros ->. reflexivity. Qed.

Lemma bind_raise {A B : Type} (m : M A) (k : A -> M B) (w w1 : World) e :
  m w = (Raise e, w1) -> bind m k w = (Raise e, w1).
Proof. unfold bind. intros ->. reflexivity. Qed.

(* ================================================================== *)
(** * The response envelope decoder *)

Section Decoder.
Context {rt : Runtime}.
Import AsyncKVMClient.

Lemma check_response_401 resp :
  status_code resp = 401 ->
  _check_response resp = Raise (AuthError "Authentication failed").
Proof. unfold _check_response. intros ->. reflexivity. Qed.

Lemma check_response_403 resp :
  status_code resp = 403 ->
  _check_response resp = Raise (AuthError "Forbidden").
Proof. unfold _check_response. intros ->. reflexivity. Qed.

Lemma raise_for_status_2xx resp :
  200 <= status_code resp <= 299 -> raise_for_status resp = Ok tt.
Proof.
  intros H. unfold raise_for_status.
  replace (200 <=? status_code resp) with true by (symmetry; apply Z.leb_le; lia).
  replace (status_code resp <=? 299) with true by (symmetry; apply Z.leb_le; lia).
  reflexivity.
Qed.

Lemma check_response_2xx resp d :
  200 <= status_code resp <= 299 ->
  json_loads (content resp) = Some (PyDict d) ->
  _check_response resp =
    if truthy (field "ok" d PyNone)
    then Ok (field "result" d (PyDict []))
    else (result <- Ok (field "result" d (PyDict [])) ;;
          error <- py_get result "error" (PyStr "UnknownError") ;;
          error_msg <- py_get result "error_msg" (PyStr "Unknown error") ;;
          Raise (APIError error error_msg))%res.
Proof.
  intros Hs Hj. unfold _check_response.
  replace (status_code resp =? 401) with false by (symmetry; apply Z.eqb_neq; lia).
  replace (status_code resp =? 403) with false by (symmetry; apply Z.eqb_neq; lia).
  rewrite (raise_for_status_2xx _ Hs). unfold resp_json. rewrite Hj.
  unfold field. simpl. destruct (truthy _); reflexivity.
Qed.

(** C3. On a 2xx response whose body is an envelope (a JSON object
    whose [result], when present on failure, is an object):
    with [ok] true the decoder returns the [result] payload, or an
    empty mapping when the field is absent; with [ok] false it raises
    [APIError] with the [error] and [error_msg] of [result], or with
    the defaults "UnknownError" and "Unknown error" where they are
    absent. *)
Theorem check_response_envelope resp d :
  200 <= status_code resp <= 299 ->
  json_loads (content resp) = Some (PyDict d) ->
  (assoc "ok" d = Some (PyBool true) ->
     _check_response resp = Ok (field "result" d (PyDict [])))
  /\ (assoc "ok" d = Some (PyBool false) ->
      forall rd, field "result" d (PyDict []) = PyDict rd ->
        _check_response resp =
          Raise (APIError (field "error" rd (PyStr "UnknownError"))
                          (field "error_msg" rd (PyStr "Unknown error")))).
Proof.
  intros Hs Hj. rewrite (check_response_2xx _ _ Hs Hj). split.
  - intros Hok. unfold field at 1. rewrite Hok. reflexivity.
  - intros Hok rd Hrd. unfold field at 1. rewrite Hok. simpl. rewrite Hrd.
    reflexivity.
Qed.

End Decoder.

Lemma check_response_envelope_witness :
  (AsyncKVMClient._check_response {| status_code := 200; content := "<info>" |}
     = Ok (PyDict [("version", PyStr "1.0")]))
  /\ (AsyncKVMClient._check_response {| status_code := 200; content := "<login refused>" |}
     = Raise (APIError (PyStr "ForbiddenError") (PyStr "Forbidden")))
  /\ (AsyncKVMClient._check_response
        {| status_code := 204; content := "<failure without details>" |}
     = Raise (APIError (PyStr "UnknownError") (PyStr "Unknown error"))).
Proof.
  split; [|split].
  - refine (proj1 (check_response_envelope
                     {| status_code := 200; content := "<info>" |}
                     [("ok", PyBool true); ("result", PyDict [("version", PyStr "1.0")])]
                     _ _) _); [simpl; lia | reflexivity | reflexivity].
  - refine (proj2 (check_response_envelope
                     {| status_code := 200; content := "<login refused>" |}
                     [("ok", PyBool false);
                      ("result", PyDict [("error", PyStr "ForbiddenError");
                                         ("error_msg", PyStr "Forbidden")])]
                     _ _) _
                  [("error", PyStr "ForbiddenError"); ("error_msg", PyStr "Forbidden")] _);
      [simpl; lia | reflexivity | reflexivity | reflexivity].
  - refine (proj2 (check_response_envelope
                     {| status_code := 204; content := "<failure without details>" |}
                     [("ok", PyBool false)] _ _) _ [] _);
      [simpl; lia | reflexivity | reflexivity | reflexivity].
Defined.

(* ================================================================== *)
(** * HTTP operations and authentication failures *)

Section Http.
Context {rt : Runtime}.
Import AsyncKVMClient.

Lemma http_request_responds rq w r rest :
  http_closed w = false ->
  http_script w = Responds r :: rest ->
  http_request rq w = (Ok r, set_http_script rest (emit (HttpRequest rq) w)).
Proof. unfold http_request. intros -> H. simpl. rewrite H. reflexivity. Qed.

Lemma api_get_auth path params_ w r rest :
  http_closed w = false ->
  http_script w = Responds r :: rest ->
  status_code r = 401 \/ status_code r = 403 ->
  raises_AuthError (fst (_api_get path params_ w)) = true.
Proof.
  intros Ho Hs Hc. unfold _api_get.
  rewrite (bind_ok _ _ _ _ _ (http_request_responds _ _ _ _ Ho Hs)).
  unfold lift. simpl.
  destruct Hc as [Hc|Hc];
    [rewrite (check_response_401 _ Hc) | rewrite (check_response_403 _ Hc)];
    reflexivity.
Qed.

Lemma api_post_auth path params_ data_ content_ headers_ w r rest :
  http_closed w = false ->
  http_script w = Responds r :: rest ->
  status_code r = 401 \/ status_code r = 403 ->
  raises_AuthError (fst (_api_post path params_ data_ content_ headers_ w)) = true.
Proof.
  intros Ho Hs Hc. unfold _api_post.
  rewrite (bind_ok _ _ _ _ _ (http_request_responds _ _ _ _ Ho Hs)).
  unfold lift. simpl.
  destruct Hc as [Hc|Hc];
    [rewrite (check_response_401 _ Hc) | rewrite (check_response_403 _ Hc)];
    reflexivity.
Qed.

Lemma api_get_bytes_401 path params_ w r rest :
  http_closed w = false ->
  http_script w = Responds r :: rest ->
  status_code r = 401 ->
  fst (_api_get_bytes path params_ w) = Raise (AuthError "Authentication failed").
Proof.
  intros Ho Hs Hc. unfold _api_get_bytes.
  rewrite (bind_ok _ _ _ _ _ (http_request_responds _ _ _ _ Ho Hs)).
  rewrite Hc. reflexivity.
Qed.

(** C1, at the input where it fails.  A 403 answer to
    [_api_get_bytes] is not turned into [AuthError]: only 401 is
    tested there, and [raise_for_status] raises the generic
    [HTTPStatusError], whereas [_check_response], on the paths of
    [_api_get] and [_api_post], raises [AuthError] for 401 and 403
    alike. *)
Theorem api_get_bytes_403 path params_ w r rest :
  http_closed w = false ->
  http_script w = Responds r :: rest ->
  status_code r = 403 ->
  fst (_api_get_bytes path params_ w) = Raise (HTTPStatusError 403)
  /\ raises_AuthError (fst (_api_get_bytes path params_ w)) = false
  /\ raises_AuthError (fst (_api_get path params_ w)) = true.
Proof.
  intros Ho Hs Hc.
  assert (E : fst (_api_get_bytes path params_ w) = Raise (HTTPStatusError 403)).
  { unfold _api_get_bytes.
    rewrite (bind_ok _ _ _ _ _ (http_request_responds _ _ _ _ Ho Hs)).
    rewrite Hc. simpl. unfold bind, lift, raise_for_status. rewrite Hc.
    reflexivity. }
  split; [exact E|]. split.
  - rewrite E. reflexivity.
  - apply (api_get_auth _ _ _ _ _ Ho Hs). now right.
Qed.

End Http.

Lemma api_get_bytes_403_witness :
  let w := Sample.facing [Sample.answer 403 "Forbidden"] [] [] in
  fst (AsyncKVMClient._api_get_bytes "streamer/snapshot" [] w) = Raise (HTTPStatusError 403)
  /\ raises_AuthError (fst (AsyncKVMClient._api_get_bytes "streamer/snapshot" [] w)) = false
  /\ raises_AuthError (fst (AsyncKVMClient._api_get "streamer/snapshot" [] w)) = true.
Proof.
  exact (api_get_bytes_403 "streamer/snapshot" []
           (Sample.facing [Sample.answer 403 "Forbidden"] [] [])
           {| status_code := 403; content := "Forbidden" |} []
           eq_refl eq_refl eq_refl).
Defined.

(* ================================================================== *)
(** * What a task adds to the trace *)

Section Trace.
Context {X : Type}.
(** A view of the trace that does not look at connection handshakes,
    probes and inbound messages, nor at the connection a frame goes
    out on. *)
Variable view : io_event -> list X.
Variable frame_view : pyval -> list X.
Hypothesis view_connect : forall c u h n, view (WsConnect c u h n) = [].
Hypothesis view_ping : forall c, view (WsPing c) = [].
Hypothesis view_recv : forall c r, view (WsRecv c r) = [].
Hypothesis view_send : forall c f, view (WsSend c f) = frame_view f.

Lemma seen_emit ev w : seen view (log (emit ev w)) = seen view (log w) ++ view ev.
Proof. unfold seen. simpl. rewrite flat_map_app. simpl. now rewrite app_nil_r. Qed.

Lemma emits_nothing {A : Type} (m : M A) :
  (forall w r w', m w = (r, w') -> log w' = log w) -> forall F, 
  (forall w a w', m w = (Ok a, w') -> F = []) -> emits view m F.
Proof.
  intros H F HF w r w' E. exists []. rewrite (H _ _ _ E), app_nil_r.
  split; [reflexivity|]. destruct r; [symmetry; eauto | exists F; reflexivity].
Qed.

Lemma emits_ret {A : Type} (a : A) : emits view (ret a) [].
Proof.
  intros w r w' E. inversion E; subst. exists []. now rewrite app_nil_r.
Qed.

Lemma emits_raise {A : Type} (e : exn) F : emits view (raise (A := A) e) F.
Proof.
  intros w r w' E. inversion E; subst. exists []. rewrite app_nil_r.
  split; [reflexivity | exists F; reflexivity].
Qed.

Lemma emits_lift {A : Type} (r : result A) : emits view (lift r) [].
Proof.
  intros w r' w' E. inversion E; subst. exists []. rewrite app_nil_r.
  split; [reflexivity|]. destruct r'; [reflexivity | exists []; reflexivity].
Qed.

Lemma emits_gets {A : Type} (f : World -> A) : emits view (gets f) [].
Proof.
  intros w r w' E. inversion E; subst. exists []. now rewrite app_nil_r.
Qed.

Lemma emits_modify (f : World -> World) F :
  (forall w, seen view (log (f w)) = seen view (log w) ++ F) -> emits view (modify f) F.
Proof.
  intros H w r w' E. inversion E; subst. exists F. split; [apply H | reflexivity].
Qed.

Lemma emits_bind {A B : Type} (m : M A) (k : A -> M B) F1 F2 :
  emits view m F1 -> (forall a, emits view (k a) F2) -> emits view (bind m k) (F1 ++ F2).
Proof.
  intros Hm Hk w r w' E.
  destruct (bind_inv _ _ _ _ _ E) as [(a & w1 & E1 & E2) | (e & E1 & ->)].
  - destruct (Hm _ _ _ E1) as (G1 & L1 & ->).
    destruct (Hk a _ _ _ E2) as (G2 & L2 & R2).
    exists (F1 ++ G2). rewrite L2, L1, app_assoc. split; [reflexivity|].
    destruct r; [now subst|]. destruct R2 as (rest & ->).
    exists rest. now rewrite app_assoc.
  - destruct (Hm _ _ _ E1) as (G1 & L1 & (rest & ->)).
    exists G1. split; [exact L1|]. exists (rest ++ F2). now rewrite app_assoc.
Qed.

(** A step that computes without touching the trace, then goes on. *)
Lemma emits_bind_silent {A B : Type} (m : M A) (k : A -> M B) F :
  emits view m [] -> (forall a, emits view (k a) F) -> emits view (bind m k) F.
Proof. intros Hm Hk. exact (emits_bind m k [] F Hm Hk). Qed.

Lemma emits_try_except {A : Type} (m : M A) h :
  emits view m [] -> (forall e k, h e = Some k -> emits view k []) ->
  emits view (try_except m h) [].
Proof.
  intros Hm Hh w r w' E. unfold try_except in E.
  destruct (m w) as [[a|e] w1] eqn:E1.
  - inversion E; subst. exact (Hm _ _ _ E1).
  - destruct (Hm _ _ _ E1) as (G1 & L1 & (rest & R1)).
    symmetry in R1. apply app_eq_nil in R1 as [-> _]. rewrite app_nil_r in L1.
    destruct (h e) as [k|] eqn:Eh.
    + destruct (Hh _ _ Eh _ _ _ E) as (G2 & L2 & R2).
      exists G2. rewrite L2, L1. auto.
    + inversion E; subst. exists []. rewrite app_nil_r.
      split; [exact L1 | exists []; reflexivity].
Qed.

Lemma emits_for_each {A : Type} (l : list A) (body : A -> M unit) g :
  (forall x, emits view (body x) (g x)) ->
  emits view (for_each l body) (flat_map g l).
Proof.
  intros Hb. induction l as [|x l IH]; simpl.
  - apply emits_ret.
  - apply emits_bind; [apply Hb | intros _; exact IH].
Qed.

(** ** The primitives *)

Lemma seen_set_conns v w : seen view (log (set_conns v w)) = seen view (log w).
Proof. reflexivity. Qed.

Lemma emits_sleep ms : emits view (sleep ms) (view (Sleep ms)).
Proof. apply emits_modify. intros w. apply seen_emit. Qed.

Lemma emits_fault : emits view fault [].
Proof.
  intros w r w' E. unfold fault in E.
  destruct (fault_script w); inversion E; subst; exists [];
    now rewrite app_nil_r.
Qed.

Lemma emits_mark_closed (b : bool) c :
  emits view (if b then modify (mark_closed c) else ret tt) [].
Proof.
  destruct b; [|apply emits_ret].
  apply emits_modify. intros w. now rewrite app_nil_r.
Qed.

Lemma emits_ws_ping c : emits view (ws_ping c) [].
Proof.
  unfold ws_ping.
  apply emits_bind_silent; [apply emits_fault | intros b].
  apply emits_bind_silent; [apply emits_mark_closed | intros _].
  apply emits_bind_silent; [apply emits_gets | intros d].
  destruct d; [apply emits_raise|].
  apply emits_modify. intros w. now rewrite seen_emit, view_ping.
Qed.

Lemma emits_ws_write c f : emits view (ws_write c f) (frame_view f).
Proof.
  unfold ws_write.
  apply emits_bind_silent; [apply emits_fault | intros b].
  apply emits_bind_silent; [apply emits_mark_closed | intros _].
  apply emits_bind_silent; [apply emits_gets | intros d].
  destruct d; [apply emits_raise|].
  apply emits_modify. intros w. now rewrite seen_emit, view_send.
Qed.

Lemma emits_ws_recv c : emits view (ws_recv c) [].
Proof.
  intros w r w' E. unfold ws_recv in E. exists [].
  assert (L : seen view (log w') = seen view (log w)).
  { destruct (conn_closed c w);
      [inversion E; subst; now rewrite seen_emit, view_recv, app_nil_r|].
    destruct (nth_error (conns w) c) as [k|];
      [|inversion E; subst; now rewrite seen_emit, view_recv, app_nil_r].
    destruct (inbox k) as [|[m| |] q]; inversion E; subst;
      now rewrite seen_emit, view_recv, app_nil_r. }
  rewrite L, app_nil_r. split; [reflexivity|].
  destruct r; [reflexivity | exists []; reflexivity].
Qed.

Lemma emits_ws_connect u h n : emits view (ws_connect u h n) [].
Proof.
  intros w r w' E. unfold ws_connect in E. exists [].
  assert (L : seen view (log w') = seen view (log w)).
  { destruct (connect_script w) as [|[q|] rest]; inversion E; subst;
      try reflexivity.
    now rewrite seen_emit, view_connect, app_nil_r. }
  rewrite L, app_nil_r. split; [reflexivity|].
  destruct r; [reflexivity | exists []; reflexivity].
Qed.

Lemma emits_http_request rq : emits view (http_request rq) (view (HttpRequest rq)).
Proof.
  intros w r w' E. unfold http_request in E.
  destruct (http_closed w).
  - inversion E; subst. exists []. rewrite app_nil_r. split; [reflexivity|].
    eexists; reflexivity.
  - exists (view (HttpRequest rq)).
    assert (L : seen view (log w') = seen view (log w) ++ view (HttpRequest rq)).
    { simpl in E. destruct (http_script w) as [|[r0|] rest]; inversion E; subst;
        apply seen_emit. }
    split; [exact L|]. destruct r; [reflexivity | exists []; now rewrite app_nil_r].
Qed.

Lemma emits_read_bytes p : emits view (read_bytes p) (view (ReadFile p)).
Proof.
  intros w r w' E. unfold read_bytes in E.
  destruct (fs w p); inversion E; subst.
  - exists (view (ReadFile p)). split; [apply seen_emit | reflexivity].
  - exists []. rewrite app_nil_r. split; [reflexivity | eexists; reflexivity].
Qed.

End Trace.

Section ClientTrace.
Context {rt : Runtime} {X : Type}.
Variable view : io_event -> list X.
Variable frame_view : pyval -> list X.
Hypothesis view_connect : forall c u h n, view (WsConnect c u h n) = [].
Hypothesis view_ping : forall c, view (WsPing c) = [].
Hypothesis view_recv : forall c r, view (WsRecv c r) = [].
Hypothesis view_send : forall c f, view (WsSend c f) = frame_view f.
Import AsyncKVMClient.

Lemma emits_drain n ws : emits view (drain n ws) [].
Proof.
  induction n as [|n IH]; simpl.
  - apply emits_ret.
  - apply emits_bind_silent; [now apply emits_ws_recv | intros msg].
    apply emits_bind_silent; [apply emits_lift | intros d].
    apply emits_bind_silent; [apply emits_lift | intros et].
    destruct (eq_str et "streamer"); [apply emits_ret | exact IH].
Qed.

Lemma emits_connect_and_drain : emits view connect_and_drain [].
Proof.
  unfold connect_and_drain.
  apply emits_bind_silent; [apply emits_gets | intros c].
  apply emits_bind_silent; [now apply emits_ws_connect | intros ws].
  apply emits_bind_silent.
  { apply emits_modify. intros w. now rewrite app_nil_r. }
  intros _. apply emits_bind_silent.
  { apply emits_try_except; [apply emits_drain|].
    intros e k. destruct e; simpl; try discriminate.
    intros [= <-]. apply emits_ret. }
  intros _. apply emits_ret.
Qed.

Lemma emits_ensure_ws : emits view _ensure_ws [].
Proof.
  unfold _ensure_ws, with_lock.
  apply emits_bind_silent; [apply emits_gets | intros cur].
  apply emits_bind_silent.
  - destruct cur as [ws|]; [|apply emits_ret].
    apply emits_try_except.
    + apply emits_bind_silent; [now apply emits_ws_ping | intros _; apply emits_ret].
    + intros e k [= <-].
      apply emits_bind_silent; [|intros _; apply emits_ret].
      apply emits_modify. intros w. now rewrite app_nil_r.
  - intros [ws|]; [apply emits_ret | apply emits_connect_and_drain].
Qed.

Lemma emits_ws_send event_type event :
  emits view (ws_send event_type event) (frame_view (ws_frame event_type event)).
Proof.
  unfold ws_send.
  apply emits_bind_silent; [apply emits_ensure_ws | intros ws].
  now apply emits_ws_write.
Qed.

Lemma emits_api_post path p d c h :
  emits view (_api_post path p d c h)
    (view (HttpRequest {| method := "POST"; url := "/api/" ++ path; params := p;
                          data := d; body := c; headers := h |})).
Proof.
  unfold _api_post.
  rewrite <- (app_nil_r (view _)).
  apply emits_bind; [apply emits_http_request | intros resp; apply emits_lift].
Qed.

Lemma emits_api_get path p :
  emits view (_api_get path p)
    (view (HttpRequest {| method := "GET"; url := "/api/" ++ path;
                          params := or_None p;
                          data := None; body := None; headers := [] |})).
Proof.
  unfold _api_get.
  rewrite <- (app_nil_r (view _)).
  apply emits_bind; [apply emits_http_request | intros resp; apply emits_lift].
Qed.

End ClientTrace.

Section Sends.
Context {rt : Runtime}.

Lemma sends_ws_send event_type event :
  sends (AsyncKVMClient.ws_send event_type event) [ws_frame event_type event].
Proof.
  apply (emits_ws_send sent_frame (fun f => [f])); reflexivity.
Qed.

Lemma sends_sleep ms : sends (sleep ms) [].
Proof. apply (emits_sleep sent_frame). Qed.

Lemma sends_bind {A B : Type} (m : M A) (k : A -> M B) F1 F2 :
  sends m F1 -> (forall a, sends (k a) F2) -> sends (bind m k) (F1 ++ F2).
Proof. apply emits_bind. Qed.

Lemma sends_ok {A : Type} (m : M A) F w a w' :
  sends m F -> m w = (Ok a, w') -> sent (log w') = sent (log w) ++ F.
Proof. intros H E. destruct (H _ _ _ E) as (F' & L & ->). exact L. Qed.

End Sends.

(* ================================================================== *)
(** * Keyboard and mouse events *)

Section Hid.
Context {rt : Runtime}.



Lemma sends_move x y : sends (AsyncMouse.move x y) [move_frame x y].
Proof. apply sends_ws_send. Qed.

Lemma sends_click x y button :
  sends (AsyncMouse.click x y button)
    (match x, y with
     | Some x', Some y' => [move_frame x' y']
     | _, _ => []
     end ++ [button_frame button true; button_frame button false]).
Proof.
  unfold AsyncMouse.click. apply sends_bind.
  - destruct x as [x'|], y as [y'|]; try apply emits_ret.
    change [move_frame x' y'] with ([move_frame x' y'] ++ []).
    apply sends_bind; [apply sends_move | intros _; apply sends_sleep].
  - intros _.
    change [button_frame button true; button_frame button false]
      with ([button_frame button true] ++ ([] ++ [button_frame button false])).
    apply sends_bind; [apply sends_ws_send | intros _].
    apply sends_bind; [apply sends_sleep | intros _; apply sends_ws_send].
Qed.

(** C10. A [click] given only one of the two coordinates sends no
    mouse-move frame: a run that returns has sent the button-down and
    the button-up frame and nothing else, as a click with no
    coordinates does; the move frame is sent exactly when both
    coordinates are given. *)
Theorem click_one_coordinate x y button w w' :
  AsyncMouse.click x y button w = (Ok tt, w') ->
  (x = None \/ y = None ->
     sent (log w') = sent (log w) ++ [button_frame button true; button_frame button false])
  /\ (forall x' y', x = Some x' -> y = Some y' ->
        sent (log w') =
          sent (log w) ++ [move_frame x' y'; button_frame button true;
                           button_frame button false]).
Proof.
  intros E. pose proof (sends_ok _ _ _ _ _ (sends_click x y button) E) as L.
  split.
  - intros [-> | ->]; [|destruct x]; exact L.
  - intros x' y' -> ->. exact L.
Qed.

End Hid.


Lemma click_one_coordinate_witness :
  exists w',
    AsyncMouse.click (Some 640) None "left" Sample.online = (Ok tt, w')
    /\ sent (log w') = [button_frame "left" true; button_frame "left" false].
Proof.
  exists (snd (AsyncMouse.click (Some 640) None "left" Sample.online)).
  assert (E : AsyncMouse.click (Some 640) None "left" Sample.online
              = (Ok tt, snd (AsyncMouse.click (Some 640) None "left" Sample.online)))
    by (vm_compute; reflexivity).
  split; [exact E|].
  exact (proj1 (click_one_coordinate _ _ _ _ _ E) (or_intror eq_refl)).
Defined.

(* ================================================================== *)
(** * Binary64 arithmetic against the Standard Library's specification *)

Module Binary64Checks.
Import Binary64.

(** The model agrees with the Standard Library's binary64 on the
    operations of the interpolation, at sample operands. *)
Example div_7_10 :
  of_spec (SFdiv 53 1024 (spec_of_int 7) (spec_of_int 10))
  = match truediv 7 10 with Ok x => x | Raise _ => NaN end.
Proof. vm_compute. reflexivity. Qed.

Example mul_90_07 :
  of_spec (SFmul 53 1024 (spec_of_int 90)
              (SFdiv 53 1024 (spec_of_int 7) (spec_of_int 10)))
  = match truediv 7 10 with
    | Ok t => mul (Finite (90 * one)) t
    | Raise _ => NaN
    end.
Proof. vm_compute. reflexivity. Qed.

Example add_mul_3_01 :
  of_spec (SFadd 53 1024 (spec_of_int 5)
             (SFmul 53 1024 (spec_of_int (-3))
                (SFdiv 53 1024 (spec_of_int 1) (spec_of_int 10))))
  = match truediv 1 10 with
    | Ok t => add (Finite (5 * one)) (mul (Finite (-3 * one)) t)
    | Raise _ => NaN
    end.
Proof. vm_compute. reflexivity. Qed.

Example big_int_rounds :
  of_int (2 ^ 53 + 1) = Some (of_spec (spec_of_int (2 ^ 53 + 1)))
  /\ of_int (2 ^ 53 + 1) = Some (Finite (2 ^ 53 * one)).
Proof. vm_compute. split; reflexivity. Qed.

Example drag_points_0_90 :
  map (fun i => spec_drag_point 0 90 i 10) (range 1 11)
  = map (fun i => match drag_point 0 90 i 10 with Ok v => Some v | Raise _ => None end)
      (range 1 11)
  /\ map (fun i => spec_drag_point 0 90 i 10) (range 1 11)
    = map Some [9; 18; 27; 36; 45; 54; 62; 72; 81; 90].
Proof. vm_compute. split; reflexivity. Qed.

Example drag_points_back :
  map (fun i => spec_drag_point 1279 (-45) i 10) [3; 7; 10]
  = map (fun i => match drag_point 1279 (-45) i 10 with Ok v => Some v | Raise _ => None end)
      [3; 7; 10]
  /\ map (fun i => spec_drag_point 1279 (-45) i 10) [3; 7; 10] = map Some [881; 352; -45].
Proof. vm_compute. split; reflexivity. Qed.

End Binary64Checks.

(* ================================================================== *)
(** * Binary64 arithmetic on exactly representable ints *)

Section Floats.
Import Binary64.

Lemma one_pos : 0 < one.
Proof. unfold one. apply Z.pow_pos_nonneg; [lia | unfold unit_exp; lia]. Qed.

Lemma rne_div_exact q b : 0 < b -> rne_div (q * b) b = q.
Proof.
  intros Hb. unfold rne_div.
  rewrite Z.div_mul, Z.mod_mul by lia.
  replace (2 * 0 <? b) with true by (symmetry; apply Z.ltb_lt; lia).
  reflexivity.
Qed.

(** Rounding leaves an int below [2^53] as it is. *)
Lemma round_exact n b :
  0 < b -> Z.abs n < 2 ^ 53 -> round (n * one * b) b = Finite (n * one).
Proof.
  intros Hb Hn. pose proof one_pos as H1.
  assert (Hq : Z.abs (n * one * b) / b = Z.abs n * one).
  { rewrite !Z.abs_mul, (Z.abs_eq b), (Z.abs_eq one) by lia. apply Z.div_mul. lia. }
  assert (Hbig : Z.abs (n * one) < 2 ^ (1024 + unit_exp)).
  { rewrite Z.abs_mul, (Z.abs_eq one) by lia.
    apply Z.lt_trans with (2 ^ 53 * one).
    - apply Z.mul_lt_mono_pos_r; lia.
    - unfold one. rewrite <- Z.pow_add_r by (unfold unit_exp; lia).
      apply Z.pow_lt_mono_r; unfold unit_exp; lia. }
  unfold round, ulp_exp. rewrite Hq.
  set (k := Z.max 0 (Z.log2 (Z.abs n * one) - 52)).
  assert (Hk : exists q, n * one = q * 2 ^ k /\ 0 <= k).
  { destruct (Z.eq_dec n 0) as [->|Hn0].
    - exists 0. split; [reflexivity | subst k; lia].
    - assert (Hl : 0 <= Z.log2 (Z.abs n) < 53).
      { split; [apply Z.log2_nonneg | apply Z.log2_lt_pow2; lia]. }
      assert (Ek : k = Z.log2 (Z.abs n) + 1022).
      { subst k. unfold one. rewrite Z.log2_mul_pow2 by (unfold unit_exp; lia).
        unfold unit_exp. lia. }
      exists (n * 2 ^ (52 - Z.log2 (Z.abs n))). split; [|lia].
      rewrite Ek, <- Z.mul_assoc, <- Z.pow_add_r by lia.
      unfold one, unit_exp. f_equal. f_equal. lia. }
  destruct Hk as (q & Eq & Hk0).
  assert (Hp : 0 < 2 ^ k) by (apply Z.pow_pos_nonneg; lia).
  replace (n * one * b) with (q * (b * 2 ^ k)) by (rewrite Eq; ring).
  rewrite rne_div_exact by lia.
  rewrite <- Eq.
  replace (2 ^ (1024 + unit_exp) <=? Z.abs (n * one)) with false
    by (symmetry; apply Z.leb_gt; exact Hbig).
  reflexivity.
Qed.

Lemma float_of_int_exact n :
  exact_in_binary64 n -> float_of_int n = Ok (Finite (n * one)).
Proof.
  intros Hn. unfold float_of_int, of_int.
  replace (n * one) with (n * one * 1) at 1 by ring.
  rewrite round_exact by (exact Hn || lia). reflexivity.
Qed.

Lemma truediv_self_10 : truediv 10 10 = Ok (Finite one).
Proof. vm_compute. reflexivity. Qed.

(** With [t = 1.0] the interpolation lands on the end point. *)
Lemma interpolate_end a b :
  exact_in_binary64 a -> exact_in_binary64 b -> exact_in_binary64 (b - a) ->
  AsyncMouse.interpolate a b (Finite one) = Ok b.
Proof.
  intros Ha Hb Hd. unfold AsyncMouse.interpolate.
  rewrite (float_of_int_exact _ Hd), (float_of_int_exact _ Ha). simpl.
  rewrite round_exact by (exact Hd || apply one_pos).
  replace ((a * one) + ((b - a) * one)) with (b * one * 1) by ring.
  rewrite round_exact by (exact Hb || lia).
  unfold int_of_float, to_int. rewrite Z.quot_mul; [reflexivity|].
  pose proof one_pos. lia.
Qed.

Lemma drag_point_end a b :
  exact_in_binary64 a -> exact_in_binary64 b -> exact_in_binary64 (b - a) ->
  drag_point a b 10 10 = Ok b.
Proof.
  intros Ha Hb Hd. unfold drag_point. rewrite truediv_self_10. simpl.
  now apply interpolate_end.
Qed.

End Floats.

(* ================================================================== *)
(** * Dragging *)

Lemma bind_inv_ok {A B : Type} (m : M A) (k : A -> M B) (w : World) b w' :
  bind m k w = (Ok b, w') ->
  exists a w1, m w = (Ok a, w1) /\ k a w1 = (Ok b, w').
Proof.
  intros E. destruct (bind_inv _ _ _ _ _ E) as [H | (e & _ & H)];
    [exact H | discriminate].
Qed.

Lemma lift_inv_ok {A : Type} (r : result A) (w : World) a w' :
  lift r w = (Ok a, w') -> r = Ok a /\ w' = w.
Proof. unfold lift. intros [= -> ->]. auto. Qed.

Section Drag.
Context {rt : Runtime}.

Lemma drag_step_ok fx fy tx ty steps i w w' :
  AsyncMouse.drag_step fx fy tx ty steps i w = (Ok tt, w') ->
  exists p, is_drag_point fx fy tx ty steps i p
            /\ sent (log w') = sent (log w) ++ [move_to p].
Proof.
  unfold AsyncMouse.drag_step. intros E.
  apply bind_inv_ok in E as (t & w1 & E1 & E).
  apply lift_inv_ok in E1 as [Et ->].
  apply bind_inv_ok in E as (x & w1 & E1 & E).
  apply lift_inv_ok in E1 as [Ex ->].
  apply bind_inv_ok in E as (y & w1 & E1 & E).
  apply lift_inv_ok in E1 as [Ey ->].
  exists (x, y). split.
  - unfold is_drag_point, drag_point. rewrite Et. simpl. auto.
  - refine (sends_ok _ _ _ _ _ _ E).
    change [move_to (x, y)] with ([move_frame x y] ++ []).
    apply sends_bind; [apply sends_move | intros _; apply sends_sleep].
Qed.

Lemma drag_loop_ok fx fy tx ty steps l w w' :
  for_each l (AsyncMouse.drag_step fx fy tx ty steps) w = (Ok tt, w') ->
  exists pts, Forall2 (is_drag_point fx fy tx ty steps) l pts
              /\ sent (log w') = sent (log w) ++ map move_to pts.
Proof.
  revert w. induction l as [|i l IH]; simpl; intros w E.
  - inversion E; subst. exists []. split; [constructor | now rewrite app_nil_r].
  - apply bind_inv_ok in E as ([] & w1 & E1 & E).
    apply drag_step_ok in E1 as (p & Hp & L1).
    apply IH in E as (pts & Hpts & L).
    exists (p :: pts). split; [now constructor|].
    rewrite L, L1, <- app_assoc. reflexivity.
Qed.

(** The frames of a [drag] that returns, for any number of steps. *)
Lemma drag_sent from_x from_y to_x to_y button steps w w' :
  AsyncMouse.drag from_x from_y to_x to_y button steps w = (Ok tt, w') ->
  exists pts,
    Forall2 (is_drag_point from_x from_y to_x to_y steps) (range 1 (steps + 1)) pts
    /\ sent (log w') =
         sent (log w) ++ [move_frame from_x from_y; button_frame button true]
                      ++ map move_to pts ++ [button_frame button false].
Proof.
  unfold AsyncMouse.drag. intros E.
  apply bind_inv_ok in E as ([] & w1 & E1 & E).
  pose proof (sends_ok _ _ _ _ _ (sends_move _ _) E1) as L1.
  apply bind_inv_ok in E as ([] & w2 & E2 & E).
  pose proof (sends_ok _ _ _ _ _ (sends_sleep _) E2) as L2.
  apply bind_inv_ok in E as ([] & w3 & E3 & E).
  pose proof (sends_ok _ _ _ _ _ (sends_ws_send _ _) E3) as L3.
  apply bind_inv_ok in E as ([] & w4 & E4 & E).
  pose proof (sends_ok _ _ _ _ _ (sends_sleep _) E4) as L4.
  apply bind_inv_ok in E as ([] & w5 & E5 & E).
  pose proof (sends_ok _ _ _ _ _ (sends_ws_send _ _) E) as L6.
  apply (drag_loop_ok from_x from_y to_x to_y steps) in E5 as (pts & Hpts & L5).
  exists pts. split; [exact Hpts|].
  rewrite L6, L5, L4, L3, L2, L1, !app_nil_r, <- !app_assoc. reflexivity.
Qed.

Lemma ten_points (P : Z -> Z * Z -> Prop) pts :
  Forall2 P (range 1 (10 + 1)) pts ->
  exists p1 p2 p3 p4 p5 p6 p7 p8 p9 p10,
    pts = [p1; p2; p3; p4; p5; p6; p7; p8; p9; p10]
    /\ P 7 p7 /\ P 10 p10.
Proof.
  assert (R : range 1 (10 + 1) = [1; 2; 3; 4; 5; 6; 7; 8; 9; 10]) by reflexivity.
  rewrite R. clear R. intros H.
  repeat match goal with
         | H : Forall2 _ (_ :: _) _ |- _ => inversion H; subst; clear H
         | H : Forall2 _ [] _ |- _ => inversion H; subst; clear H
         end.
  do 10 eexists. split; [reflexivity|]. split; assumption.
Qed.

(** C5, as amended.  A run of [drag] with [steps=10] that returns has
    sent, in this order: the move to the start point, the button-down
    frame, exactly ten moves, and the button-up frame.  The i-th of the
    ten moves goes to [int(from + (to - from) * t)] on each axis, where
    [t = i / 10] is rounded to a binary64 float before the product and
    the sum, which are rounded too.  When the coordinates and their
    differences are below [2^53] in magnitude, the tenth move goes to
    the end point. *)
Theorem drag_ten_steps from_x from_y to_x to_y button w w' :
  AsyncMouse.drag from_x from_y to_x to_y button 10 w = (Ok tt, w') ->
  exists pts,
    Forall2 (is_drag_point from_x from_y to_x to_y 10) (range 1 11) pts
    /\ List.length pts = 10%nat
    /\ sent (log w') =
         sent (log w) ++ [move_frame from_x from_y; button_frame button true]
                      ++ map move_to pts ++ [button_frame button false]
    /\ (exact_in_binary64 from_x -> exact_in_binary64 to_x ->
        exact_in_binary64 (to_x - from_x) ->
        exact_in_binary64 from_y -> exact_in_binary64 to_y ->
        exact_in_binary64 (to_y - from_y) ->
        nth 9 pts (0, 0) = (to_x, to_y)).
Proof.
  intros E. destruct (drag_sent _ _ _ _ _ _ _ _ E) as (pts & Hpts & L).
  exists pts. split; [exact Hpts|].
  split; [symmetry; exact (Forall2_length Hpts)|].
  split; [exact L|].
  intros Hfx Htx Hdx Hfy Hty Hdy.
  destruct (ten_points _ _ Hpts)
    as (p1 & p2 & p3 & p4 & p5 & p6 & p7 & p8 & p9 & [px py] & -> & _ & Hx & Hy).
  simpl in Hx, Hy |- *.
  rewrite (drag_point_end _ _ Hfx Htx Hdx) in Hx.
  rewrite (drag_point_end _ _ Hfy Hty Hdy) in Hy.
  congruence.
Qed.

End Drag.

Lemma ok_run {A : Type} (m : M A) (w : World) (a : A) :
  fst (m w) = Ok a -> m w = (Ok a, snd (m w)).
Proof. destruct (m w) as [r w']. simpl. intros ->. reflexivity. Qed.

(** Dragging from (0, 0) to (90, 0) on the sample device returns. *)
Lemma sample_drag_returns :
  fst (AsyncMouse.drag 0 0 90 0 "left" 10 Sample.online) = Ok tt.
Proof. vm_compute. reflexivity. Qed.

Lemma drag_ten_steps_witness :
  exists w' pts,
    AsyncMouse.drag 0 0 90 0 "left" 10 Sample.online = (Ok tt, w')
    /\ Forall2 (is_drag_point 0 0 90 0 10) (range 1 11) pts
    /\ sent (log w') =
         sent (log Sample.online) ++ [move_frame 0 0; button_frame "left" true]
           ++ map move_to pts ++ [button_frame "left" false]
    /\ nth 9 pts (0, 0) = (90, 0).
Proof.
  pose proof (ok_run _ _ _ sample_drag_returns) as E.
  exists (snd (AsyncMouse.drag 0 0 90 0 "left" 10 Sample.online)).
  destruct (drag_ten_steps _ _ _ _ _ _ _ E) as (pts & F & _ & L & P).
  exists pts.
  split; [exact E|]. split; [exact F|]. split; [exact L|].
  apply P; vm_compute; reflexivity.
Defined.

(** C5 as stated fails.  Dragging from (0, 0) to (90, 0), the seventh
    of the ten moves goes to x = 62, because [90 * 0.7] is
    [62.99999999999999] in binary64, while [int(0 + 90 * 7/10)] is 63,
    in exact arithmetic as well as evaluated by Python; and with the
    source's own expression the tenth move from 0 towards [2^53 + 1]
    goes to [2^53]. *)
Lemma drag_stated_points_counterexample :
  ~ (forall from_x from_y to_x to_y button w w',
       AsyncMouse.drag from_x from_y to_x to_y button 10 w = (Ok tt, w') ->
       sent (log w') =
         sent (log w) ++ stated_drag_frames from_x from_y to_x to_y button)
  /\ drag_point 0 90 7 10 = Ok 62
  /\ stated_point 0 90 7 = 63
  /\ stated_point_py 0 90 7 = Ok 63
  /\ drag_point 0 (2 ^ 53 + 1) 10 10 = Ok (2 ^ 53).
Proof.
  assert (P7 : drag_point 0 90 7 10 = Ok 62) by (vm_compute; reflexivity).
  split; [|split; [exact P7|]; split; [|split]; vm_compute; reflexivity].
  intros H.
  pose proof (ok_run _ _ _ sample_drag_returns) as E.
  specialize (H _ _ _ _ _ _ _ E).
  destruct (drag_sent _ _ _ _ _ _ _ _ E) as (pts & Hpts & L).
  rewrite L in H. apply app_inv_head in H.
  destruct (ten_points _ _ Hpts)
    as (p1 & p2 & p3 & p4 & p5 & p6 & [x7 y7] & p8 & p9 & p10 & -> & [Hx _] & _).
  unfold stated_drag_frames in H.
  assert (R : range 1 11 = [1; 2; 3; 4; 5; 6; 7; 8; 9; 10]) by reflexivity.
  rewrite R in H. clear R. simpl in H.
  apply (f_equal (fun l => nth 8 l PyNone)) in H. simpl in H.
  unfold move_to, move_frame, ws_frame, AsyncMouse.move_event in H.
  simpl in Hx, H. injection H as Hx7 _.
  rewrite P7 in Hx. injection Hx as <-.
  vm_compute in Hx7. discriminate Hx7.
Qed.

(* ================================================================== *)
(** * Draining the initial state burst *)

Section Adds.
Context {X : Type} (view : io_event -> list X).





End Adds.

Section Drain.
Context {rt : Runtime}.
Import AsyncKVMClient.




Lemma drained_weaken n n' R : (n <= n')%nat -> drained n R -> drained n' R.
Proof. intros Hn [Hl Hi]. split; [lia | exact Hi]. Qed.






End Drain.

(* ================================================================== *)
(** * The login token *)

Section Token.
Context {rt : Runtime}.
Import AsyncKVMClient.

Lemma requests_emit rq w :
  requests (log (emit (HttpRequest rq) w)) = requests (log w) ++ [rq].
Proof. exact (seen_emit request_of _ _). Qed.

(** C7, as amended.  [_ensure_token] returns the cached token without
    any request when the cached token is truthy (in particular not the
    empty string).  Otherwise it makes one request, the login with the
    user name and the password.  When the answer is an object whose
    [ok] is false or missing, it raises [AuthError], the token stays as
    it was, and a later call that does not need the token, such as
    [_api_get], still returns the payload of a successful answer.  When
    [ok] is true, the token in [result] is cached and returned. *)
Theorem ensure_token_cases w :
  (truthy (_token w) = true -> _ensure_token w = (Ok (_token w), w))
  /\ (truthy (_token w) = false -> http_closed w = false ->
      forall resp rest d,
        http_script w = Responds resp :: rest ->
        json_loads (content resp) = Some (PyDict d) ->
        let w1 := set_http_script rest (emit (HttpRequest (login_request (cfg w))) w) in
        requests (log w1) = requests (log w) ++ [login_request (cfg w)]
        /\ (truthy (field "ok" d PyNone) = false ->
              _ensure_token w = (Raise (AuthError "Login failed"), w1)
              /\ _token w1 = _token w
              /\ forall path params_ r2 rest2 d2,
                   rest = Responds r2 :: rest2 ->
                   200 <= status_code r2 <= 299 ->
                   json_loads (content r2) = Some (PyDict d2) ->
                   assoc "ok" d2 = Some (PyBool true) ->
                   fst (_api_get path params_ w1) = Ok (field "result" d2 (PyDict [])))
        /\ (truthy (field "ok" d PyNone) = true ->
              forall rd t,
                assoc "result" d = Some (PyDict rd) ->
                assoc "token" rd = Some t ->
                _ensure_token w = (Ok t, set_token t w1)
                /\ _token (set_token t w1) = t)).
Proof.
  split.
  - intros Ht. unfold _ensure_token, bind, gets. simpl. rewrite Ht. reflexivity.
  - intros Ht Ho resp rest d Hs Hj w1.
    assert (Hrun : forall k : Response -> M pyval,
              bind (http_request (login_request (cfg w))) k w = k resp w1).
    { intros k. apply bind_ok. now apply http_request_responds. }
    assert (Hstart : _ensure_token w =
              (body <- lift (resp_json resp) ;;
               ok <- lift (py_get body "ok" PyNone) ;;
               if negb (truthy ok) then raise (AuthError "Login failed")
               else
                 result <- lift (py_getitem body "result") ;;
                 token <- lift (py_getitem result "token") ;;
                 modify (set_token token) ;;;
                 ret token)%task w1).
    { unfold _ensure_token. unfold bind at 1, gets at 1. rewrite Ht.
      unfold bind at 1, gets at 1. apply Hrun. }
    split; [apply requests_emit|]. split.
    + intros Hok. split; [|split].
      * rewrite Hstart. unfold resp_json. rewrite Hj.
        unfold bind, lift, py_get. fold (field "ok" d PyNone). rewrite Hok.
        reflexivity.
      * reflexivity.
      * intros path params_ r2 rest2 d2 -> Hc Hj2 Hok2. unfold _api_get.
        rewrite (bind_ok _ _ _ _ _
                   (http_request_responds _ w1 r2 rest2 Ho eq_refl)).
        unfold lift. simpl.
        rewrite (check_response_2xx _ _ Hc Hj2). unfold field at 1.
        rewrite Hok2. reflexivity.
    + intros Hok rd t Hr Htok. split; [|reflexivity].
      rewrite Hstart. unfold resp_json. rewrite Hj.
      unfold bind, lift, py_get. fold (field "ok" d PyNone). rewrite Hok.
      simpl. rewrite Hr. simpl. rewrite Htok. reflexivity.
Qed.

End Token.

Lemma ensure_token_cases_witness :
  let w := Sample.facing [Sample.answer 200 "<login refused>";
                          Sample.answer 200 "<info>"] [] [] in
  let w1 := snd (AsyncKVMClient._ensure_token w) in
  AsyncKVMClient._ensure_token w = (Raise (AuthError "Login failed"), w1)
  /\ requests (log w1) = [login_request (cfg w)]
  /\ _token w1 = PyNone
  /\ fst (AsyncKVMClient._api_get "info" [] w1) = Ok (PyDict [("version", PyStr "1.0")]).
Proof.
  intros w w1.
  destruct (proj2 (ensure_token_cases (rt := Sample.runtime) w) eq_refl eq_refl
              {| status_code := 200; content := "<login refused>" |}
              [Sample.answer 200 "<info>"]
              [("ok", PyBool false);
               ("result", PyDict [("error", PyStr "ForbiddenError");
                                  ("error_msg", PyStr "Forbidden")])]
              eq_refl ltac:(reflexivity)) as (Hreq & Hfail & _).
  destruct (Hfail eq_refl) as (Hrun & Htok & Hnext).
  split; [exact Hrun|]. split; [exact Hreq|]. split; [exact Htok|].
  exact (Hnext "info" [] {| status_code := 200; content := "<info>" |} []
           [("ok", PyBool true); ("result", PyDict [("version", PyStr "1.0")])]
           eq_refl ltac:(simpl; lia) ltac:(reflexivity) eq_refl).
Defined.

(** C7 as stated fails for a cached token that is the empty string:
    after a login whose answer carries the token [""], the token is
    cached, and the next call logs in again instead of returning it. *)
Lemma ensure_token_empty_counterexample :
  ~ (forall w t, _token w = PyStr t ->
       AsyncKVMClient._ensure_token w = (Ok (PyStr t), w))
  /\ (let w0 := Sample.facing [Sample.answer 200 "<login empty token>";
                              Sample.answer 200 "<login ok>"] [] [] in
      let w1 := snd (AsyncKVMClient._ensure_token w0) in
      let w2 := snd (AsyncKVMClient._ensure_token w1) in
      fst (AsyncKVMClient._ensure_token w0) = Ok (PyStr "")
      /\ _token w1 = PyStr ""
      /\ fst (AsyncKVMClient._ensure_token w1) = Ok (PyStr "t0k3n")
      /\ requests (log w2) = [login_request (cfg w0); login_request (cfg w0)]).
Proof.
  split.
  - intros H.
    pose (w1 := snd (AsyncKVMClient._ensure_token
                       (Sample.facing [Sample.answer 200 "<login empty token>";
                                       Sample.answer 200 "<login ok>"] [] []))).
    specialize (H w1 "" eq_refl).
    apply (f_equal fst) in H. vm_compute in H. discriminate H.
  - vm_compute. repeat split; reflexivity.
Qed.

(* ================================================================== *)
(** * Uploading an image *)

Section Upload.
Context {rt : Runtime}.

Lemma upload_run file_path image_name w data_ :
  fs w file_path = Some data_ ->
  AsyncMSD.upload file_path image_name w =
    AsyncKVMClient._api_post "msd/write"
      (Some [("image", PyStr (AsyncMSD.name_or image_name (path_name file_path)))])
      None (Some data_) [("Content-Type", "application/octet-stream")]
      (emit (ReadFile file_path) w).
Proof.
  intros Hf. unfold AsyncMSD.upload, bind at 1, read_bytes. rewrite Hf.
  reflexivity.
Qed.

(** C8, as amended.  [upload] of a readable file on an open client
    makes one request: a POST to [msd/write] whose body is exactly the
    bytes of the file and whose [image] parameter is the supplied name
    when that is a non-empty string, and the base name of the file when
    the name is omitted or empty; a file that cannot be read makes no
    request. *)
Theorem upload_posts_file file_path image_name w :
  (forall data_,
     fs w file_path = Some data_ -> http_closed w = false ->
     let w' := snd (AsyncMSD.upload file_path image_name w) in
     (forall n, image_name = Some n -> n <> "" ->
        requests (log w') = requests (log w) ++ [upload_request n data_])
     /\ (image_name = None \/ image_name = Some "" ->
         requests (log w') =
           requests (log w) ++ [upload_request (path_name file_path) data_]))
  /\ (fs w file_path = None ->
      AsyncMSD.upload file_path image_name w = (Raise (OSError file_path), w)).
Proof.
  split.
  - intros data_ Hf Ho w'.
    assert (L : requests (log w') =
                requests (log w) ++
                  [upload_request (AsyncMSD.name_or image_name (path_name file_path)) data_]).
    { subst w'. rewrite (upload_run _ _ _ _ Hf).
      unfold AsyncKVMClient._api_post, bind, http_request. simpl. rewrite Ho.
      destruct (http_script w) as [|[r|] rest]; simpl;
        try (destruct (AsyncKVMClient._check_response r));
        unfold requests, seen; simpl;
        rewrite !flat_map_app; simpl; rewrite !app_nil_r; reflexivity. }
    split.
    + intros n -> Hn. rewrite L. unfold AsyncMSD.name_or. simpl.
      destruct (String.eqb_spec n ""); [contradiction | reflexivity].
    + intros [-> | ->]; rewrite L; reflexivity.
  - intros Hf. unfold AsyncMSD.upload, bind, read_bytes. rewrite Hf. reflexivity.
Qed.

End Upload.

Lemma upload_posts_file_witness :
  let w := Sample.facing [Sample.answer 200 "<written>"] [] [] in
  requests (log (snd (AsyncMSD.upload "/srv/images/debian.iso" (Some "netinst.iso") w)))
    = [upload_request "netinst.iso" "CD001 debian"]
  /\ requests (log (snd (AsyncMSD.upload "/srv/images/debian.iso" None w)))
    = [upload_request "debian.iso" "CD001 debian"].
Proof.
  intros w. split.
  - exact (proj1 (proj1 (upload_posts_file (rt := Sample.runtime)
                           "/srv/images/debian.iso" (Some "netinst.iso") w)
                    "CD001 debian" eq_refl eq_refl)
             "netinst.iso" eq_refl ltac:(discriminate)).
  - exact (proj2 (proj1 (upload_posts_file (rt := Sample.runtime)
                           "/srv/images/debian.iso" None w)
                    "CD001 debian" eq_refl eq_refl)
             (or_introl eq_refl)).
Defined.

(** C8 as stated fails when the supplied image name is the empty
    string: the request then carries the base name of the file. *)
Lemma upload_empty_name_counterexample :
  ~ (forall file_path image_name w data_,
       fs w file_path = Some data_ -> http_closed w = false ->
       requests (log (snd (AsyncMSD.upload file_path image_name w))) =
         requests (log w) ++
           [upload_request (stated_image_name file_path image_name) data_])
  /\ requests (log (snd (AsyncMSD.upload "/srv/images/debian.iso" (Some "")
                          (Sample.facing [Sample.answer 200 "<written>"] [] []))))
     = [upload_request "debian.iso" "CD001 debian"].
Proof.
  split.
  - intros H.
    specialize (H "/srv/images/debian.iso" (Some "")
                  (Sample.facing [Sample.answer 200 "<written>"] [] [])
                  "CD001 debian" eq_refl eq_refl).
    vm_compute in H. discriminate H.
  - vm_compute. reflexivity.
Qed.

(* ================================================================== *)
(** * At most one live connection, and closing *)

Section Preserves.
Variable I : World -> Prop.

Lemma preserves_ret {A : Type} (a : A) : preserves I (ret a).
Proof. intros w r w' H E. inversion E; subst. exact H. Qed.

Lemma preserves_raise {A : Type} (e : exn) : preserves I (raise (A := A) e).
Proof. intros w r w' H E. inversion E; subst. exact H. Qed.

Lemma preserves_lift {A : Type} (x : result A) : preserves I (lift x).
Proof. intros w r w' H E. inversion E; subst. exact H. Qed.

Lemma preserves_gets {A : Type} (f : World -> A) : preserves I (gets f).
Proof. intros w r w' H E. inversion E; subst. exact H. Qed.

Lemma preserves_modify (f : World -> World) :
  (forall w, I w -> I (f w)) -> preserves I (modify f).
Proof. intros Hf w r w' H E. inversion E; subst. auto. Qed.

Lemma preserves_bind {A B : Type} (m : M A) (k : A -> M B) :
  preserves I m -> (forall a, preserves I (k a)) -> preserves I (bind m k).
Proof.
  intros Hm Hk w r w' H E.
  destruct (bind_inv _ _ _ _ _ E) as [(a & w1 & E1 & E2) | (e & E1 & ->)].
  - exact (Hk a _ _ _ (Hm _ _ _ H E1) E2).
  - exact (Hm _ _ _ H E1).
Qed.

Lemma preserves_try_except {A : Type} (m : M A) h :
  preserves I m -> (forall e k, h e = Some k -> preserves I k) ->
  preserves I (try_except m h).
Proof.
  intros Hm Hh w r w' H E. unfold try_except in E.
  destruct (m w) as [[a|e] w1] eqn:E1.
  - inversion E; subst. exact (Hm _ _ _ H E1).
  - destruct (h e) as [k|] eqn:Eh.
    + exact (Hh _ _ Eh _ _ _ (Hm _ _ _ H E1) E).
    + inversion E; subst. exact (Hm _ _ _ H E1).
Qed.

Lemma preserves_for_each {A : Type} (l : list A) (body : A -> M unit) :
  (forall x, preserves I (body x)) -> preserves I (for_each l body).
Proof.
  intros Hb. induction l as [|x l IH]; simpl.
  - apply preserves_ret.
  - apply preserves_bind; [apply Hb | intros _; exact IH].
Qed.

End Preserves.

Section Connections.

Lemma nth_error_update_nth_eq {A : Type} (f : A -> A) (l : list A) c :
  nth_error (update_nth c f l) c = option_map f (nth_error l c).
Proof.
  revert c. induction l as [|x l IH]; intros [|c]; simpl; auto.
Qed.

Lemma nth_error_update_nth_neq {A : Type} (f : A -> A) (l : list A) c c' :
  c' <> c -> nth_error (update_nth c f l) c' = nth_error l c'.
Proof.
  revert c c'. induction l as [|x l IH]; intros [|c] [|c'] H; simpl;
    solve [reflexivity | contradiction | apply IH; congruence].
Qed.

Lemma conn_closed_mark_same c w : conn_closed c (mark_closed c w) = true.
Proof.
  unfold conn_closed, mark_closed. simpl. rewrite nth_error_update_nth_eq.
  destruct (nth_error (conns w) c); reflexivity.
Qed.

Lemma conn_closed_mark_other c c' w :
  c' <> c -> conn_closed c' (mark_closed c w) = conn_closed c' w.
Proof.
  intros H. unfold conn_closed, mark_closed. simpl.
  now rewrite nth_error_update_nth_neq.
Qed.

Lemma conn_closed_set_inbox c c' q w :
  conn_closed c' (set_inbox c q w) = conn_closed c' w.
Proof.
  unfold conn_closed, set_inbox. simpl.
  destruct (Nat.eq_dec c' c) as [->|H].
  - rewrite nth_error_update_nth_eq. destruct (nth_error (conns w) c); reflexivity.
  - now rewrite nth_error_update_nth_neq.
Qed.

Lemma one_live_same w w' :
  conns w' = conns w -> _ws w' = _ws w -> one_live w -> one_live w'.
Proof.
  intros Hc Hw H c. unfold conn_closed. rewrite Hc, Hw. apply H.
Qed.

Lemma one_live_mark_closed c w : one_live w -> one_live (mark_closed c w).
Proof.
  intros H c' Hc'. destruct (Nat.eq_dec c' c) as [->|Hne].
  - rewrite conn_closed_mark_same in Hc'. discriminate.
  - rewrite conn_closed_mark_other in Hc' by exact Hne. exact (H c' Hc').
Qed.

Lemma one_live_set_inbox c q w : one_live w -> one_live (set_inbox c q w).
Proof.
  intros H c' Hc'. rewrite conn_closed_set_inbox in Hc'. exact (H c' Hc').
Qed.

Lemma no_open_one_live w : no_open_connection w -> one_live w.
Proof. intros H c Hc. rewrite H in Hc. discriminate. Qed.

Lemma one_live_no_handle w : one_live w -> _ws w = None -> no_open_connection w.
Proof.
  intros H Hw c. destruct (conn_closed c w) eqn:Hc; [reflexivity|].
  apply H in Hc. congruence.
Qed.

Lemma one_live_dead_handle w c :
  one_live w -> _ws w = Some c -> conn_closed c w = true -> no_open_connection w.
Proof.
  intros H Hw Hc c'. destruct (conn_closed c' w) eqn:Hc'; [reflexivity|].
  pose proof (H c' Hc') as E. rewrite Hw in E. injection E as <-. congruence.
Qed.

Lemma no_open_mark_closed c w : one_live w -> _ws w = Some c ->
  no_open_connection (mark_closed c w).
Proof.
  intros H Hw. apply (one_live_dead_handle _ c).
  - now apply one_live_mark_closed.
  - exact Hw.
  - apply conn_closed_mark_same.
Qed.

Lemma no_open_same w w' :
  conns w' = conns w -> no_open_connection w -> no_open_connection w'.
Proof. intros Hc H c. unfold conn_closed. rewrite Hc. apply H. Qed.

(** ** The primitives keep the invariant *)

Lemma one_live_fault : preserves one_live fault.
Proof.
  intros w r w' H E. unfold fault in E.
  destruct (fault_script w); inversion E; subst; exact H.
Qed.

Lemma one_live_break (b : bool) c :
  preserves one_live (if b then modify (mark_closed c) else ret tt).
Proof.
  destruct b; [|apply preserves_ret].
  apply preserves_modify. intros w. apply one_live_mark_closed.
Qed.

Lemma one_live_ws_ping c : preserves one_live (ws_ping c).
Proof.
  unfold ws_ping.
  apply preserves_bind; [apply one_live_fault | intros b].
  apply preserves_bind; [apply one_live_break | intros _].
  apply preserves_bind; [apply preserves_gets | intros d].
  destruct d; [apply preserves_raise|].
  apply preserves_modify. intros w. now apply one_live_same.
Qed.

Lemma one_live_ws_write c f : preserves one_live (ws_write c f).
Proof.
  unfold ws_write.
  apply preserves_bind; [apply one_live_fault | intros b].
  apply preserves_bind; [apply one_live_break | intros _].
  apply preserves_bind; [apply preserves_gets | intros d].
  destruct d; [apply preserves_raise|].
  apply preserves_modify. intros w. now apply one_live_same.
Qed.

Lemma one_live_ws_recv c : preserves one_live (ws_recv c).
Proof.
  intros w r w' H E. unfold ws_recv in E.
  destruct (conn_closed c w); [inversion E; subst; now apply (one_live_same w)|].
  destruct (nth_error (conns w) c) as [k|];
    [|inversion E; subst; now apply (one_live_same w)].
  destruct (inbox k) as [|[m| |] q]; inversion E; subst.
  - now apply (one_live_same w).
  - apply (one_live_same (set_inbox c q w)); auto. now apply one_live_set_inbox.
  - apply (one_live_same (set_inbox c q w)); auto. now apply one_live_set_inbox.
  - apply (one_live_same (mark_closed c (set_inbox c q w))); auto.
    now apply one_live_mark_closed, one_live_set_inbox.
Qed.

Lemma one_live_http_request rq : preserves one_live (http_request rq).
Proof.
  intros w r w' H E. unfold http_request in E.
  destruct (http_closed w); [inversion E; subst; exact H|].
  simpl in E. destruct (http_script w) as [|[r0|] rest]; inversion E; subst;
    now apply (one_live_same w).
Qed.

Lemma one_live_http_aclose : preserves one_live http_aclose.
Proof.
  intros w r w' H E. unfold http_aclose in E.
  destruct (http_closed w); inversion E; subst;
    [exact H | now apply (one_live_same w)].
Qed.

Lemma one_live_sleep ms : preserves one_live (sleep ms).
Proof. apply preserves_modify. intros w. now apply one_live_same. Qed.

(** A probe that fails has found its connection closed. *)
Lemma ws_ping_raises c w e w' :
  ws_ping c w = (Raise e, w') ->
  conn_closed c w' = true /\ _ws w' = _ws w.
Proof.
  unfold ws_ping, bind, fault, gets, modify, ret, raise. intros E.
  destruct (fault_script w) as [|[|] rest]; simpl in E.
  - destruct (conn_closed c w) eqn:Hc; inversion E; subst. auto.
  - destruct (conn_closed c _) eqn:Hc in E; inversion E; subst. auto.
  - destruct (conn_closed c _) eqn:Hc in E; inversion E; subst. auto.
Qed.

(** Connecting when no connection is open, and keeping the handle. *)
Lemma ws_connect_fresh u h n w r w' :
  no_open_connection w ->
  ws_connect u h n w = (r, w') ->
  match r with
  | Ok c => one_live (set_ws (Some c) w')
  | Raise _ => no_open_connection w'
  end.
Proof.
  intros H E. unfold ws_connect in E.
  destruct (connect_script w) as [|[q|] rest]; injection E as <- <-.
  - now apply (no_open_same w).
  - intros c Hc. unfold conn_closed in Hc. simpl in Hc |- *.
    destruct (Nat.lt_ge_cases c (List.length (conns w))) as [Hlt|Hge].
    + rewrite nth_error_app1 in Hc by exact Hlt.
      specialize (H c). unfold conn_closed in H. rewrite H in Hc. discriminate.
    + rewrite nth_error_app2 in Hc by exact Hge.
      destruct (c - List.length (conns w))%nat as [|d] eqn:Hd.
      * f_equal. lia.
      * simpl in Hc. destruct d; discriminate.
  - now apply (no_open_same w).
Qed.

End Connections.

Section OneLive.
Context {rt : Runtime}.
Import AsyncKVMClient.

Lemma one_live_init h u p v r f : one_live (__init__ h u p v r f).
Proof. intros c Hc. unfold conn_closed in Hc. simpl in Hc. destruct c; discriminate. Qed.

Lemma one_live_drain n ws : preserves one_live (drain n ws).
Proof.
  induction n as [|n IH]; simpl.
  - apply preserves_ret.
  - apply preserves_bind; [apply one_live_ws_recv | intros msg].
    apply preserves_bind; [apply preserves_lift | intros d].
    apply preserves_bind; [apply preserves_lift | intros et].
    destruct (eq_str et "streamer"); [apply preserves_ret | exact IH].
Qed.

Lemma one_live_connect_and_drain w r w' :
  no_open_connection w -> connect_and_drain w = (r, w') -> one_live w'.
Proof.
  intros H E. unfold connect_and_drain in E.
  unfold bind at 1, gets at 1 in E.
  destruct (bind_inv _ _ _ _ _ E) as [(c & w1 & E1 & E2) | (e & E1 & ->)].
  - pose proof (ws_connect_fresh _ _ _ _ _ _ H E1) as H1. simpl in H1.
    unfold bind at 1, modify at 1 in E2.
    revert E2. apply preserves_bind; [|intros _; apply preserves_ret | exact H1].
    apply preserves_try_except; [apply one_live_drain|].
    intros e k. destruct e; simpl; try discriminate.
    intros [= <-]. apply preserves_ret.
  - apply no_open_one_live. exact (ws_connect_fresh _ _ _ _ _ _ H E1).
Qed.

Lemma one_live_ensure_ws : preserves one_live _ensure_ws.
Proof.
  intros w r w' H E. unfold _ensure_ws, with_lock in E.
  unfold bind at 1, gets at 1 in E.
  destruct (_ws w) as [ws|] eqn:Hw.
  - unfold bind at 1, try_except in E.
    destruct (bind (ws_ping ws) (fun _ => ret (Some ws)) w) as [[live|e] w1] eqn:Ep.
    + destruct (bind_inv _ _ _ _ _ Ep) as [(a & w2 & E1 & E2) | (e & _ & E2)];
        [|discriminate].
      inversion E2; subst. inversion E; subst.
      exact (one_live_ws_ping _ _ _ _ H E1).
    + destruct (bind_inv _ _ _ _ _ Ep) as [(a & w2 & _ & E2) | (e' & E1 & _)];
        [discriminate|].
      simpl in E.
      destruct (ws_ping_raises _ _ _ _ E1) as [Hd Hw1].
      pose proof (one_live_ws_ping _ _ _ _ H E1) as H1.
      apply (one_live_connect_and_drain (set_ws None w1) r w'); [|exact E].
      apply (no_open_same w1); [reflexivity|].
      apply (one_live_dead_handle w1 ws H1); [congruence | exact Hd].
  - unfold bind at 1, ret at 1 in E.
    apply (one_live_connect_and_drain w r w'); [|exact E].
    now apply one_live_no_handle.
Qed.

Lemma one_live_ws_send event_type event :
  preserves one_live (ws_send event_type event).
Proof.
  unfold ws_send.
  apply preserves_bind; [apply one_live_ensure_ws | intros ws].
  apply one_live_ws_write.
Qed.

Lemma one_live_api_get path p : preserves one_live (_api_get path p).
Proof.
  unfold _api_get.
  apply preserves_bind; [apply one_live_http_request | intros r; apply preserves_lift].
Qed.

Lemma one_live_api_post path p d c h : preserves one_live (_api_post path p d c h).
Proof.
  unfold _api_post.
  apply preserves_bind; [apply one_live_http_request | intros r; apply preserves_lift].
Qed.

End OneLive.

(* ================================================================== *)
(** * Closing the client *)

Section Close.
Context {rt : Runtime}.
Import AsyncKVMClient.

Lemma close_closed w :
  _ws w = None -> http_closed w = true -> close w = (Ok tt, w).
Proof.
  intros Hw Hh. unfold close, bind, gets, http_aclose, ret.
  rewrite Hw, Hh. reflexivity.
Qed.

Lemma close_without_ws w :
  _ws w = None ->
  close w = (Ok tt, if http_closed w then w else set_http_closed true (emit HttpClose w)).
Proof.
  intros Hw. unfold close, bind, gets, http_aclose, ret. rewrite Hw.
  destruct (http_closed w); reflexivity.
Qed.

Lemma close_with_ws w c :
  _ws w = Some c -> sub_close_fails w = false ->
  close w =
    let w1 := set_ws None (emit (WsClose c) (mark_closed c (snd (fault w)))) in
    (Ok tt, if http_closed w then w1 else set_http_closed true (emit HttpClose w1)).
Proof.
  intros Hw Hf. unfold sub_close_fails in Hf. rewrite Hw in Hf.
  cbv [close ws_close bind gets fault modify raise http_aclose ret snd].
  rewrite Hw.
  destruct (fault_script w) as [|[|] rest] eqn:Hs; [|discriminate|]; simpl;
    destruct (http_closed w); reflexivity.
Qed.

Lemma close_sub_close_fails w :
  sub_close_fails w = true -> close w = (Raise CloseFailed, snd (fault w)).
Proof.
  intros Hf. unfold sub_close_fails in Hf.
  cbv [close ws_close bind gets fault modify raise http_aclose ret snd].
  destruct (_ws w) as [c|]; [|discriminate].
  destruct (fault_script w) as [|[|] rest]; try discriminate. reflexivity.
Qed.

Lemma fault_same w : conns (snd (fault w)) = conns w /\ _ws (snd (fault w)) = _ws w
                     /\ http_closed (snd (fault w)) = http_closed w.
Proof. unfold fault. destruct (fault_script w); simpl; auto. Qed.

Lemma no_open_after_sub_close w c :
  one_live w -> _ws w = Some c -> no_open_connection (mark_closed c (snd (fault w))).
Proof.
  intros H Hw. destruct (fault_same w) as (Hc & Hws & _).
  apply no_open_mark_closed; [|congruence].
  now apply (one_live_same w).
Qed.

Lemma one_live_close : preserves one_live close.
Proof.
  intros w r w' H E.
  destruct (sub_close_fails w) eqn:Hf.
  - rewrite (close_sub_close_fails _ Hf) in E. injection E as <- <-.
    destruct (fault_same w) as (Hc & Hws & _). now apply (one_live_same w).
  - destruct (_ws w) as [c|] eqn:Hw.
    + rewrite (close_with_ws _ _ Hw Hf) in E. injection E as <- <-.
      apply no_open_one_live.
      pose proof (no_open_after_sub_close _ _ H Hw) as Hn.
      destruct (http_closed w); now apply (no_open_same (mark_closed c (snd (fault w)))).
    + rewrite (close_without_ws _ Hw) in E. injection E as <- <-.
      destruct (http_closed w); [exact H | now apply (one_live_same w)].
Qed.

(** C2, as amended.  On a client with at most one live connection:
    when the WebSocket sub-close does not fail, [close] returns, the
    WebSocket it held is closed and forgotten, the HTTP client is
    released and no connection is left open; a second [close] then
    returns too and changes nothing.  When the sub-close fails, [close]
    raises that failure: the connection is kept in [_ws] and the HTTP
    client is as it was, not released by this call. *)
Theorem close_releases w :
  one_live w ->
  (sub_close_fails w = false ->
     exists w', close w = (Ok tt, w')
                /\ _ws w' = None
                /\ http_closed w' = true
                /\ no_open_connection w'
                /\ close w' = (Ok tt, w'))
  /\ (sub_close_fails w = true ->
      exists w', close w = (Raise CloseFailed, w')
                 /\ _ws w' = _ws w
                 /\ http_closed w' = http_closed w
                 /\ conns w' = conns w).
Proof.
  intros H. split; intros Hf.
  - assert (Hdone : exists w', close w = (Ok tt, w') /\ _ws w' = None
                               /\ http_closed w' = true /\ no_open_connection w').
    { destruct (_ws w) as [c|] eqn:Hw.
      - rewrite (close_with_ws _ _ Hw Hf).
        pose proof (no_open_after_sub_close _ _ H Hw) as Hn.
        destruct (fault_same w) as (_ & _ & Hh).
        destruct (http_closed w) eqn:Ho; eexists; (split; [reflexivity|]);
          (split; [reflexivity|]); (split; [simpl; congruence|]);
          now apply (no_open_same (mark_closed c (snd (fault w)))).
      - rewrite (close_without_ws _ Hw).
        pose proof (one_live_no_handle _ H Hw) as Hn.
        destruct (http_closed w) eqn:Ho; eexists; (split; [reflexivity|]);
          (split; [exact Hw || reflexivity|]); (split; [exact Ho || reflexivity|]);
          [exact Hn | now apply (no_open_same w)]. }
    destruct Hdone as (w' & E & Hw' & Hh' & Hn').
    exists w'. repeat (split; [assumption|]). now apply close_closed.
  - exists (snd (fault w)). destruct (fault_same w) as (Hc & Hws & Hh).
    split; [now apply close_sub_close_fails | auto].
Qed.

End Close.

Lemma run_eta {A : Type} (m : M A) (w : World) : m w = (fst (m w), snd (m w)).
Proof. apply surjective_pairing. Qed.

Lemma one_live_facing rs cs bs : one_live (Sample.facing rs cs bs).
Proof.
  apply (one_live_same Sample.fresh); try reflexivity.
  apply one_live_init.
Qed.

Lemma one_live_connected : one_live Sample.connected.
Proof.
  exact (one_live_ws_send _ _ _ _ _ (one_live_facing _ _ _) (run_eta _ _)).
Qed.

Lemma one_live_stubborn : one_live Sample.stubborn.
Proof.
  exact (one_live_ws_send _ _ _ _ _ (one_live_facing _ _ _) (run_eta _ _)).
Qed.

Lemma close_releases_witness :
  (exists w', AsyncKVMClient.close Sample.connected = (Ok tt, w')
              /\ _ws w' = None
              /\ http_closed w' = true
              /\ no_open_connection w'
              /\ AsyncKVMClient.close w' = (Ok tt, w'))
  /\ (exists w', AsyncKVMClient.close Sample.stubborn = (Raise CloseFailed, w')
                 /\ _ws w' = _ws Sample.stubborn
                 /\ http_closed w' = http_closed Sample.stubborn
                 /\ conns w' = conns Sample.stubborn).
Proof.
  split.
  - apply (proj1 (close_releases _ one_live_connected)).
    vm_compute. reflexivity.
  - apply (proj2 (close_releases _ one_live_stubborn)).
    vm_compute. reflexivity.
Defined.

(** C2 as stated fails when the WebSocket sub-close fails: [close]
    raises before it reaches the HTTP client, which stays open, and the
    connection stays in [_ws]. *)
Lemma close_failing_sub_close_counterexample :
  ~ (forall w, one_live w ->
       http_closed (snd (AsyncKVMClient.close w)) = true
       /\ _ws (snd (AsyncKVMClient.close w)) = None)
  /\ _ws Sample.stubborn = Some 0%nat
  /\ conn_closed 0 Sample.stubborn = false
  /\ fst (AsyncKVMClient.close Sample.stubborn) = Raise CloseFailed
  /\ http_closed (snd (AsyncKVMClient.close Sample.stubborn)) = false
  /\ _ws (snd (AsyncKVMClient.close Sample.stubborn)) = Some 0%nat
  /\ conn_closed 0 (snd (AsyncKVMClient.close Sample.stubborn)) = false.
Proof.
  split.
  - intros H. destruct (H _ one_live_stubborn) as [Hh _].
    vm_compute in Hh. discriminate Hh.
  - vm_compute. repeat split; reflexivity.
Qed.

(* ================================================================== *)
(** * Tasks sharing the client *)

Lemma try_except_bind_ok {A B : Type} (m : M A) (k : A -> M B) h w a w1 :
  m w = (Ok a, w1) -> try_except (bind m k) h w = try_except (k a) h w1.
Proof. intros E. unfold try_except, bind. rewrite E. reflexivity. Qed.

Lemma try_except_bind_raise {A B : Type} (m : M A) (k : A -> M B) h w e w1 :
  m w = (Raise e, w1) ->
  try_except (bind m k) h w =
    match h e with Some k' => k' w1 | None => (Raise e, w1) end.
Proof. intros E. unfold try_except, bind. rewrite E. reflexivity. Qed.

Section Faithful.
Context {rt : Runtime}.
Import AsyncKVMClient Concurrent.

Lemma run_recv n : forall ws w fuel,
  (n < fuel)%nat ->
  run fuel (AtRecv n ws) w = Some (drain_then_return (S n) ws w).
Proof.
  induction n as [|n IH]; intros ws w [|fuel] Hf; try lia;
    unfold drain_then_return; cbn [run block drain];
    unfold bind at 4; 
    destruct (ws_recv ws w) as [[msg|e] w1] eqn:Er.
  2:{ do 2 rewrite (try_except_bind_raise _ _ _ _ _ _ Er).
      destruct e; reflexivity. }
  3:{ do 2 rewrite (try_except_bind_raise _ _ _ _ _ _ Er).
      destruct e; reflexivity. }
  all: do 2 rewrite (try_except_bind_ok _ _ _ _ _ _ Er).
  all: unfold try_except, bind, lift.
  all: destruct (json_loads msg) as [data|]; [|reflexivity].
  all: destruct (py_get data "event_type" PyNone) as [et|e]; [|destruct e; reflexivity].
  all: destruct (eq_str et "streamer"); try reflexivity.
  cbn [ret loop]. rewrite IH by lia. reflexivity.
Qed.

Lemma run_connect w fuel :
  (20 < fuel)%nat -> run fuel AtConnect w = Some (connect_and_drain w).
Proof.
  intros Hf. destruct fuel as [|fuel]; [lia|].
  cbn [run block]. unfold connect_and_drain, bind at 1, gets at 1.
  unfold bind at 3, gets at 1.
  set (u := ("wss://" ++ _resolved_ip (cfg w) ++ "/api/ws?stream=0")%string).
  set (h := [("Authorization", ("Basic " ++ b64encode (username (cfg w) ++ ":" ++ password (cfg w)))%string)]).
  unfold bind at 1. unfold bind at 2.
  destruct (ws_connect u h (negb (ssl_verify (cfg w))) w) as [[ws|e] w1]; [|reflexivity].
  unfold bind at 1, modify at 1. unfold bind at 1, modify at 1.
  cbn [ret loop]. rewrite run_recv by lia. reflexivity.
Qed.

Lemma run_step fuel p w :
  run (S fuel) p w =
    match block p w with
    | (Ok (Goto p'), w') => run fuel p' w'
    | (Ok (Returns ws), w') => Some (Ok ws, w')
    | (Raise e, w') => Some (Raise e, w')
    end.
Proof. reflexivity. Qed.

Theorem run_is_ensure_ws w : run 23 AtEntry w = Some (_ensure_ws w).
Proof.
  unfold _ensure_ws, with_lock. rewrite (run_step 22). cbn [block].
  unfold bind at 1, gets at 1. unfold bind at 1, gets at 1.
  destruct (_ws w) as [ws|].
  - cbn [ret]. rewrite (run_step 21). cbn [block].
    unfold bind at 3. unfold try_except, any_Exception.
    destruct (bind (ws_ping ws) (fun _ => ret (Returns ws)) w) as [[nx|e] w1] eqn:E1;
    destruct (bind (ws_ping ws) (fun _ => ret (Some ws)) w) as [[lv|e'] w1'] eqn:E2;
    unfold bind in E1, E2; destruct (ws_ping ws w) as [[[]|e0] w0];
    inversion E1; inversion E2; subst; try reflexivity.
    unfold bind, modify, ret. cbn [fst snd].
    change (run 21 AtConnect (set_ws None w1') = Some (connect_and_drain (set_ws None w1'))).
    apply run_connect. lia.
  - cbn [ret]. unfold bind at 1. apply run_connect. lia.
Qed.
End Faithful.

Section Keeps.
Variable R : World -> World -> Prop.
Hypothesis R_refl : forall w, R w w.
Hypothesis R_trans : forall w1 w2 w3, R w1 w2 -> R w2 w3 -> R w1 w3.

Lemma keeps_ret {A : Type} (a : A) : keeps R (ret a).
Proof. intros w r w' E. inversion E; subst. apply R_refl. Qed.

Lemma keeps_raise {A : Type} (e : exn) : keeps R (raise (A := A) e).
Proof. intros w r w' E. inversion E; subst. apply R_refl. Qed.

Lemma keeps_lift {A : Type} (x : result A) : keeps R (lift x).
Proof. intros w r w' E. inversion E; subst. apply R_refl. Qed.

Lemma keeps_gets {A : Type} (f : World -> A) : keeps R (gets f).
Proof. intros w r w' E. inversion E; subst. apply R_refl. Qed.

Lemma keeps_modify (f : World -> World) :
  (forall w, R w (f w)) -> keeps R (modify f).
Proof. intros Hf w r w' E. inversion E; subst. apply Hf. Qed.

Lemma keeps_bind {A B : Type} (m : M A) (k : A -> M B) :
  keeps R m -> (forall a, keeps R (k a)) -> keeps R (bind m k).
Proof.
  intros Hm Hk w r w' E.
  destruct (bind_inv _ _ _ _ _ E) as [(a & w1 & E1 & E2) | (e & E1 & ->)].
  - exact (R_trans _ _ _ (Hm _ _ _ E1) (Hk a _ _ _ E2)).
  - exact (Hm _ _ _ E1).
Qed.

Lemma keeps_try_except {A : Type} (m : M A) h :
  keeps R m -> (forall e k, h e = Some k -> keeps R k) ->
  keeps R (try_except m h).
Proof.
  intros Hm Hh w r w' E. unfold try_except in E.
  destruct (m w) as [[a|e] w1] eqn:E1.
  - inversion E; subst. exact (Hm _ _ _ E1).
  - destruct (h e) as [k|] eqn:Eh.
    + exact (R_trans _ _ _ (Hm _ _ _ E1) (Hh _ _ Eh _ _ _ E)).
    + inversion E; subst. exact (Hm _ _ _ E1).
Qed.

End Keeps.

Section SameConnections.

Lemma length_update_nth {A : Type} (f : A -> A) (l : list A) c :
  List.length (update_nth c f l) = List.length l.
Proof. revert c. induction l as [|x l IH]; intros [|c]; simpl; auto. Qed.

Lemma same_refl w : same_connections w w.
Proof. reflexivity. Qed.

Lemma same_trans w1 w2 w3 :
  same_connections w1 w2 -> same_connections w2 w3 -> same_connections w1 w3.
Proof. unfold same_connections. congruence. Qed.

Lemma same_mark_closed c w : same_connections w (mark_closed c w).
Proof. apply length_update_nth. Qed.

Lemma same_set_inbox c q w : same_connections w (set_inbox c q w).
Proof. apply length_update_nth. Qed.

Lemma same_ws_ping c : keeps same_connections (ws_ping c).
Proof.
  intros w r w' E. unfold ws_ping, bind, fault, gets, modify, ret, raise in E.
  destruct (fault_script w) as [|[|] rest]; simpl in E;
    destruct (conn_closed c _) in E; inversion E; subst;
    unfold same_connections; simpl; rewrite ?length_update_nth; reflexivity.
Qed.

Lemma same_ws_recv c : keeps same_connections (ws_recv c).
Proof.
  intros w r w' E. unfold ws_recv in E.
  destruct (conn_closed c w); [inversion E; subst; reflexivity|].
  destruct (nth_error (conns w) c) as [k|]; [|inversion E; subst; reflexivity].
  destruct (inbox k) as [|[m| |] q]; inversion E; subst;
    unfold same_connections; simpl; rewrite ?length_update_nth; reflexivity.
Qed.

End SameConnections.

Section Interleaving.
Context {rt : Runtime}.
Import AsyncKVMClient Concurrent.

Lemma lock_free_no_inside st i p :
  lock_free st = true -> nth_error st i <> Some (Inside p).
Proof.
  unfold lock_free. rewrite forallb_forall. intros H E.
  apply nth_error_In in E. specialize (H _ E). discriminate.
Qed.

Lemma nth_error_set_stage st i j x :
  nth_error (set_stage i x st) j =
    if Nat.eqb j i then option_map (fun _ => x) (nth_error st i) else nth_error st j.
Proof.
  unfold set_stage. destruct (Nat.eqb_spec j i) as [->|H].
  - apply nth_error_update_nth_eq.
  - now apply nth_error_update_nth_neq.
Qed.

(** What each block does to the connections. *)
Lemma block_entry w r w' :
  block AtEntry w = (r, w') ->
  w' = w /\ ((exists ws, r = Ok (Goto (AtPing ws)) /\ _ws w = Some ws)
             \/ (r = Ok (Goto AtConnect) /\ _ws w = None)).
Proof.
  cbn [block]. unfold bind, gets. destruct (_ws w) as [ws|]; intros [= <- <-]; eauto.
Qed.

Lemma no_open_peer c w : no_open_connection w -> no_open_connection (mark_closed c w).
Proof.
  intros H c'. destruct (Nat.eq_dec c' c) as [->|Hne].
  - apply conn_closed_mark_same.
  - rewrite conn_closed_mark_other by exact Hne. apply H.
Qed.

Lemma block_ping ws w r w' :
  one_live w -> block (AtPing ws) w = (r, w') ->
  _ws w = Some ws ->
  one_live w' /\ same_connections w w'
  /\ (r = Ok (Returns ws) \/ (r = Ok (Goto AtConnect) /\ no_open_connection w')).
Proof.
  intros H E Hw. cbn [block] in E. unfold try_except, any_Exception in E.
  destruct (bind (ws_ping ws) (fun _ => ret (Returns ws)) w) as [[nx|e] w1] eqn:E1.
  - injection E as <- <-.
    destruct (bind_inv _ _ _ _ _ E1) as [(a & w2 & Ep & E2) | (e & _ & E2)];
      [|discriminate].
    injection E2 as <- <-.
    split; [exact (one_live_ws_ping _ _ _ _ H Ep)|].
    split; [exact (same_ws_ping _ _ _ _ Ep) | now left].
  - destruct (bind_inv _ _ _ _ _ E1) as [(a & w2 & _ & E2) | (e' & Ep & _)];
      [discriminate|].
    unfold bind, modify, ret in E. injection E as <- <-.
    destruct (ws_ping_raises _ _ _ _ Ep) as [Hd Hw1].
    pose proof (one_live_ws_ping _ _ _ _ H Ep) as H1.
    assert (Hn : no_open_connection (set_ws None w1)).
    { apply (no_open_same w1); [reflexivity|].
      apply (one_live_dead_handle w1 ws H1); [congruence | exact Hd]. }
    split; [now apply no_open_one_live|].
    split; [exact (same_ws_ping _ _ _ _ Ep) | right; auto].
Qed.

Lemma block_connect w r w' :
  no_open_connection w -> block AtConnect w = (r, w') ->
  one_live w' /\ (forall p, r = Ok (Goto p) -> exists n ws, p = AtRecv n ws)
  /\ (forall ws, r <> Ok (Returns ws)).
Proof.
  intros H E. cbn [block] in E. unfold bind at 1, gets at 1 in E.
  destruct (bind_inv _ _ _ _ _ E) as [(c & w1 & E1 & E2) | (e & E1 & ->)].
  - pose proof (ws_connect_fresh _ _ _ _ _ _ H E1) as H1. simpl in H1.
    unfold bind, modify, ret in E2. injection E2 as <- <-.
    split; [exact H1|]. split.
    + intros p [= <-]. eauto.
    + intros ws. discriminate.
  - split; [apply no_open_one_live; exact (ws_connect_fresh _ _ _ _ _ _ H E1)|].
    split; [intros p; discriminate | intros ws; discriminate].
Qed.

Lemma block_recv n ws w r w' :
  one_live w -> block (AtRecv n ws) w = (r, w') ->
  one_live w' /\ same_connections w w'
  /\ (forall p, r = Ok (Goto p) -> exists n', p = AtRecv n' ws).
Proof.
  intros H E. cbn [block] in E.
  assert (Hk : forall (I : World -> Prop) (R : World -> World -> Prop),
             (forall w, R w w) -> (forall a b c, R a b -> R b c -> R a c) ->
             preserves I (ws_recv ws) -> keeps R (ws_recv ws) ->
             I w -> I w' /\ R w w').
  { intros I R Rr Rt HI HR Hi. split.
    - revert Hi E. apply preserves_try_except.
      + apply preserves_bind; [exact HI | intros msg].
        apply preserves_bind; [apply preserves_lift | intros d].
        apply preserves_bind; [apply preserves_lift | intros et].
        destruct (eq_str et "streamer"); apply preserves_ret.
      + intros e k. destruct e; try discriminate. intros [= <-]. apply preserves_ret.
    - revert E. apply keeps_try_except; try assumption.
      + apply keeps_bind; [assumption | exact HR | intros msg].
        apply keeps_bind; [assumption | now apply keeps_lift | intros d].
        apply keeps_bind; [assumption | now apply keeps_lift | intros et].
        destruct (eq_str et "streamer"); now apply keeps_ret.
      + intros e k. destruct e; try discriminate. intros [= <-]. now apply keeps_ret. }
  destruct (Hk one_live same_connections same_refl same_trans
              (one_live_ws_recv ws) (same_ws_recv ws) H) as [H1 H2].
  split; [exact H1|]. split; [exact H2|].
  intros p ->. unfold try_except in E.
  destruct (ws_recv ws w) as [[msg|e] w1] eqn:Er.
  - unfold bind at 1 in E. rewrite Er in E. unfold bind, lift in E.
    destruct (json_loads msg) as [d|]; [|discriminate].
    destruct (py_get d "event_type" PyNone) as [et|e0];
      [|destruct e0; cbv [ret] in E; discriminate].
    destruct (eq_str et "streamer"); [discriminate|].
    destruct n; cbv [ret loop] in E; [discriminate|]. injection E as <- _. eauto.
  - unfold bind at 1 in E. rewrite Er in E. destruct e; cbv [ret] in E; discriminate.
Qed.

Lemma fire_resume i s p :
  nth_error (stages s) i = Some (Inside p) ->
  fire (Resume i) s =
    Some {| world := snd (block p (world s));
            stages := set_stage i (stage_after (fst (block p (world s)))) (stages s) |}.
Proof.
  intros H. unfold fire. rewrite H. destruct (block p (world s)) as [r w'].
  reflexivity.
Qed.

Lemma block_keeps_invariant p s :
  inv s -> (exists i, nth_error (stages s) i = Some (Inside p)) ->
  let r := fst (block p (world s)) in
  let w' := snd (block p (world s)) in
  one_live w'
  /\ (r = Ok (Goto AtConnect) -> no_open_connection w')
  /\ (forall ws, r = Ok (Goto (AtPing ws)) -> _ws w' = Some ws)
  /\ (p <> AtConnect -> same_connections (world s) w').
Proof.
  intros (H1 & H2 & H3 & H4) (i & Hi) r w'.
  pose proof (run_eta (block p) (world s)) as E. fold r w' in E.
  destruct p as [|ws| |n ws].
  - destruct (block_entry _ _ _ E) as [Hw Hr]. rewrite Hw.
    split; [exact H1|]. split; [|split].
    + intros Er. destruct Hr as [(ws & Hr & _) | [_ Hn]]; [congruence|].
      now apply one_live_no_handle.
    + intros ws Er. destruct Hr as [(ws' & Hr & Hws) | [Hr _]]; congruence.
    + intros _. apply same_refl.
  - destruct (block_ping _ _ _ _ H1 E (H4 _ _ Hi)) as (Ha & Hb & Hc).
    split; [exact Ha|]. split; [|split].
    + intros Er. destruct Hc as [Hc | [_ Hc]]; [congruence | exact Hc].
    + intros ws' Er. destruct Hc as [Hc | [Hc _]]; congruence.
    + intros _. exact Hb.
  - destruct (block_connect _ _ _ (H3 _ Hi) E) as (Ha & Hb & Hc).
    split; [exact Ha|]. split; [|split].
    + intros Er. destruct (Hb _ Er) as (n & ws & Hp). discriminate.
    + intros ws Er. destruct (Hb _ Er) as (n & ws' & Hp). discriminate.
    + intros Hp. contradiction.
  - destruct (block_recv _ _ _ _ _ H1 E) as (Ha & Hb & Hc).
    split; [exact Ha|]. split; [|split].
    + intros Er. destruct (Hc _ Er) as (n' & Hp). discriminate.
    + intros ws' Er. destruct (Hc _ Er) as (n' & Hp). discriminate.
    + intros _. exact Hb.
Qed.

Lemma fire_inv a s s' : inv s -> fire a s = Some s' -> inv s'.
Proof.
  intros Hinv E. pose proof Hinv as (H1 & H2 & H3 & H4).
  destruct a as [i|i|c].
  - (* a waiting task takes the lock *)
    unfold fire in E.
    destruct (nth_error (stages s) i) as [[| |]|] eqn:Hi; try discriminate.
    destruct (lock_free (stages s)) eqn:Hf; [|discriminate].
    injection E as <-.
    assert (Hin : forall j p, nth_error (set_stage i (Inside AtEntry) (stages s)) j
                              = Some (Inside p) -> j = i /\ p = AtEntry).
    { intros j p. rewrite nth_error_set_stage, Hi.
      destruct (Nat.eqb_spec j i) as [->|Hne]; simpl.
      - intros [= <-]. auto.
      - intros Hj. exfalso. exact (lock_free_no_inside _ _ _ Hf Hj). }
    split; [exact H1|]. split; [|split]; simpl.
    + intros j k p q Hj Hk. apply Hin in Hj as [-> _]. apply Hin in Hk as [-> _].
      reflexivity.
    + intros j Hj. apply Hin in Hj as [_ Hp]. discriminate.
    + intros j ws Hj. apply Hin in Hj as [_ Hp]. discriminate.
  - (* a task inside runs one block *)
    destruct (nth_error (stages s) i) as [[|p|]|] eqn:Hi;
      try (unfold fire in E; rewrite Hi in E; discriminate).
    rewrite (fire_resume _ _ _ Hi) in E. injection E as <-.
    destruct (block_keeps_invariant p s Hinv (ex_intro _ i Hi)) as (Ha & Hb & Hc & _).
    set (r := fst (block p (world s))) in *.
    assert (Hin : forall j q, nth_error (set_stage i (stage_after r) (stages s)) j
                              = Some (Inside q) -> j = i /\ r = Ok (Goto q)).
    { intros j q. rewrite nth_error_set_stage, Hi.
      destruct (Nat.eqb_spec j i) as [->|Hne]; simpl.
      - destruct r as [[p'|ws]|e]; simpl; intros [= <-]. auto.
      - intros Hj. exfalso. apply Hne. exact (H2 _ _ _ _ Hj Hi). }
    split; [exact Ha|]. split; [|split]; simpl.
    + intros j k q q' Hj Hk. apply Hin in Hj as [-> _]. apply Hin in Hk as [-> _].
      reflexivity.
    + intros j Hj. apply Hin in Hj as [_ Hr]. exact (Hb Hr).
    + intros j ws Hj. apply Hin in Hj as [_ Hr]. exact (Hc ws Hr).
  - (* the peer closes a connection *)
    injection E as <-. split; [|split; [|split]]; simpl.
    + now apply one_live_mark_closed.
    + exact H2.
    + intros j Hj. apply no_open_peer. exact (H3 j Hj).
    + intros j ws Hj. exact (H4 j ws Hj).
Qed.

Lemma play_inv schedule : forall s s', inv s -> play schedule s = Some s' -> inv s'.
Proof.
  induction schedule as [|a rest IH]; simpl; intros s s' H E.
  - injection E as <-. exact H.
  - destruct (fire a s) as [s1|] eqn:Ea; [|discriminate].
    exact (IH _ _ (fire_inv _ _ _ H Ea) E).
Qed.

Lemma inv_initial s : one_live (world s) -> lock_free (stages s) = true -> inv s.
Proof.
  intros H Hf. split; [exact H|]. split; [|split].
  - intros i j p q Hi. exfalso. exact (lock_free_no_inside _ _ _ Hf Hi).
  - intros i Hi. exfalso. exact (lock_free_no_inside _ _ _ Hf Hi).
  - intros i ws Hi. exfalso. exact (lock_free_no_inside _ _ _ Hf Hi).
Qed.

(** A connection is opened only by the task inside, at its connect, and
    only when no connection is open. *)
Lemma fire_opens a s s' :
  inv s -> fire a s = Some s' ->
  (List.length (conns (world s)) < List.length (conns (world s')))%nat ->
  no_open_connection (world s)
  /\ exists i, a = Resume i /\ nth_error (stages s) i = Some (Inside AtConnect).
Proof.
  intros Hinv E Hlt. pose proof Hinv as (H1 & H2 & H3 & H4).
  destruct a as [i|i|c].
  - unfold fire in E.
    destruct (nth_error (stages s) i) as [[| |]|]; try discriminate.
    destruct (lock_free (stages s)); [|discriminate].
    injection E as <-. simpl in Hlt. lia.
  - destruct (nth_error (stages s) i) as [[|p|]|] eqn:Hi;
      try (unfold fire in E; rewrite Hi in E; discriminate).
    rewrite (fire_resume _ _ _ Hi) in E. injection E as <-. simpl in Hlt.
    destruct (block_keeps_invariant p s Hinv (ex_intro _ i Hi)) as (_ & _ & _ & Hs).
    destruct p as [|ws| |n ws];
      try (unfold same_connections in Hs; rewrite Hs in Hlt by discriminate; lia).
    split; [exact (H3 _ Hi) | eauto].
  - injection E as <-. simpl in Hlt. rewrite length_update_nth in Hlt. lia.
Qed.

(** C9.  Any number of tasks call [_ensure_ws] on one client, in any
    interleaving of their blocks, with the peer free to close
    connections at any moment.  In every state that can be reached
    from one where no task is inside the lock: at most one connection
    is open; at most one task is inside the [async with]; and whatever
    happens next, a connection is opened only by the task inside, at
    its connect, with no connection open at that moment.  So two
    concurrent calls never hold two open connections. *)
Theorem one_connection_at_a_time schedule s0 s :
  one_live (world s0) -> lock_free (stages s0) = true ->
  play schedule s0 = Some s ->
  (forall c c', conn_closed c (world s) = false ->
                conn_closed c' (world s) = false -> c = c')
  /\ (forall i j p q, nth_error (stages s) i = Some (Inside p) ->
                      nth_error (stages s) j = Some (Inside q) -> i = j)
  /\ (forall a s', fire a s = Some s' ->
        (List.length (conns (world s)) < List.length (conns (world s')))%nat ->
        no_open_connection (world s)
        /\ exists i, a = Resume i /\ nth_error (stages s) i = Some (Inside AtConnect)).
Proof.
  intros H0 Hf E.
  pose proof (play_inv _ _ _ (inv_initial _ H0 Hf) E) as Hinv.
  pose proof Hinv as (H1 & H2 & _).
  split; [|split].
  - intros c c' Hc Hc'. pose proof (H1 _ Hc) as E1. pose proof (H1 _ Hc') as E2.
    congruence.
  - exact H2.
  - intros a s' Ea Hlt. exact (fire_opens _ _ _ Hinv Ea Hlt).
Qed.

End Interleaving.

(** Two tasks on the sample client: the second finds the lock taken
    while the first connects and drains, then finds the connection. *)
Example sample_runtime :
  Sample.base64 "admin:secret" = "YWRtaW46c2VjcmV0"
  /\ Sample.base64 "admin:" = "YWRtaW46"
  /\ Sample.base64 "a:pw" = "YTpwdw=="
  /\ Sample.posix_name "/srv/images/debian.iso" = "debian.iso"
  /\ Sample.posix_name "images/" = "images"
  /\ Sample.posix_name "/" = "".
Proof. vm_compute. repeat split; reflexivity. Qed.

Example second_task_waits :
  let s0 := {| Concurrent.world := Sample.chatty;
               Concurrent.stages := [Concurrent.Waiting; Concurrent.Waiting] |} in
  match Concurrent.play [Concurrent.Enter 0; Concurrent.Resume 0; Concurrent.Resume 0] s0 with
  | Some s => Concurrent.fire (Concurrent.Enter 1) s = None
              /\ Concurrent.fire (Concurrent.Resume 1) s = None
  | None => False
  end.
Proof. vm_compute. split; reflexivity. Qed.

Lemma one_connection_at_a_time_witness :
  let s0 := {| Concurrent.world := Sample.chatty;
               Concurrent.stages := [Concurrent.Waiting; Concurrent.Waiting] |} in
  let schedule :=
    [Concurrent.Enter 0; Concurrent.Resume 0; Concurrent.Resume 0;
     Concurrent.Resume 0; Concurrent.Resume 0; Concurrent.Resume 0;
     Concurrent.Enter 1; Concurrent.Resume 1; Concurrent.Resume 1] in
  exists s,
    Concurrent.play schedule s0 = Some s
    /\ Concurrent.stages s = [Concurrent.Left (Ok 0%nat); Concurrent.Left (Ok 0%nat)]
    /\ List.length (conns (Concurrent.world s)) = 1%nat
    /\ (forall c c', conn_closed c (Concurrent.world s) = false ->
                     conn_closed c' (Concurrent.world s) = false -> c = c').
Proof.
  intros s0 schedule.
  destruct (Concurrent.play schedule s0) as [s|] eqn:E;
    [|vm_compute in E; discriminate E].
  exists s. split; [reflexivity|].
  pose proof (proj1 (one_connection_at_a_time schedule s0 s
                       (one_live_facing _ _ _) eq_refl E)) as H.
  vm_compute in E. injection E as <-.
  split; [reflexivity|]. split; [reflexivity | exact H].
Defined.

(* ================================================================== *)
(** * What a JSON call can return *)

Section Calls.
Context {rt : Runtime}.
Import AsyncKVMClient.

Lemma raise_for_status_not_2xx resp :
  ~ is_success resp -> raise_for_status resp = Raise (HTTPStatusError (status_code resp)).
Proof.
  unfold is_success, raise_for_status. intros H.
  destruct (200 <=? status_code resp) eqn:E1; [|reflexivity].
  destruct (status_code resp <=? 299) eqn:E2; [|reflexivity].
  apply Z.leb_le in E1, E2. lia.
Qed.

Lemma raise_for_status_ok_inv resp : raise_for_status resp = Ok tt -> is_success resp.
Proof.
  unfold is_success, raise_for_status.
  destruct (200 <=? status_code resp) eqn:E1; [|discriminate].
  destruct (status_code resp <=? 299) eqn:E2; [|discriminate].
  apply Z.leb_le in E1, E2. lia.
Qed.

Lemma check_response_ok_inv resp v :
  _check_response resp = Ok v ->
  is_success resp
  /\ exists d, json_loads (content resp) = Some (PyDict d)
       /\ truthy (field "ok" d PyNone) = true
       /\ v = field "result" d (PyDict []).
Proof.
  unfold _check_response.
  destruct (status_code resp =? 401); [discriminate|].
  destruct (status_code resp =? 403); [discriminate|].
  destruct (raise_for_status resp) as [[]|e] eqn:Es; [|discriminate].
  apply raise_for_status_ok_inv in Es. simpl.
  unfold resp_json. destruct (json_loads (content resp)) as [body|] eqn:Ej; [|discriminate].
  simpl. destruct body; try discriminate. simpl.
  fold (field "ok" d PyNone). fold (field "result" d (PyDict [])).
  destruct (truthy (field "ok" d PyNone)) eqn:Et; simpl.
  - intros H. injection H as <-. split; [exact Es|]. exists d. auto.
  - destruct (field "result" d (PyDict [])); simpl; try discriminate.
Qed.

Lemma http_request_ok_inv rq w resp w1 :
  http_request rq w = (Ok resp, w1) ->
  exists rest, http_closed w = false /\ http_script w = Responds resp :: rest
               /\ w1 = set_http_script rest (emit (HttpRequest rq) w).
Proof.
  unfold http_request. destruct (http_closed w); [discriminate|].
  simpl. destruct (http_script w) as [|[r|] rest]; try discriminate.
  intros H. injection H as <- <-. exists rest. auto.
Qed.

Lemma requests_after_request rq rest w :
  requests (log (set_http_script rest (emit (HttpRequest rq) w))) = (requests (log w) ++ [rq])%list.
Proof. exact (requests_emit rq w). Qed.

Lemma api_call_ok_inv rq w v w' :
  bind (http_request rq) (fun resp => lift (_check_response resp)) w = (Ok v, w') ->
  exists resp d rest,
    http_closed w = false /\ http_script w = Responds resp :: rest
    /\ is_success resp
    /\ json_loads (content resp) = Some (PyDict d)
    /\ truthy (field "ok" d PyNone) = true
    /\ v = field "result" d (PyDict [])
    /\ requests (log w') = (requests (log w) ++ [rq])%list.
Proof.
  intros H. apply bind_inv_ok in H. destruct H as (resp & w1 & H1 & H2).
  apply http_request_ok_inv in H1. destruct H1 as (rest & Hc & Hs & ->).
  apply lift_inv_ok in H2. destruct H2 as [H2 E]. subst w'.
  apply check_response_ok_inv in H2. destruct H2 as (Hok & d & Hj & Ht & ->).
  exists resp, d, rest. repeat split; try assumption; try apply Hok.
  apply requests_after_request.
Qed.

(** X1. A JSON call ([_api_get], [_api_post]) returns a value only
    when the client was open, the device answered with a 2xx status
    and a JSON object whose [ok] is true in a truth test; the value is
    then the [result] of that object (an empty mapping when absent),
    and exactly one request has been issued.  So a value is never
    returned from a failure envelope or from an answer outside 2xx. *)
Theorem api_returns_only_success path ps p d c h w v w' :
  _api_get path ps w = (Ok v, w') \/ _api_post path p d c h w = (Ok v, w') ->
  exists resp body rest rq,
    http_closed w = false /\ http_script w = Responds resp :: rest
    /\ is_success resp
    /\ json_loads (content resp) = Some (PyDict body)
    /\ truthy (field "ok" body PyNone) = true
    /\ v = field "result" body (PyDict [])
    /\ requests (log w') = (requests (log w) ++ [rq])%list.
Proof.
  intros [H|H]; apply api_call_ok_inv in H;
    destruct H as (resp & body & rest & H); exists resp, body, rest;
    eexists; exact H.
Qed.

Lemma check_response_status_error resp :
  ~ is_success resp -> status_code resp <> 401 -> status_code resp <> 403 ->
  _check_response resp = Raise (HTTPStatusError (status_code resp)).
Proof.
  intros Hs H1 H3. unfold _check_response.
  apply Z.eqb_neq in H1, H3. rewrite H1, H3.
  rewrite (raise_for_status_not_2xx _ Hs). reflexivity.
Qed.

(** X2. When the device answers a JSON call with a status outside 2xx
    other than 401 and 403, the call raises the HTTP status error of
    httpx for that status, whatever the body is and whatever the JSON
    decoder would make of it: the body is not decoded, so the [error]
    and [error_msg] of a failure envelope sent with such a status are
    never reported, and [APIError] is raised for 2xx answers only. *)
Theorem error_status_hides_envelope path ps p d c h w resp rest :
  http_closed w = false ->
  http_script w = Responds resp :: rest ->
  ~ is_success resp -> status_code resp <> 401 -> status_code resp <> 403 ->
  fst (_api_get path ps w) = Raise (HTTPStatusError (status_code resp))
  /\ fst (_api_post path p d c h w) = Raise (HTTPStatusError (status_code resp))
  /\ forall e m, _check_response resp <> Raise (APIError e m).
Proof.
  intros Ho Hs Hn H1 H3.
  pose proof (check_response_status_error _ Hn H1 H3) as E.
  split; [|split].
  - unfold _api_get. rewrite (bind_ok _ _ _ _ _ (http_request_responds _ _ _ _ Ho Hs)).
    unfold lift. simpl. exact E.
  - unfold _api_post. rewrite (bind_ok _ _ _ _ _ (http_request_responds _ _ _ _ Ho Hs)).
    unfold lift. simpl. exact E.
  - intros e m. rewrite E. discriminate.
Qed.

(** X3. On a 2xx answer the decoder fails with errors of its own when
    the body is not an envelope: a body that is not JSON raises the
    decoder's error; a JSON value that is not an object raises
    [AttributeError]; and so does a failure envelope whose [result] is
    present but is not an object (null, say), in place of [APIError]. *)
Theorem malformed_envelope resp :
  is_success resp ->
  (json_loads (content resp) = None -> _check_response resp = Raise JSONDecodeError)
  /\ (forall v, json_loads (content resp) = Some v -> (forall d, v <> PyDict d) ->
        _check_response resp = Raise AttributeError)
  /\ (forall d v, json_loads (content resp) = Some (PyDict d) ->
        truthy (field "ok" d PyNone) = false ->
        assoc "result" d = Some v -> (forall r, v <> PyDict r) ->
        _check_response resp = Raise AttributeError).
Proof.
  intros Hs.
  assert (E : forall k : pyval -> result pyval,
             _check_response resp =
             (body <- resp_json resp ;;
              ok <- py_get body "ok" PyNone ;;
              if negb (truthy ok) then
                result <- py_get body "result" (PyDict []) ;;
                error <- py_get result "error" (PyStr "UnknownError") ;;
                error_msg <- py_get result "error_msg" (PyStr "Unknown error") ;;
                Raise (APIError error error_msg)
              else py_get body "result" (PyDict []))%res).
  { intros _. unfold _check_response.
    replace (status_code resp =? 401) with false
      by (symmetry; apply Z.eqb_neq; unfold is_success in Hs; lia).
    replace (status_code resp =? 403) with false
      by (symmetry; apply Z.eqb_neq; unfold is_success in Hs; lia).
    rewrite (raise_for_status_2xx _ Hs). reflexivity. }
  specialize (E (fun v => Ok v)). rewrite E. unfold resp_json.
  split; [|split].
  - intros ->. reflexivity.
  - intros v -> Hv. destruct v; try reflexivity. now elim (Hv d).
  - intros d v -> Ht Hr Hv. simpl. unfold field in Ht.
    destruct (assoc "ok" d); rewrite Ht; simpl; rewrite Hr;
      destruct v; try reflexivity; now elim (Hv d0).
Qed.

End Calls.

Lemma api_returns_only_success_witness :
  let w := Sample.facing [Sample.answer 200 "<info>"] [] [] in
  exists resp body rest rq,
    http_closed w = false /\ http_script w = Responds resp :: rest
    /\ is_success resp
    /\ json_loads (content resp) = Some (PyDict body)
    /\ truthy (field "ok" body PyNone) = true
    /\ PyDict [("version", PyStr "1.0")] = field "result" body (PyDict [])
    /\ requests (log (snd (AsyncKVMClient.info w))) = (requests (log w) ++ [rq])%list.
Proof.
  intros w.
  assert (E : AsyncKVMClient._api_get "info" [] w
              = (Ok (PyDict [("version", PyStr "1.0")]), snd (AsyncKVMClient.info w)))
    by (vm_compute; reflexivity).
  exact (api_returns_only_success (rt := Sample.runtime) "info" [] None None None []
           w _ _ (or_introl E)).
Defined.

Lemma error_status_hides_envelope_witness :
  let w := Sample.facing [Sample.answer 400 "<login refused>"] [] [] in
  fst (AsyncKVMClient._api_get "msd" [] w) = Raise (HTTPStatusError 400)
  /\ fst (AsyncKVMClient._api_post "msd/set_connected" (Some [("connected", PyInt 1)])
            None None [] w) = Raise (HTTPStatusError 400)
  /\ forall e m,
       AsyncKVMClient._check_response {| status_code := 400; content := "<login refused>" |}
       <> Raise (APIError e m).
Proof.
  intros w.
  exact (error_status_hides_envelope (rt := Sample.runtime) "msd" []
           (Some [("connected", PyInt 1)]) None None [] w
           {| status_code := 400; content := "<login refused>" |} []
           eq_refl eq_refl
           ltac:(unfold is_success; simpl; lia) ltac:(simpl; lia) ltac:(simpl; lia)).
Defined.

Lemma malformed_envelope_witness :
  AsyncKVMClient._check_response {| status_code := 200; content := "<html>" |}
  = Raise JSONDecodeError.
Proof.
  exact (proj1 (malformed_envelope (rt := Sample.runtime)
                  {| status_code := 200; content := "<html>" |}
                  ltac:(unfold is_success; simpl; lia))
           eq_refl).
Defined.

(* ================================================================== *)
(** * Screenshots *)

Section Screenshot.
Variable writable : string -> bool.
Import AsyncKVMClient.

Lemma api_get_bytes_2xx path w resp rest :
  http_closed w = false ->
  http_script w = Responds resp :: rest ->
  is_success resp ->
  _api_get_bytes path [] w
  = (Ok (content resp),
     set_http_script rest
       (emit (HttpRequest {| method := "GET"; url := "/api/" ++ path; params := None;
                             data := None; body := None; headers := [] |}) w)).
Proof.
  intros Ho Hs Hc. unfold _api_get_bytes.
  rewrite (bind_ok _ _ _ _ _ (http_request_responds _ _ _ _ Ho Hs)).
  replace (status_code resp =? 401) with false
    by (symmetry; apply Z.eqb_neq; unfold is_success in Hc; lia).
  unfold bind, lift. rewrite (raise_for_status_2xx _ Hc). reflexivity.
Qed.

Lemma api_get_bytes_keeps_files path ps w :
  fs (snd (_api_get_bytes path ps w)) = fs w.
Proof.
  unfold _api_get_bytes, bind, http_request.
  destruct (http_closed w); [reflexivity|]. simpl.
  destruct (http_script w) as [|[resp|] rest]; try reflexivity.
  destruct (status_code resp =? 401); [reflexivity|].
  unfold lift, raise, ret. destruct (raise_for_status resp); reflexivity.
Qed.

(** X4. [screenshot] without a path, answered with any 2xx status,
    returns exactly the bytes of the answer and has made one request,
    a GET of [streamer/snapshot] without parameters.  The body is not
    decoded (the function does not depend on the JSON decoder at all):
    a JSON failure envelope sent with a 2xx status is returned as if
    it were the picture. *)
Theorem screenshot_returns_content w resp rest :
  http_closed w = false ->
  http_script w = Responds resp :: rest ->
  is_success resp ->
  exists w', AsyncVideo.screenshot writable None w = (Ok (content resp), w')
    /\ requests (log w') = (requests (log w) ++ [snapshot_request])%list
    /\ fs w' = fs w.
Proof.
  intros Ho Hs Hc. eexists. split; [|split].
  - unfold AsyncVideo.screenshot.
    rewrite (bind_ok _ _ _ _ _ (api_get_bytes_2xx "streamer/snapshot" _ _ _ Ho Hs Hc)).
    reflexivity.
  - exact (requests_emit _ _).
  - reflexivity.
Qed.

(** X5. When [screenshot] with a path returns, the file at that path
    holds exactly the bytes returned and every other file is as it
    was; reading the path back gives those bytes, and an [upload] of
    that path posts them as the body of its request. *)
Theorem screenshot_saved_round_trip {rt : Runtime} p w data_ w' :
  AsyncVideo.screenshot writable (Some p) w = (Ok data_, w') ->
  read_bytes p w' = (Ok data_, emit (ReadFile p) w')
  /\ (forall q, q <> p -> fs w' q = fs w q)
  /\ forall image_name,
       AsyncMSD.upload p image_name w'
       = _api_post "msd/write"
           (Some [("image", PyStr (AsyncMSD.name_or image_name (path_name p)))])
           None (Some data_) [("Content-Type", "application/octet-stream")]
           (emit (ReadFile p) w').
Proof.
  intros H. unfold AsyncVideo.screenshot in H.
  apply bind_inv_ok in H. destruct H as (d0 & w1 & H1 & H2).
  apply bind_inv_ok in H2. destruct H2 as ([] & w2 & H2 & H3).
  unfold ret in H3. injection H3 as <- <-.
  assert (F1 : fs w1 = fs w).
  { pose proof (api_get_bytes_keeps_files "streamer/snapshot" [] w) as F.
    rewrite H1 in F. exact F. }
  unfold write_bytes in H2. destruct (writable p); [|discriminate].
  injection H2 as <-.
  assert (F : fs (set_fs (fun q => if (q =? p)%string then Some d0 else fs w1 q) w1) p
              = Some d0).
  { simpl. rewrite String.eqb_refl. reflexivity. }
  split; [|split].
  - unfold read_bytes. rewrite F. reflexivity.
  - intros q Hq. simpl. apply String.eqb_neq in Hq. rewrite Hq, F1. reflexivity.
  - intros image_name. exact (upload_run _ _ _ _ F).
Qed.

(** X6. A [screenshot] that raises leaves every file as it was,
    whether the request failed, the answer was refused or the path
    could not be written; and with a path that cannot be written the
    snapshot is still requested first, then lost: the call raises
    [OSError] after one request. *)
Theorem screenshot_failure_writes_nothing save_to w e :
  fst (AsyncVideo.screenshot writable save_to w) = Raise e ->
  fs (snd (AsyncVideo.screenshot writable save_to w)) = fs w
  /\ forall p resp rest,
       save_to = Some p -> writable p = false ->
       http_closed w = false -> http_script w = Responds resp :: rest ->
       is_success resp ->
       e = OSError p
       /\ requests (log (snd (AsyncVideo.screenshot writable save_to w)))
          = (requests (log w) ++ [snapshot_request])%list.
Proof.
  intros H. split.
  - destruct (AsyncVideo.screenshot writable save_to w) as [r w'] eqn:E.
    simpl in *. subst r. unfold AsyncVideo.screenshot in E.
    apply bind_inv in E. destruct E as [(d0 & w1 & E1 & E2) | (e' & E1 & _)].
    + pose proof (api_get_bytes_keeps_files "streamer/snapshot" [] w) as F.
      rewrite E1 in F. simpl in F. rewrite <- F.
      apply bind_inv in E2. destruct E2 as [(u & w2 & E2 & E3) | (e' & E2 & _)];
        [discriminate|].
      destruct save_to as [p|]; [|discriminate].
      unfold write_bytes in E2. destruct (writable p); [discriminate|].
      injection E2 as _ <-. reflexivity.
    + pose proof (api_get_bytes_keeps_files "streamer/snapshot" [] w) as F.
      rewrite E1 in F. exact F.
  - intros p resp rest -> Hw Ho Hs Hc. revert H.
    unfold AsyncVideo.screenshot.
    rewrite (bind_ok _ _ _ _ _ (api_get_bytes_2xx "streamer/snapshot" _ _ _ Ho Hs Hc)).
    unfold bind, write_bytes. simpl. rewrite Hw. simpl.
    intros [= <-]. split; [reflexivity|]. exact (requests_emit _ _).
Qed.

End Screenshot.

Lemma screenshot_returns_content_witness :
  let w := Sample.facing [Sample.answer 200 "<failure without details>"] [] [] in
  exists w',
    AsyncVideo.screenshot (fun _ => true) None w = (Ok "<failure without details>", w')
    /\ requests (log w') = (requests (log w) ++ [snapshot_request])%list
    /\ fs w' = fs w.
Proof.
  intros w.
  exact (screenshot_returns_content (fun _ => true) w
           {| status_code := 200; content := "<failure without details>" |} []
           eq_refl eq_refl ltac:(unfold is_success; simpl; lia)).
Defined.

Lemma screenshot_saved_round_trip_witness :
  let w := Sample.facing [Sample.answer 200 "JFIF screen"] [] [] in
  let w' := snd (AsyncVideo.screenshot (fun _ => true) (Some "/tmp/screen.jpg") w) in
  AsyncVideo.screenshot (fun _ => true) (Some "/tmp/screen.jpg") w = (Ok "JFIF screen", w')
  /\ read_bytes "/tmp/screen.jpg" w' = (Ok "JFIF screen", emit (ReadFile "/tmp/screen.jpg") w').
Proof.
  intros w w'.
  assert (E : AsyncVideo.screenshot (fun _ => true) (Some "/tmp/screen.jpg") w
              = (Ok "JFIF screen", w')) by reflexivity.
  split; [exact E|].
  exact (proj1 (screenshot_saved_round_trip (fun _ => true) (rt := Sample.runtime)
                  "/tmp/screen.jpg" w "JFIF screen" w' E)).
Defined.

Lemma screenshot_failure_writes_nothing_witness :
  let w := Sample.facing [Sample.answer 200 "JFIF screen"] [] [] in
  fst (AsyncVideo.screenshot (fun _ => false) (Some "/proc/screen.jpg") w)
  = Raise (OSError "/proc/screen.jpg")
  /\ fs (snd (AsyncVideo.screenshot (fun _ => false) (Some "/proc/screen.jpg") w)) = fs w.
Proof.
  intros w.
  assert (E : fst (AsyncVideo.screenshot (fun _ => false) (Some "/proc/screen.jpg") w)
              = Raise (OSError "/proc/screen.jpg")) by reflexivity.
  split; [exact E|].
  exact (proj1 (screenshot_failure_writes_nothing (fun _ => false)
                  (Some "/proc/screen.jpg") w _ E)).
Defined.

(* ================================================================== *)
(** * The operations built on the calls *)

Section Facade.
Context {rt : Runtime}.
Import AsyncKVMClient.

Lemma bind_fst_raises {A B : Type} (m : M A) (k : A -> M B) w :
  raises_AuthError (fst (m w)) = true -> raises_AuthError (fst (bind m k w)) = true.
Proof. unfold bind. destruct (m w) as [[a|e] w1]; simpl; [discriminate|auto]. Qed.

(** X7. When the device answers 401 or 403, every operation of the
    client and of its keyboard, video, power and storage parts that
    makes a JSON call raises [AuthError], [list_images], [type] and
    [upload] of a readable file included; [screenshot] alone does so
    for 401 only. *)
Theorem facade_auth_errors writable w r rest name opt flag text keymap :
  http_closed w = false ->
  http_script w = Responds r :: rest ->
  status_code r = 401 \/ status_code r = 403 ->
  Forall (fun m => raises_AuthError (fst (m w)) = true) (json_operations name opt flag)
  /\ raises_AuthError (fst (AsyncKeyboard.type text keymap w)) = true
  /\ (forall data_, fs w name = Some data_ ->
        raises_AuthError (fst (AsyncMSD.upload name opt w)) = true)
  /\ (raises_AuthError (fst (AsyncVideo.screenshot writable opt w)) = true
      <-> status_code r = 401).
Proof.
  intros Ho Hs Hc.
  pose proof (fun path ps => api_get_auth path ps _ _ _ Ho Hs Hc) as G.
  pose proof (fun path p d c h => api_post_auth path p d c h _ _ _ Ho Hs Hc) as P.
  split; [|split; [|split]].
  - unfold json_operations.
    repeat (apply Forall_cons; [first [apply G | apply P | idtac]|]);
      [|apply Forall_nil].
    unfold AsyncMSD.list_images. apply bind_fst_raises. apply G.
  - unfold AsyncKeyboard.type. apply bind_fst_raises. apply P.
  - intros data_ Hf. rewrite (upload_run _ _ _ _ Hf).
    exact (api_post_auth _ _ _ _ _ (emit (ReadFile name) w) r rest Ho Hs Hc).
  - unfold AsyncVideo.screenshot, _api_get_bytes, bind.
    rewrite (http_request_responds _ _ _ _ Ho Hs).
    destruct (status_code r =? 401) eqn:E.
    + apply Z.eqb_eq in E. simpl. tauto.
    + apply Z.eqb_neq in E. unfold lift, raise_for_status.
      destruct Hc as [Hc|Hc]; [contradiction|]. rewrite Hc. simpl.
      split; [discriminate|lia].
Qed.

Lemma close_ok_closed w w' : close w = (Ok tt, w') -> http_closed w' = true.
Proof.
  unfold close. intros H.
  apply bind_inv_ok in H. destruct H as (cur & w1 & _ & H).
  apply bind_inv_ok in H. destruct H as (u & w2 & _ & H).
  unfold http_aclose in H. destruct (http_closed w2) eqn:E.
  - injection H as <-. exact E.
  - injection H as <-. reflexivity.
Qed.

Lemma http_request_closed rq w :
  http_closed w = true -> http_request rq w = (Raise ClientClosedError, w).
Proof. unfold http_request. intros ->. reflexivity. Qed.

Lemma api_get_closed path ps w :
  http_closed w = true -> _api_get path ps w = (Raise ClientClosedError, w).
Proof. intros H. unfold _api_get. apply bind_raise, http_request_closed, H. Qed.

Lemma api_post_closed path p d c h w :
  http_closed w = true -> _api_post path p d c h w = (Raise ClientClosedError, w).
Proof. intros H. unfold _api_post. apply bind_raise, http_request_closed, H. Qed.

(** X8. After a [close] that returned, the HTTP side of the client is
    final: every operation that makes a JSON call, [type],
    [screenshot] and a login raise the error of the closed httpx
    client, issue no request and change nothing. *)
Theorem closed_client_refuses writable w w' name opt flag text keymap :
  close w = (Ok tt, w') ->
  Forall (fun m => m w' = (Raise ClientClosedError, w')) (json_operations name opt flag)
  /\ AsyncKeyboard.type text keymap w' = (Raise ClientClosedError, w')
  /\ AsyncVideo.screenshot writable opt w' = (Raise ClientClosedError, w')
  /\ (truthy (_token w') = false -> _ensure_token w' = (Raise ClientClosedError, w')).
Proof.
  intros H. apply close_ok_closed in H.
  pose proof (fun path ps => api_get_closed path ps _ H) as G.
  pose proof (fun path p d c h => api_post_closed path p d c h _ H) as P.
  split; [|split; [|split]].
  - unfold json_operations.
    repeat (apply Forall_cons; [first [apply G | apply P | idtac]|]);
      [|apply Forall_nil].
    unfold AsyncMSD.list_images. apply bind_raise. apply G.
  - unfold AsyncKeyboard.type. apply bind_raise. apply P.
  - unfold AsyncVideo.screenshot. apply bind_raise.
    unfold _api_get_bytes. apply bind_raise, http_request_closed, H.
  - intros Ht. unfold _ensure_token, bind at 1, gets. rewrite Ht.
    unfold bind at 1, gets. apply bind_raise, http_request_closed, H.
Qed.

End Facade.

Lemma facade_auth_errors_witness :
  let w := Sample.facing [Sample.answer 403 "Forbidden"] [] [] in
  Forall (fun m => raises_AuthError (fst (m w)) = true)
    (json_operations "debian.iso" None true)
  /\ raises_AuthError (fst (AsyncVideo.screenshot (fun _ => true) None w)) = false.
Proof.
  intros w.
  pose proof (facade_auth_errors (rt := Sample.runtime) (fun _ => true) w
                {| status_code := 403; content := "Forbidden" |} []
                "debian.iso" None true "ls" "en-us"
                eq_refl eq_refl (or_intror eq_refl)) as H.
  split; [exact (proj1 H)|].
  destruct (raises_AuthError (fst (AsyncVideo.screenshot (fun _ => true) None w))) eqn:E;
    [|reflexivity].
  discriminate (proj1 (proj2 (proj2 (proj2 H))) eq_refl).
Defined.

Lemma closed_client_refuses_witness :
  let w' := snd (AsyncKVMClient.close Sample.connected) in
  AsyncKVMClient.close Sample.connected = (Ok tt, w')
  /\ Forall (fun m => m w' = (Raise ClientClosedError, w'))
       (json_operations "debian.iso" None true).
Proof.
  intros w'.
  assert (E : AsyncKVMClient.close Sample.connected = (Ok tt, w'))
    by (vm_compute; reflexivity).
  split; [exact E|].
  exact (proj1 (closed_client_refuses (rt := Sample.runtime) (fun _ => true)
                  Sample.connected w' "debian.iso" None true "ls" "en-us" E)).
Defined.

(* ================================================================== *)
(** * Logging in *)

Section Login.
Context {rt : Runtime}.
Import AsyncKVMClient.

Lemma ensure_token_requests w resp rest :
  truthy (_token w) = false ->
  http_closed w = false ->
  http_script w = Responds resp :: rest ->
  _ensure_token w =
    (body <- lift (resp_json resp) ;;
     ok <- lift (py_get body "ok" PyNone) ;;
     if negb (truthy ok) then raise (AuthError "Login failed")
     else
       result <- lift (py_getitem body "result") ;;
       token <- lift (py_getitem result "token") ;;
       modify (set_token token) ;;;
       ret token)%task
      (set_http_script rest (emit (HttpRequest (login_request (cfg w))) w)).
Proof.
  intros Ht Ho Hs. unfold _ensure_token, bind at 1, gets. rewrite Ht.
  unfold bind at 1, gets.
  rewrite (bind_ok _ _ _ _ _ (http_request_responds _ _ _ _ Ho Hs)).
  reflexivity.
Qed.

(** X9. A login looks at the body of the answer only: two answers
    with the same body and different statuses have the same outcome.
    Nothing tests the status, so a success envelope sent with status
    500 logs in, and an answer 401 without a JSON body raises the
    decoder's error rather than [AuthError]. *)
Theorem login_ignores_status w s1 s2 text rest :
  truthy (_token w) = false ->
  http_closed w = false ->
  http_script w = Responds {| status_code := s1; content := text |} :: rest ->
  _ensure_token
    (set_http_script (Responds {| status_code := s2; content := text |} :: rest) w)
  = _ensure_token w.
Proof.
  intros Ht Ho Hs.
  rewrite (ensure_token_requests w _ _ Ht Ho Hs).
  rewrite (ensure_token_requests
             (set_http_script (Responds {| status_code := s2; content := text |} :: rest) w)
             {| status_code := s2; content := text |} rest Ht Ho eq_refl).
  reflexivity.
Qed.

(** X10. A login answered with a success envelope that carries no
    token fails on the subscript and caches nothing: without [result]
    it raises [KeyError] for "result", with an object [result] that
    has no [token] it raises [KeyError] for "token", and with a
    [result] that is not an object it raises [TypeError]; the token
    attribute stays as it was. *)
Theorem login_without_token w resp rest d :
  truthy (_token w) = false ->
  http_closed w = false ->
  http_script w = Responds resp :: rest ->
  json_loads (content resp) = Some (PyDict d) ->
  truthy (field "ok" d PyNone) = true ->
  match assoc "result" d with
  | None => fst (_ensure_token w) = Raise (KeyError "result")
  | Some (PyDict r) =>
      assoc "token" r = None -> fst (_ensure_token w) = Raise (KeyError "token")
  | Some _ => fst (_ensure_token w) = Raise TypeError
  end
  /\ (assoc "result" d = None
      \/ (exists v, assoc "result" d = Some v /\ forall r, v <> PyDict r)
      \/ (exists r, assoc "result" d = Some (PyDict r) /\ assoc "token" r = None) ->
      _token (snd (_ensure_token w)) = _token w).
Proof.
  intros Ht Ho Hs Hj Hok.
  rewrite (ensure_token_requests w _ _ Ht Ho Hs).
  unfold resp_json. rewrite Hj. unfold field in Hok.
  unfold bind, lift, py_get, py_getitem, raise, modify, ret. cbn [fst snd].
  rewrite Hok. cbn [negb].
  split.
  - destruct (assoc "result" d) as [v|]; [|reflexivity].
    destruct v; try reflexivity.
    intros Hk. rewrite Hk. reflexivity.
  - intros [Hn | [(v & Hv & Hd) | (r & Hr & Hk)]].
    + rewrite Hn. reflexivity.
    + rewrite Hv. destruct v; try reflexivity. now elim (Hd d0).
    + rewrite Hr, Hk. reflexivity.
Qed.

End Login.

Lemma login_ignores_status_witness :
  let w := Sample.facing [Sample.answer 200 "<login ok>"] [] [] in
  AsyncKVMClient._ensure_token (Sample.facing [Sample.answer 500 "<login ok>"] [] [])
  = AsyncKVMClient._ensure_token w
  /\ fst (AsyncKVMClient._ensure_token w) = Ok (PyStr "t0k3n").
Proof.
  intros w. split; [|reflexivity].
  exact (login_ignores_status (rt := Sample.runtime) w 200 500 "<login ok>" []
           eq_refl eq_refl eq_refl).
Defined.

Lemma login_without_token_witness :
  let w := Sample.facing [Sample.answer 200 "<info>"] [] [] in
  fst (AsyncKVMClient._ensure_token w) = Raise (KeyError "token")
  /\ _token (snd (AsyncKVMClient._ensure_token w)) = PyNone.
Proof.
  intros w.
  pose proof (login_without_token (rt := Sample.runtime) w
                {| status_code := 200; content := "<info>" |} []
                [("ok", PyBool true); ("result", PyDict [("version", PyStr "1.0")])]
                eq_refl eq_refl eq_refl eq_refl eq_refl) as H.
  split.
  - exact (proj1 H eq_refl).
  - exact (proj2 H (or_intror (or_intror
             (ex_intro _ [("version", PyStr "1.0")] (conj eq_refl eq_refl))))).
Defined.

(* ================================================================== *)
(** * The WebSocket connection *)

Section Steady.
Context {rt : Runtime}.
Import AsyncKVMClient.

Lemma steady_emit c ev w : steady c w -> steady c (emit ev w).
Proof. intros H. exact H. Qed.

Lemma ensure_ws_steady c w : steady c w -> _ensure_ws w = (Ok c, emit (WsPing c) w).
Proof.
  intros (Hw & Hc & Hf).
  unfold _ensure_ws, with_lock, bind, gets. rewrite Hw.
  unfold try_except, ws_ping, bind, fault, gets, modify, ret. rewrite Hf.
  rewrite Hc. reflexivity.
Qed.

Lemma ws_send_steady c w event_type event :
  steady c w ->
  ws_send event_type event w
  = (Ok tt, emit (WsSend c (ws_frame event_type event)) (emit (WsPing c) w)).
Proof.
  intros H. unfold ws_send.
  rewrite (bind_ok _ _ _ _ _ (ensure_ws_steady _ _ H)).
  destruct H as (Hw & Hc & Hf).
  unfold ws_write, bind, fault, gets, modify, ret. simpl. rewrite Hf.
  change (conn_closed c (emit (WsPing c) w)) with (conn_closed c w).
  rewrite Hc. reflexivity.
Qed.

Lemma for_each_steady {A : Type} (body : A -> M unit) (g : A -> list io_event) c :
  (forall x w, steady c w ->
     exists w', body x w = (Ok tt, w') /\ log w' = log w ++ g x /\ steady c w') ->
  forall l w, steady c w ->
    exists w', for_each l body w = (Ok tt, w')
               /\ log w' = log w ++ flat_map g l /\ steady c w'.
Proof.
  intros Hb. induction l as [|x l IH]; intros w Hw.
  - exists w. simpl. rewrite app_nil_r. auto.
  - destruct (Hb x w Hw) as (w1 & E1 & L1 & S1).
    destruct (IH w1 S1) as (w2 & E2 & L2 & S2).
    exists w2. split; [|split; [|exact S2]].
    + simpl. rewrite (bind_ok _ _ _ _ _ E1). exact E2.
    + rewrite L2, L1. simpl. rewrite <- app_assoc. reflexivity.
Qed.

Lemma key_step_steady (state : bool) c key w :
  steady c w ->
  exists w',
    (ws_send "key" (AsyncKeyboard.key_event key state) ;;; sleep 20)%task w = (Ok tt, w')
    /\ log w' = log w ++ [WsPing c; WsSend c (key_frame state key); Sleep 20]
    /\ steady c w'.
Proof.
  intros H. eexists. split; [|split].
  - rewrite (bind_ok _ _ _ _ _ (ws_send_steady _ _ _ _ H)). reflexivity.
  - simpl. rewrite <- !app_assoc. reflexivity.
  - exact H.
Qed.

(** X11. While the client holds an open connection and nothing
    breaks it, [shortcut] always returns, and everything goes over
    that one connection: for each key a probe, the key-down frame and
    a pause of 20 ms, then a pause of 50 ms, then for each key in
    reverse a probe, the key-up frame and a pause of 20 ms.  No
    connection is made and nothing is received; the client is left in
    the same condition, so the next operation finds the same. *)
Theorem shortcut_on_steady_connection keys c w :
  steady c w ->
  exists w',
    AsyncKeyboard.shortcut keys w = (Ok tt, w')
    /\ log w' = log w
         ++ flat_map (fun k => [WsPing c; WsSend c (key_frame true k); Sleep 20]) keys
         ++ [Sleep 50]
         ++ flat_map (fun k => [WsPing c; WsSend c (key_frame false k); Sleep 20]) (rev keys)
    /\ steady c w'.
Proof.
  intros H. unfold AsyncKeyboard.shortcut.
  destruct (for_each_steady _ _ c (key_step_steady true c) keys w H) as (w1 & E1 & L1 & S1).
  destruct (for_each_steady _ _ c (key_step_steady false c) (rev keys)
              (emit (Sleep 50) w1) S1) as (w2 & E2 & L2 & S2).
  exists w2. split; [|split; [|exact S2]].
  - rewrite (bind_ok _ _ _ _ _ E1). unfold sleep at 1, modify, bind at 1. exact E2.
  - rewrite L2. simpl. rewrite L1. rewrite <- !app_assoc. reflexivity.
Qed.

End Steady.

Lemma steady_connected : steady 0 Sample.connected.
Proof. repeat split. Qed.

Lemma shortcut_on_steady_connection_witness :
  exists w',
    AsyncKeyboard.shortcut ["ControlLeft"; "KeyC"] Sample.connected = (Ok tt, w')
    /\ log w' = log Sample.connected
         ++ [WsPing 0; WsSend 0 (key_frame true "ControlLeft"); Sleep 20;
             WsPing 0; WsSend 0 (key_frame true "KeyC"); Sleep 20;
             Sleep 50;
             WsPing 0; WsSend 0 (key_frame false "KeyC"); Sleep 20;
             WsPing 0; WsSend 0 (key_frame false "ControlLeft"); Sleep 20]
    /\ steady 0 Sample.connected.
Proof.
  destruct (shortcut_on_steady_connection (rt := Sample.runtime)
              ["ControlLeft"; "KeyC"] 0 Sample.connected steady_connected)
    as (w' & E & L & _).
  exists w'. split; [exact E|]. split; [exact L|]. exact steady_connected.
Defined.

Section Connecting.
Context {rt : Runtime}.
Import AsyncKVMClient.

Lemma same_handle_refl w : same_handle w w.
Proof. split; reflexivity. Qed.

Lemma same_handle_trans w1 w2 w3 :
  same_handle w1 w2 -> same_handle w2 w3 -> same_handle w1 w3.
Proof. unfold same_handle. intros [A1 B1] [A2 B2]. split; congruence. Qed.

Lemma connects_emit ev w :
  connects (log (emit ev w)) = connects (log w) ++ connect_of ev.
Proof. exact (seen_emit connect_of _ _). Qed.

Lemma same_handle_ws_recv c : keeps same_handle (ws_recv c).
Proof.
  intros w r w'. unfold ws_recv.
  destruct (conn_closed c w).
  { intros [= <- <-]. split; [reflexivity|]. rewrite connects_emit. apply app_nil_r. }
  destruct (nth_error (conns w) c) as [k|].
  - destruct (inbox k) as [|[m| |] q]; intros [= <- <-];
      (split; [reflexivity|]); rewrite connects_emit; apply app_nil_r.
  - intros [= <- <-]. split; [reflexivity|]. rewrite connects_emit. apply app_nil_r.
Qed.

Lemma same_handle_drain n ws : keeps same_handle (drain n ws).
Proof.
  induction n as [|n IH]; simpl.
  - apply keeps_ret, same_handle_refl.
  - apply (keeps_bind _ same_handle_trans); [apply same_handle_ws_recv|].
    intros msg. apply (keeps_bind _ same_handle_trans);
      [apply keeps_lift, same_handle_refl|].
    intros data_. apply (keeps_bind _ same_handle_trans);
      [apply keeps_lift, same_handle_refl|].
    intros et. destruct (eq_str et "streamer");
      [apply keeps_ret, same_handle_refl | exact IH].
Qed.

Lemma drain_then_nothing_times_out n ws w e w' :
  try_except (drain n ws) only_TimeoutError w = (Raise e, w') -> e <> TimeoutError.
Proof.
  unfold try_except. destruct (drain n ws w) as [[u|e0] w1]; [discriminate|].
  destruct e0; simpl; intros [= <- _]; discriminate.
Qed.

Lemma connect_and_drain_connects w q rest r w' :
  connect_script w = Some q :: rest ->
  connect_and_drain w = (r, w') ->
  _ws w' = Some (List.length (conns w))
  /\ connects (log w') = connects (log w) ++ [stated_connect w]
  /\ match r with
     | Ok c => c = List.length (conns w)
     | Raise e => e <> TimeoutError
     end.
Proof.
  intros Hs. unfold connect_and_drain, bind at 1, gets.
  unfold bind at 1, ws_connect. rewrite Hs.
  unfold bind at 1, modify.
  set (c := List.length (conns w)).
  set (w1 := set_ws (Some c) _).
  intros H. apply bind_inv in H.
  assert (K : keeps same_handle (try_except (drain 20 c) only_TimeoutError)).
  { apply (keeps_try_except _ same_handle_trans); [apply same_handle_drain|].
    intros e k. destruct e; simpl; try discriminate.
    intros [= <-]. apply keeps_ret, same_handle_refl. }
  assert (L : connects (log w1) = connects (log w) ++ [stated_connect w]).
  { unfold w1. simpl. exact (connects_emit _ _). }
  destruct H as [(u & w2 & E1 & E2) | (e & E1 & ->)].
  - destruct (K _ _ _ E1) as [Hw Hl]. unfold ret in E2. injection E2 as <- <-.
    rewrite Hw, Hl. auto.
  - destruct (K _ _ _ E1) as [Hw Hl]. rewrite Hw, Hl.
    split; [reflexivity|]. split; [exact L|].
    exact (drain_then_nothing_times_out _ _ _ _ _ E1).
Qed.

Lemma ensure_ws_without_handle w :
  _ws w = None -> _ensure_ws w = connect_and_drain w.
Proof.
  intros Hw. unfold _ensure_ws, with_lock, bind at 1, gets. rewrite Hw.
  reflexivity.
Qed.

(** X12. A client that holds no connection, facing a device that
    accepts one, connects once: to [wss://<resolved address>/api/ws?stream=0]
    (the address resolved at construction, not the host name), with
    the header [Authorization: Basic base64(username:password)], and
    without certificate verification exactly when [ssl_verify] is off.
    The new connection is kept in [_ws] whatever happens in the drain
    that follows, also when the drain raises; and what the drain may
    raise is never a timeout. *)
Theorem ensure_ws_connects w q rest r w' :
  _ws w = None ->
  connect_script w = Some q :: rest ->
  _ensure_ws w = (r, w') ->
  _ws w' = Some (List.length (conns w))
  /\ connects (log w') = connects (log w) ++ [stated_connect w]
  /\ match r with
     | Ok c => c = List.length (conns w)
     | Raise e => e <> TimeoutError
     end.
Proof.
  intros Hw Hs. rewrite (ensure_ws_without_handle _ Hw).
  exact (connect_and_drain_connects _ _ _ _ _ Hs).
Qed.

Lemma ws_ping_fails c w :
  probe_fails c w ->
  exists w1, ws_ping c w = (Raise ConnectionClosed, w1)
    /\ conn_closed c w1 = true
    /\ cfg w1 = cfg w /\ connect_script w1 = connect_script w
    /\ List.length (conns w1) = List.length (conns w) /\ log w1 = log w
    /\ forall c', conn_closed c' w = true -> conn_closed c' w1 = true.
Proof.
  intros H. unfold ws_ping, bind, fault, gets, modify, raise, ret.
  destruct (fault_script w) as [|[|] bs] eqn:Hf.
  - destruct H as [H | (bs' & H)]; [|congruence]. rewrite H.
    exists w. repeat split; auto.
  - rewrite conn_closed_mark_same. eexists. split; [reflexivity|].
    split; [apply conn_closed_mark_same|]. repeat split.
    + simpl. apply length_update_nth.
    + intros c' Hc'. destruct (Nat.eq_dec c' c) as [->|N].
      * apply conn_closed_mark_same.
      * rewrite conn_closed_mark_other by congruence. exact Hc'.
  - destruct H as [H | (bs' & H)]; [|congruence].
    change (conn_closed c (set_fault_script bs w)) with (conn_closed c w). rewrite H.
    eexists. split; [reflexivity|]. repeat split; auto.
Qed.

(** X13. When the client holds a connection, the only one that may
    be open, and its probe fails (the connection is closed, or breaks
    under the probe), [_ensure_ws]
    drops the handle and connects anew, with the same parameters as a
    first connection; the new connection replaces the old one in
    [_ws], the old one is closed, and no probe is recorded.  When the
    device then refuses the connection, [_ensure_ws] raises the
    connection failure and the client is left holding no connection. *)
Theorem ensure_ws_reconnects w c r w' :
  one_live w ->
  _ws w = Some c -> (c < List.length (conns w))%nat ->
  probe_fails c w ->
  _ensure_ws w = (r, w') ->
  match connect_script w with
  | Some q :: rest =>
      _ws w' = Some (List.length (conns w))
      /\ conn_closed c w' = true
      /\ connects (log w') = connects (log w) ++ [stated_connect w]
  | _ => r = Raise ConnectFailed /\ _ws w' = None /\ log w' = log w
  end.
Proof.
  intros Hol Hw Hlt Hp H0.
  pose proof (one_live_ensure_ws _ _ _ Hol H0) as O. revert H0.
  unfold _ensure_ws, with_lock, bind at 1, gets. rewrite Hw.
  destruct (ws_ping_fails _ _ Hp) as (w1 & E & Hc & Hcfg & Hcs & Hlen & Hlog & Hmono).
  unfold bind at 1, try_except, bind at 1. rewrite E.
  unfold any_Exception, bind at 1, modify, ret.
  set (w2 := set_ws None w1).
  destruct (connect_script w) as [|[q|] rest] eqn:Hs.
  - unfold connect_and_drain, bind at 1, gets, bind at 1, ws_connect.
    change (connect_script w2) with (connect_script w1). rewrite Hcs.
    intros [= <- <-]. repeat split. exact Hlog.
  - intros H.
    assert (Hs2 : connect_script w2 = Some q :: rest) by (unfold w2; simpl; congruence).
    destruct (connect_and_drain_connects _ _ _ _ _ Hs2 H) as (A & B & _).
    change (conns w2) with (conns w1) in A. rewrite Hlen in A.
    split; [exact A|]. split.
    + destruct (conn_closed c w') eqn:Hc'; [reflexivity|].
      apply O in Hc'. rewrite A in Hc'. injection Hc' as Hc'. lia.
    + rewrite B. unfold stated_connect. change (conns w2) with (conns w1).
      change (cfg w2) with (cfg w1). change (log w2) with (log w1).
      rewrite Hlen, Hcfg, Hlog. reflexivity.
  - unfold connect_and_drain, bind at 1, gets, bind at 1, ws_connect.
    change (connect_script w2) with (connect_script w1). rewrite Hcs.
    intros [= <- <-]. repeat split. simpl. exact Hlog.
Qed.

End Connecting.

Lemma ensure_ws_connects_witness :
  let w' := snd (AsyncKVMClient._ensure_ws Sample.online) in
  _ws w' = Some 0%nat
  /\ connects (log w')
     = [(0%nat, "wss://192.168.1.50/api/ws?stream=0",
         [("Authorization", "Basic YWRtaW46c2VjcmV0")], true)].
Proof.
  intros w'.
  destruct (ensure_ws_connects (rt := Sample.runtime) Sample.online Sample.burst []
              (fst (AsyncKVMClient._ensure_ws Sample.online)) w'
              eq_refl eq_refl (run_eta _ _)) as (A & B & _).
  split; [exact A | exact B].
Defined.

Lemma one_live_reconnecting : one_live reconnecting.
Proof.
  exact (one_live_ws_send _ _ _ _ _ (one_live_facing _ _ _) (run_eta _ _)).
Qed.

Lemma ensure_ws_reconnects_witness :
  let w' := snd (AsyncKVMClient._ensure_ws reconnecting) in
  _ws reconnecting = Some 0%nat
  /\ _ws w' = Some 1%nat
  /\ conn_closed 0 w' = true
  /\ connects (log w') = connects (log reconnecting) ++ [stated_connect reconnecting].
Proof.
  intros w'.
  assert (Hw : _ws reconnecting = Some 0%nat) by (vm_compute; reflexivity).
  assert (Hl : (0 < List.length (conns reconnecting))%nat) by (vm_compute; lia).
  assert (Hp : probe_fails 0 reconnecting)
    by (right; exists []; vm_compute; reflexivity).
  split; [exact Hw|].
  exact (ensure_ws_reconnects (rt := Sample.runtime) reconnecting 0
           (fst (AsyncKVMClient._ensure_ws reconnecting)) w'
           one_live_reconnecting Hw Hl Hp (run_eta _ _)).
Defined.

Section AfterClose.
Context {rt : Runtime}.
Import AsyncKVMClient.

Lemma close_ok_no_ws w w' : close w = (Ok tt, w') -> _ws w' = None.
Proof.
  unfold close, bind at 1, gets. intros H.
  apply bind_inv_ok in H. destruct H as (u & w1 & H1 & H2).
  assert (E : _ws w1 = None).
  { destruct (_ws w) as [c|] eqn:Hw.
    - apply bind_inv_ok in H1. destruct H1 as (u' & w0 & _ & H1).
      unfold modify in H1. injection H1 as H1. subst w1. reflexivity.
    - unfold ret in H1. injection H1 as H1. subst w1. exact Hw. }
  unfold http_aclose in H2. destruct (http_closed w1); injection H2 as <-; exact E.
Qed.

Lemma ws_write_ok_inv c f w w' :
  ws_write c f w = (Ok tt, w') ->
  conn_closed c w' = false /\ _ws w' = _ws w
  /\ connects (log w') = connects (log w).
Proof.
  unfold ws_write, bind, fault, gets, modify, raise, ret.
  destruct (fault_script w) as [|[|] bs].
  - destruct (conn_closed c w) eqn:E; [discriminate|].
    intros [= <-]. split; [exact E|]. split; [reflexivity|].
    rewrite connects_emit. apply app_nil_r.
  - rewrite conn_closed_mark_same. discriminate.
  - change (conn_closed c (set_fault_script bs w)) with (conn_closed c w).
    destruct (conn_closed c w) eqn:E; [discriminate|].
    intros [= <-]. split; [exact E|]. split; [reflexivity|].
    rewrite connects_emit. apply app_nil_r.
Qed.

(** X14. [close] is final for HTTP only.  After a [close] that
    returned the client holds no connection, yet a later [ws_send]
    (hence any keyboard or mouse operation) connects again when the
    device accepts it, and when it returns the client holds a new
    open connection, which only another [close] would release. *)
Theorem close_does_not_stop_websocket w w1 q rest event_type event w2 :
  close w = (Ok tt, w1) ->
  connect_script w1 = Some q :: rest ->
  ws_send event_type event w1 = (Ok tt, w2) ->
  _ws w1 = None /\ http_closed w1 = true
  /\ _ws w2 = Some (List.length (conns w1))
  /\ conn_closed (List.length (conns w1)) w2 = false
  /\ connects (log w2) = connects (log w1) ++ [stated_connect w1].
Proof.
  intros Hc Hs H.
  pose proof (close_ok_no_ws _ _ Hc) as Hn.
  pose proof (close_ok_closed _ _ Hc) as Hh.
  split; [exact Hn|]. split; [exact Hh|].
  unfold ws_send in H. apply bind_inv_ok in H. destruct H as (c & w3 & E1 & E2).
  rewrite (ensure_ws_without_handle _ Hn) in E1.
  destruct (connect_and_drain_connects _ _ _ _ _ Hs E1) as (A & B & ->).
  destruct (ws_write_ok_inv _ _ _ _ E2) as (C & D & L).
  split; [congruence|]. split; [exact C|]. congruence.
Qed.

(** X15. Every keyboard and mouse operation that goes over the
    WebSocket, with any arguments (a drag between any two points, in
    any number of steps), keeps the client with at most one open
    connection, the one in [_ws], however its run ends and whatever
    breaks or is re-established on the way. *)
Theorem hid_operations_keep_one_connection key keys x y ox oy button
    from_x from_y to_x to_y steps delta_x delta_y :
  Forall (preserves one_live)
    (hid_operations key keys x y ox oy button from_x from_y to_x to_y steps
       delta_x delta_y).
Proof.
  assert (S : forall et ev, preserves one_live (ws_send et ev))
    by exact one_live_ws_send.
  assert (C : forall b, preserves one_live (AsyncMouse.click ox oy b)).
  { intros b. unfold AsyncMouse.click.
    apply preserves_bind.
    - destruct ox, oy; try apply preserves_ret.
      apply preserves_bind; [apply S | intros; apply one_live_sleep].
    - intros _. apply preserves_bind; [apply S|]. intros _.
      apply preserves_bind; [apply one_live_sleep | intros; apply S]. }
  unfold hid_operations, AsyncKeyboard.hold, AsyncKeyboard.release, AsyncMouse.move,
    AsyncMouse.right_click, AsyncMouse.middle_click, AsyncMouse.scroll,
    AsyncMouse.relative_move.
  repeat (apply Forall_cons; [first [apply S | apply C | idtac]|]);
    try apply Forall_nil.
  - unfold AsyncKeyboard.press.
    apply preserves_bind; [apply S|]. intros _.
    apply preserves_bind; [apply one_live_sleep | intros; apply S].
  - unfold AsyncKeyboard.shortcut.
    apply preserves_bind.
    { apply preserves_for_each. intros k.
      apply preserves_bind; [apply S | intros; apply one_live_sleep]. }
    intros _. apply preserves_bind; [apply one_live_sleep|]. intros _.
    apply preserves_for_each. intros k.
    apply preserves_bind; [apply S | intros; apply one_live_sleep].
  - unfold AsyncMouse.double_click.
    apply preserves_bind; [apply C|]. intros _.
    apply preserves_bind; [apply one_live_sleep | intros; apply C].
  - unfold AsyncMouse.drag.
    apply preserves_bind; [apply S|]. intros _.
    apply preserves_bind; [apply one_live_sleep|]. intros _.
    apply preserves_bind; [apply S|]. intros _.
    apply preserves_bind; [apply one_live_sleep|]. intros _.
    apply preserves_bind; [|intros; apply S].
    apply preserves_for_each. intros i. unfold AsyncMouse.drag_step.
    apply preserves_bind; [apply preserves_lift|]. intros t.
    apply preserves_bind; [apply preserves_lift|]. intros px.
    apply preserves_bind; [apply preserves_lift|]. intros py.
    apply preserves_bind; [apply S | intros; apply one_live_sleep].
Qed.

End AfterClose.

Lemma close_does_not_stop_websocket_witness :
  let w1 := set_connect_script [Some Sample.burst] (snd (AsyncKVMClient.close Sample.connected)) in
  _ws w1 = None /\ http_closed w1 = true
  /\ _ws (snd (AsyncKVMClient.ws_send "key" (AsyncKeyboard.key_event "Enter" true) w1))
     = Some 1%nat
  /\ conn_closed 1 (snd (AsyncKVMClient.ws_send "key" (AsyncKeyboard.key_event "Enter" true) w1))
     = false.
Proof.
  intros w1.
  assert (E0 : AsyncKVMClient.close
                 (set_connect_script [Some Sample.burst] Sample.connected)
               = (Ok tt, w1)) by (vm_compute; reflexivity).
  assert (E : AsyncKVMClient.ws_send "key" (AsyncKeyboard.key_event "Enter" true) w1
              = (Ok tt, snd (AsyncKVMClient.ws_send "key"
                               (AsyncKeyboard.key_event "Enter" true) w1)))
    by (vm_compute; reflexivity).
  destruct (close_does_not_stop_websocket (rt := Sample.runtime) _ w1 Sample.burst []
              "key" (AsyncKeyboard.key_event "Enter" true) _ E0 eq_refl E)
    as (A & B & C & D & _).
  repeat split; assumption.
Defined.

(* ================================================================== *)
(** * The pace of the keyboard and of the mouse *)

Section Pace.
Context {rt : Runtime}.
Import AsyncKVMClient.

Lemma paces_ws_send event_type event :
  paces (ws_send event_type event) [Frame (ws_frame event_type event)].
Proof.
  exact (emits_ws_send beat_of (fun f => [Frame f])
           (fun _ _ _ _ => eq_refl) (fun _ => eq_refl) (fun _ _ => eq_refl)
           (fun _ _ => eq_refl) event_type event).
Qed.

Lemma paces_sleep ms : paces (sleep ms) [Pause ms].
Proof. exact (emits_sleep beat_of ms). Qed.

Lemma paces_bind {A B : Type} (m : M A) (k : A -> M B) F1 F2 :
  paces m F1 -> (forall a, paces (k a) F2) -> paces (bind m k) (F1 ++ F2).
Proof. apply emits_bind. Qed.

Lemma paces_ret {A : Type} (a : A) : paces (ret a) [].
Proof. apply emits_ret. Qed.

Lemma paces_key_step (state : bool) key :
  paces (ws_send "key" (AsyncKeyboard.key_event key state) ;;; sleep 20)%task
    [Frame (key_frame state key); Pause 20].
Proof.
  exact (paces_bind _ _ [_] [_] (paces_ws_send _ _) (fun _ => paces_sleep 20)).
Qed.

Lemma paces_click x y button :
  paces (AsyncMouse.click x y button) (click_beats x y button).
Proof.
  unfold AsyncMouse.click, click_beats. apply paces_bind.
  - destruct x as [x'|], y as [y'|]; try apply paces_ret.
    exact (paces_bind _ _ [_] [_] (paces_ws_send _ _) (fun _ => paces_sleep 50)).
  - intros _. apply (paces_bind _ _ [_] [_; _]); [apply paces_ws_send|].
    intros _. apply (paces_bind _ _ [_] [_]); [apply paces_sleep|].
    intros _. apply paces_ws_send.
Qed.

(** X16. The keyboard keeps its pace in every run.  A [press] puts
    the key-down frame on the wire, pauses 20 ms and puts the key-up
    frame; [hold] and [release] put the one frame.  A [shortcut] puts
    each key-down frame followed by a pause of 20 ms, pauses 50 ms,
    then puts each key-up frame, in reverse order, followed by a pause
    of 20 ms; with no key at all it is the one pause of 50 ms, without
    any connection being made.  A run that raises has done a prefix of
    this. *)
Theorem keyboard_pace key keys :
  paces (AsyncKeyboard.press key)
    [Frame (key_frame true key); Pause 20; Frame (key_frame false key)]
  /\ paces (AsyncKeyboard.hold key) [Frame (key_frame true key)]
  /\ paces (AsyncKeyboard.release key) [Frame (key_frame false key)]
  /\ paces (AsyncKeyboard.shortcut keys) (shortcut_beats keys)
  /\ forall w, AsyncKeyboard.shortcut [] w = (Ok tt, emit (Sleep 50) w).
Proof.
  split; [|split; [|split; [|split]]].
  - unfold AsyncKeyboard.press.
    apply (paces_bind _ _ [_] [_; _]); [apply paces_ws_send|]. intros _.
    apply (paces_bind _ _ [_] [_]); [apply paces_sleep|]. intros _.
    apply paces_ws_send.
  - apply paces_ws_send.
  - apply paces_ws_send.
  - unfold AsyncKeyboard.shortcut, shortcut_beats. apply paces_bind.
    + apply (emits_for_each beat_of). intros k. apply (paces_key_step true).
    + intros _. apply (paces_bind _ _ [_]); [apply paces_sleep|]. intros _.
      apply (emits_for_each beat_of). intros k. apply (paces_key_step false).
  - intros w. reflexivity.
Qed.

(** X17. The mouse keeps its pace in every run.  A [click] with both
    coordinates moves there and pauses 50 ms first; then the
    button-down frame, a pause of 50 ms and the button-up frame.
    [right_click] and [middle_click] are the same with their button.
    A [double_click] is two such left clicks with 100 ms between
    them, the move included in both.  [move], [scroll] and
    [relative_move] put their one frame.  A run that raises has done
    a prefix of this. *)
Theorem mouse_pace x y ox oy button :
  paces (AsyncMouse.click ox oy button) (click_beats ox oy button)
  /\ paces (AsyncMouse.right_click ox oy) (click_beats ox oy "right")
  /\ paces (AsyncMouse.middle_click ox oy) (click_beats ox oy "middle")
  /\ paces (AsyncMouse.double_click ox oy)
       (click_beats ox oy "left" ++ [Pause 100] ++ click_beats ox oy "left")
  /\ paces (AsyncMouse.move x y) [Frame (move_frame x y)]
  /\ paces (AsyncMouse.scroll x y)
       [Frame (ws_frame "mouse_wheel" (AsyncMouse.delta_event x y))]
  /\ paces (AsyncMouse.relative_move x y)
       [Frame (ws_frame "mouse_relative" (AsyncMouse.delta_event x y))].
Proof.
  repeat split; try apply paces_click; try apply paces_ws_send.
  unfold AsyncMouse.double_click.
  apply paces_bind; [apply paces_click|]. intros _.
  apply paces_bind; [apply paces_sleep|]. intros _. apply paces_click.
Qed.

End Pace.

(* ================================================================== *)
(** * Sequences that fail on the way *)

Section FallsShort.
Context {rt : Runtime}.
Import AsyncKVMClient.

Lemma falls_short_ret {X A : Type} (view : io_event -> list X) (a : A) :
  falls_short view (ret a) [].
Proof.
  intros w r w' [= <- <-]. exists []. split; [now rewrite app_nil_r | reflexivity].
Qed.

Lemma falls_short_bind {X A B : Type} (view : io_event -> list X)
    (m : M A) (k : A -> M B) F1 F2 :
  falls_short view m F1 -> (forall a, falls_short view (k a) F2) ->
  falls_short view (bind m k) (F1 ++ F2).
Proof.
  intros Hm Hk w r w' E. apply bind_inv in E.
  destruct E as [(a & w1 & E1 & E2) | (e & E1 & ->)].
  - destruct (Hm _ _ _ E1) as (G1 & L1 & ->).
    destruct (Hk a _ _ _ E2) as (G2 & L2 & R2).
    exists (F1 ++ G2). split; [rewrite L2, L1; symmetry; apply app_assoc|].
    destruct r as [b|e].
    + now subst G2.
    + destruct R2 as (x & rest & ->). exists x, rest. apply app_assoc.
  - destruct (Hm _ _ _ E1) as (G1 & L1 & x & rest & ->).
    exists G1. split; [exact L1|]. exists x, (rest ++ F2).
    rewrite <- app_assoc. reflexivity.
Qed.

Lemma falls_short_for_each {X A : Type} (view : io_event -> list X)
    (l : list A) (body : A -> M unit) g :
  (forall x, falls_short view (body x) (g x)) ->
  falls_short view (for_each l body) (flat_map g l).
Proof.
  intros H. induction l as [|x l IH]; simpl.
  - apply falls_short_ret.
  - apply falls_short_bind; [apply H | intros _; exact IH].
Qed.

Lemma falls_short_sleep ms : falls_short sent_frame (sleep ms) [].
Proof.
  intros w r w' [= <- <-]. exists []. split; [|reflexivity].
  rewrite (seen_emit sent_frame). reflexivity.
Qed.

Lemma ws_write_raises c f w e w' :
  ws_write c f w = (Raise e, w') -> log w' = log w.
Proof.
  unfold ws_write, bind, fault, gets, modify, raise, ret.
  destruct (fault_script w) as [|[|] bs].
  - destruct (conn_closed c w); [|discriminate]. intros [= _ <-]. reflexivity.
  - rewrite conn_closed_mark_same. intros [= _ <-]. reflexivity.
  - change (conn_closed c (set_fault_script bs w)) with (conn_closed c w).
    destruct (conn_closed c w); [|discriminate]. intros [= _ <-]. reflexivity.
Qed.

Lemma falls_short_ws_send event_type event :
  falls_short sent_frame (ws_send event_type event) [ws_frame event_type event].
Proof.
  intros w r w' E. destruct r as [[]|e].
  - exists [ws_frame event_type event]. split; [|reflexivity].
    exact (sends_ok _ _ _ _ _ (sends_ws_send _ _) E).
  - exists []. split; [|exists (ws_frame event_type event), []; reflexivity].
    rewrite app_nil_r. unfold ws_send in E. apply bind_inv in E.
    assert (Q : forall w0 r0 w1, _ensure_ws w0 = (r0, w1) ->
                seen sent_frame (log w1) = seen sent_frame (log w0)).
    { intros w0 r0 w1 E0.
      destruct (emits_ensure_ws sent_frame (fun _ _ _ _ => eq_refl) (fun _ => eq_refl)
                  (fun _ _ => eq_refl) _ _ _ E0) as (F' & L & R).
      rewrite L. destruct r0 as [c|e0].
      - subst F'. apply app_nil_r.
      - destruct R as (rest & R). symmetry in R. apply app_eq_nil in R.
        destruct R as [-> _]. apply app_nil_r. }
    destruct E as [(c & w1 & E1 & E2) | (e0 & E1 & _)].
    + rewrite (ws_write_raises _ _ _ _ _ E2). exact (Q _ _ _ E1).
    + exact (Q _ _ _ E1).
Qed.

Lemma falls_short_key_step (state : bool) key :
  falls_short sent_frame
    (ws_send "key" (AsyncKeyboard.key_event key state) ;;; sleep 20)%task
    [key_frame state key].
Proof.
  exact (falls_short_bind _ _ _ [_] [] (falls_short_ws_send _ _)
           (fun _ => falls_short_sleep 20)).
Qed.

(** X18. A [shortcut] has no clean-up: a run that raises has sent
    only a part of its frames that stops before the last one, and
    sends nothing more.  The last frame being the key-up of the first
    key given, that key at least is not released by a failed
    [shortcut] that had pressed it; a failed [press] has sent the
    key-down frame at most, never the key-up. *)
Theorem failed_shortcut_releases_late keys key :
  falls_short sent_frame (AsyncKeyboard.shortcut keys) (shortcut_frames keys)
  /\ falls_short sent_frame (AsyncKeyboard.press key)
       [key_frame true key; key_frame false key].
Proof.
  split.
  - unfold AsyncKeyboard.shortcut, shortcut_frames.
    rewrite <- !flat_map_single.
    apply falls_short_bind.
    + apply falls_short_for_each. intros k. apply (falls_short_key_step true).
    + intros _.
      apply (falls_short_bind _ _ _ []); [apply falls_short_sleep|]. intros _.
      apply falls_short_for_each. intros k. apply (falls_short_key_step false).
  - unfold AsyncKeyboard.press.
    apply (falls_short_bind _ _ _ [_] [_]); [apply falls_short_ws_send|]. intros _.
    apply (falls_short_bind _ _ _ [] [_]); [apply falls_short_sleep|]. intros _.
    apply falls_short_ws_send.
Qed.

End FallsShort.

(* ================================================================== *)
(** * A drag with any number of steps *)

Section DragSteps.
Context {rt : Runtime}.

Lemma range_length lo hi : List.length (range lo hi) = Z.to_nat (hi - lo).
Proof. unfold range. now rewrite length_map, length_seq. Qed.

Lemma range_In lo hi i : In i (range lo hi) -> lo <= i < hi.
Proof.
  unfold range. rewrite in_map_iff. intros (k & <- & Hk).
  apply in_seq in Hk. lia.
Qed.

Lemma range_snoc lo hi : lo <= hi -> range lo (hi + 1) = range lo hi ++ [hi].
Proof.
  intros H. unfold range.
  replace (Z.to_nat (hi + 1 - lo)) with (Z.to_nat (hi - lo) + 1)%nat by lia.
  rewrite seq_app, map_app. simpl. f_equal. f_equal. lia.
Qed.

Lemma truediv_self n : 0 < n -> truediv n n = Ok (Binary64.Finite Binary64.one).
Proof.
  intros H. unfold truediv.
  replace (n =? 0) with false by (symmetry; apply Z.eqb_neq; lia).
  rewrite Z.sgn_pos, Z.abs_eq by lia.
  replace (n * 1 * Binary64.one) with (1 * Binary64.one * n) by ring.
  rewrite round_exact by (simpl; lia).
  rewrite Z.mul_1_l. reflexivity.
Qed.

Lemma drag_point_last a b steps :
  0 < steps ->
  exact_in_binary64 a -> exact_in_binary64 b -> exact_in_binary64 (b - a) ->
  drag_point a b steps steps = Ok b.
Proof.
  intros Hs Ha Hb Hd. unfold drag_point. rewrite (truediv_self _ Hs). simpl.
  now apply interpolate_end.
Qed.

(** X19. A [drag] that returns, whatever [steps] is, has sent the
    move to the start point, the button-down frame, one move for each
    [i] from 1 to [steps] and the button-up frame: [steps] moves when
    [steps] is positive, none when it is zero or negative (the drag is
    then a press and a release at the start point).  The division
    [i / steps] is never by zero.  With [steps] at least 1 and
    coordinates and differences below [2^53] in magnitude, the last of
    the moves goes to the end point. *)
Theorem drag_any_steps from_x from_y to_x to_y button steps w w' :
  AsyncMouse.drag from_x from_y to_x to_y button steps w = (Ok tt, w') ->
  exists pts,
    List.length pts = Z.to_nat steps
    /\ sent (log w') =
         sent (log w) ++ [move_frame from_x from_y; button_frame button true]
                      ++ map move_to pts ++ [button_frame button false]
    /\ (forall i, In i (range 1 (steps + 1)) -> truediv i steps <> Raise ZeroDivisionError)
    /\ (1 <= steps ->
        exact_in_binary64 from_x -> exact_in_binary64 to_x ->
        exact_in_binary64 (to_x - from_x) ->
        exact_in_binary64 from_y -> exact_in_binary64 to_y ->
        exact_in_binary64 (to_y - from_y) ->
        last pts (from_x, from_y) = (to_x, to_y)).
Proof.
  intros E. destruct (drag_sent _ _ _ _ _ _ _ _ E) as (pts & Hpts & L).
  exists pts. split; [|split; [exact L|split]].
  - rewrite <- (Forall2_length Hpts), range_length. f_equal. lia.
  - intros i Hi. apply range_In in Hi. unfold truediv.
    replace (steps =? 0) with false by (symmetry; apply Z.eqb_neq; lia).
    destruct (Binary64.round _ _); discriminate.
  - intros Hs Hfx Htx Hdx Hfy Hty Hdy.
    assert (Hpos : 0 < steps) by lia.
    rewrite (range_snoc 1 steps Hs) in Hpts.
    apply Forall2_app_inv_l in Hpts.
    destruct Hpts as (pts1 & pts2 & _ & H2 & ->).
    inversion H2 as [|i p l2 l2' Hp Hnil]; subst. inversion Hnil; subst.
    rewrite last_last. destruct Hp as [Hx Hy].
    rewrite (drag_point_last _ _ _ Hpos Hfx Htx Hdx) in Hx.
    rewrite (drag_point_last _ _ _ Hpos Hfy Hty Hdy) in Hy.
    destruct p as [px py]. simpl in Hx, Hy. congruence.
Qed.

End DragSteps.

Lemma drag_any_steps_witness :
  exists w' pts,
    AsyncMouse.drag 0 0 90 0 "left" 10 Sample.online = (Ok tt, w')
    /\ List.length pts = 10%nat
    /\ sent (log w') =
         sent (log Sample.online) ++ [move_frame 0 0; button_frame "left" true]
           ++ map move_to pts ++ [button_frame "left" false]
    /\ last pts (0, 0) = (90, 0).
Proof.
  pose proof (ok_run _ _ _ sample_drag_returns) as E.
  exists (snd (AsyncMouse.drag 0 0 90 0 "left" 10 Sample.online)).
  destruct (drag_any_steps _ _ _ _ _ _ _ _ E) as (pts & N & L & _ & P).
  exists pts.
  split; [exact E|]. split; [exact N|]. split; [exact L|].
  apply P; vm_compute; first [reflexivity | discriminate].
Defined.

(* ================================================================== *)
(** * Rounding between two ints *)

Section Between.
Import Binary64.

Lemma rne_div_between p q a c :
  0 < c -> p * c <= a <= q * c -> p <= rne_div a c <= q.
Proof.
  intros Hc [Hp Hq]. unfold rne_div.
  pose proof (Z.div_mod a c ltac:(lia)) as Hd.
  pose proof (Z.mod_pos_bound a c Hc) as Hr.
  assert (Hlo : p <= a / c) by (apply Z.div_le_lower_bound; lia).
  assert (Hhi : a / c <= q) by (apply Z.div_le_upper_bound; lia).
  assert (Hup : 0 < a mod c -> a / c + 1 <= q) by nia.
  destruct (2 * (a mod c) <? c) eqn:E1; [lia|].
  apply Z.ltb_ge in E1.
  destruct (c <? 2 * (a mod c)); [lia|].
  destruct (Z.even (a / c)); lia.
Qed.

(** Rounding keeps a number between the ints it lies between. *)
Lemma round_between lo hi x b :
  0 < b -> Z.abs lo < 2 ^ 53 -> Z.abs hi < 2 ^ 53 ->
  lo * one * b <= x <= hi * one * b ->
  exists n, round x b = Finite n /\ lo * one <= n <= hi * one.
Proof.
  intros Hb Hlo Hhi [Hx1 Hx2]. pose proof one_pos as H1.
  set (M := Z.max (Z.abs lo) (Z.abs hi)).
  assert (HM : 0 <= M < 2 ^ 53) by (unfold M; lia).
  assert (Blo : - M <= lo <= M) by (unfold M; lia).
  assert (Bhi : - M <= hi <= M) by (unfold M; lia).
  clearbody M.
  assert (Hob : 0 < one * b) by nia.
  assert (Habs : Z.abs x <= M * one * b).
  { assert (- (M * (one * b)) <= lo * (one * b)) by nia.
    assert (hi * (one * b) <= M * (one * b)) by nia.
    lia. }
  assert (Hq : Z.abs x / b <= M * one).
  { apply Z.div_le_upper_bound; [lia|]. lia. }
  assert (Hq0 : 0 <= Z.abs x / b) by (apply Z.div_pos; lia).
  unfold round, ulp_exp.
  set (k := Z.max 0 (Z.log2 (Z.abs x / b) - 52)).
  assert (Hk : 0 <= k <= unit_exp).
  { split; [unfold k; lia|]. unfold k. apply Z.max_lub; [unfold unit_exp; lia|].
    destruct (Z.eq_dec (Z.abs x / b) 0) as [E|E].
    - rewrite E. simpl. unfold unit_exp. lia.
    - assert (Z.log2 (Z.abs x / b) < 53 + unit_exp); [|lia].
      apply Z.log2_lt_pow2; [lia|].
      apply Z.le_lt_trans with (M * one); [exact Hq|].
      unfold one. rewrite Z.pow_add_r by (unfold unit_exp; lia).
      apply Z.mul_lt_mono_pos_r; [apply Z.pow_pos_nonneg; unfold unit_exp; lia | lia]. }
  assert (Hp : 0 < 2 ^ k) by (apply Z.pow_pos_nonneg; lia).
  assert (Eone : one = 2 ^ (unit_exp - k) * 2 ^ k).
  { unfold one. rewrite <- Z.pow_add_r by lia. f_equal. lia. }
  assert (Hp' : 0 < 2 ^ (unit_exp - k)) by (apply Z.pow_pos_nonneg; lia).
  destruct (rne_div_between (lo * 2 ^ (unit_exp - k)) (hi * 2 ^ (unit_exp - k))
              x (b * 2 ^ k) ltac:(lia)) as [B1 B2].
  { split.
    - replace (lo * 2 ^ (unit_exp - k) * (b * 2 ^ k))
        with (lo * (2 ^ (unit_exp - k) * 2 ^ k) * b) by ring.
      rewrite <- Eone. exact Hx1.
    - replace (hi * 2 ^ (unit_exp - k) * (b * 2 ^ k))
        with (hi * (2 ^ (unit_exp - k) * 2 ^ k) * b) by ring.
      rewrite <- Eone. exact Hx2. }
  set (n := rne_div x (b * 2 ^ k) * 2 ^ k).
  assert (Bn : lo * one <= n <= hi * one).
  { unfold n. rewrite Eone. split.
    - replace (lo * (2 ^ (unit_exp - k) * 2 ^ k)) with (lo * 2 ^ (unit_exp - k) * 2 ^ k) by ring.
      apply Z.mul_le_mono_nonneg_r; lia.
    - replace (hi * (2 ^ (unit_exp - k) * 2 ^ k)) with (hi * 2 ^ (unit_exp - k) * 2 ^ k) by ring.
      apply Z.mul_le_mono_nonneg_r; lia. }
  exists n. split; [|exact Bn].
  replace (2 ^ (1024 + unit_exp) <=? Z.abs n) with false; [reflexivity|].
  symmetry. apply Z.leb_gt.
  apply Z.le_lt_trans with (M * one).
  - assert (- (M * one) <= lo * one) by nia.
    assert (hi * one <= M * one) by nia. lia.
  - apply Z.lt_trans with (2 ^ 53 * one).
    + apply Z.mul_lt_mono_pos_r; lia.
    + unfold one. rewrite <- Z.pow_add_r by (unfold unit_exp; lia).
      apply Z.pow_lt_mono_r; unfold unit_exp; lia.
Qed.

End Between.

Section Box.
Context {rt : Runtime}.
Import Binary64.

Lemma truediv_fraction i steps :
  1 <= i <= steps -> exists t, truediv i steps = Ok (Finite t) /\ 0 <= t <= one.
Proof.
  intros H. unfold truediv.
  replace (steps =? 0) with false by (symmetry; apply Z.eqb_neq; lia).
  rewrite Z.sgn_pos, Z.abs_eq by lia.
  destruct (round_between 0 1 (i * 1 * one) steps) as (t & -> & Ht);
    try (simpl; lia).
  - pose proof one_pos. nia.
  - exists t. split; [reflexivity | lia].
Qed.

Lemma interpolate_between a b t :
  exact_in_binary64 a -> exact_in_binary64 b -> exact_in_binary64 (b - a) ->
  0 <= t <= one ->
  exists p, AsyncMouse.interpolate a b (Finite t) = Ok p /\ Z.min a b <= p <= Z.max a b.
Proof.
  intros Ha Hb Hd Ht. pose proof one_pos as H1.
  unfold exact_in_binary64 in Ha, Hb, Hd.
  unfold AsyncMouse.interpolate.
  rewrite (float_of_int_exact _ Hd), (float_of_int_exact _ Ha). simpl.
  destruct (round_between (Z.min 0 (b - a)) (Z.max 0 (b - a)) ((b - a) * one * t) one)
    as (m & -> & Hm); try lia.
  { replace ((b - a) * one * t) with (one * ((b - a) * t)) by ring.
    destruct (Z.le_ge_cases 0 (b - a)) as [C|C].
    - rewrite Z.min_l, Z.max_r by lia.
      assert (0 <= (b - a) * t <= (b - a) * one) by nia.
      replace ((b - a) * one * one) with (one * ((b - a) * one)) by ring. nia.
    - rewrite Z.min_r, Z.max_l by lia.
      assert ((b - a) * one <= (b - a) * t <= 0) by nia.
      replace ((b - a) * one * one) with (one * ((b - a) * one)) by ring. nia. }
  destruct (round_between (Z.min a b) (Z.max a b) (a * one + m) 1)
    as (s & -> & Hs); try lia.
  unfold int_of_float, to_int. exists (Z.quot s one). split; [reflexivity|].
  split.
  - rewrite <- (Z.quot_mul (Z.min a b) one) by lia.
    apply Z.quot_le_mono; lia.
  - rewrite <- (Z.quot_mul (Z.max a b) one) by lia.
    apply Z.quot_le_mono; lia.
Qed.

Lemma drag_point_between a b i steps :
  1 <= i <= steps ->
  exact_in_binary64 a -> exact_in_binary64 b -> exact_in_binary64 (b - a) ->
  exists p, drag_point a b i steps = Ok p /\ Z.min a b <= p <= Z.max a b.
Proof.
  intros Hi Ha Hb Hd. unfold drag_point.
  destruct (truediv_fraction _ _ Hi) as (t & -> & Ht). simpl.
  now apply interpolate_between.
Qed.

(** X20. With coordinates and differences below [2^53] in magnitude,
    the arithmetic of [drag] cannot fail and cannot leave the
    rectangle spanned by the start and the end point: for every step
    [i] from 1 to [steps] both coordinates are computed, without
    overflow, and lie between the start and the end coordinate, the
    roundings of [i / steps], of the product and of the sum
    notwithstanding.  So every move of a [drag] that returns is to a
    point of that rectangle. *)
Theorem drag_stays_in_box from_x from_y to_x to_y button steps w w' :
  exact_in_binary64 from_x -> exact_in_binary64 to_x ->
  exact_in_binary64 (to_x - from_x) ->
  exact_in_binary64 from_y -> exact_in_binary64 to_y ->
  exact_in_binary64 (to_y - from_y) ->
  (forall i, 1 <= i <= steps ->
     exists p, is_drag_point from_x from_y to_x to_y steps i p
               /\ in_box from_x from_y to_x to_y p)
  /\ (AsyncMouse.drag from_x from_y to_x to_y button steps w = (Ok tt, w') ->
      exists pts,
        sent (log w') =
          sent (log w) ++ [move_frame from_x from_y; button_frame button true]
                       ++ map move_to pts ++ [button_frame button false]
        /\ Forall (in_box from_x from_y to_x to_y) pts).
Proof.
  intros Hfx Htx Hdx Hfy Hty Hdy.
  assert (P : forall i, 1 <= i <= steps ->
            exists p, is_drag_point from_x from_y to_x to_y steps i p
                      /\ in_box from_x from_y to_x to_y p).
  { intros i Hi.
    destruct (drag_point_between _ _ _ _ Hi Hfx Htx Hdx) as (px & Ex & Bx).
    destruct (drag_point_between _ _ _ _ Hi Hfy Hty Hdy) as (py & Ey & By).
    exists (px, py). split; split; assumption. }
  split; [exact P|].
  intros E. destruct (drag_sent _ _ _ _ _ _ _ _ E) as (pts & Hpts & L).
  exists pts. split; [exact L|].
  assert (R : forall i, In i (range 1 (steps + 1)) -> 1 <= i <= steps).
  { intros i Hi. apply range_In in Hi. lia. }
  revert R Hpts. generalize (range 1 (steps + 1)).
  intros l R Hpts. clear L E. revert R.
  induction Hpts as [|i p l pts Hp _ IH]; intros R; constructor.
  - destruct (P i (R i (or_introl eq_refl))) as (p' & [Ex Ey] & B).
    destruct Hp as [Hx Hy]. rewrite Hx in Ex. rewrite Hy in Ey.
    injection Ex as Ex. injection Ey as Ey.
    destruct p as [px py], p' as [px' py']. simpl in *. subst. exact B.
  - apply IH. intros j Hj. apply R. now right.
Qed.

End Box.

Lemma drag_stays_in_box_witness :
  exists w' pts,
    AsyncMouse.drag 0 0 90 0 "left" 10 Sample.online = (Ok tt, w')
    /\ sent (log w') =
         sent (log Sample.online) ++ [move_frame 0 0; button_frame "left" true]
           ++ map move_to pts ++ [button_frame "left" false]
    /\ Forall (in_box 0 0 90 0) pts.
Proof.
  pose proof (ok_run _ _ _ sample_drag_returns) as E.
  exists (snd (AsyncMouse.drag 0 0 90 0 "left" 10 Sample.online)).
  destruct (proj2 (drag_stays_in_box (rt := Sample.runtime) 0 0 90 0 "left" 10
                     Sample.online _
                     ltac:(vm_compute; reflexivity) ltac:(vm_compute; reflexivity)
                     ltac:(vm_compute; reflexivity) ltac:(vm_compute; reflexivity)
                     ltac:(vm_compute; reflexivity) ltac:(vm_compute; reflexivity)) E)
    as (pts & L & B).
  exists pts. split; [exact E|]. split; [exact L | exact B].
Defined.

(* ================================================================== *)
(** * The images of the storage *)

Section Images.
Context {rt : Runtime}.
Import AsyncKVMClient.

Lemma api_get_2xx path w resp rest d :
  http_closed w = false ->
  http_script w = Responds resp :: rest ->
  is_success resp ->
  json_loads (content resp) = Some (PyDict d) ->
  truthy (field "ok" d PyNone) = true ->
  _api_get path [] w
  = (Ok (field "result" d (PyDict [])),
     set_http_script rest
       (emit (HttpRequest {| method := "GET"; url := "/api/" ++ path; params := None;
                             data := None; body := None; headers := [] |}) w)).
Proof.
  intros Ho Hs Hc Hj Ht. unfold _api_get.
  rewrite (bind_ok _ _ _ _ _ (http_request_responds _ _ _ _ Ho Hs)).
  unfold lift. rewrite (check_response_2xx _ _ Hc Hj), Ht. reflexivity.
Qed.

(** X21. On a successful answer [list_images] makes the one request
    of [status], a GET of [msd], and digs the images out of its
    result with defaults: the [images] of the [storage] object, an
    empty mapping when [storage] has no [images] or the result has no
    [storage], never a [KeyError]; a [storage] that is present but is
    not an object (null, say) raises [AttributeError]. *)
Theorem list_images_defaults w resp rest d r :
  http_closed w = false ->
  http_script w = Responds resp :: rest ->
  is_success resp ->
  json_loads (content resp) = Some (PyDict d) ->
  truthy (field "ok" d PyNone) = true ->
  field "result" d (PyDict []) = PyDict r ->
  requests (log (snd (AsyncMSD.list_images w))) = requests (log w) ++ [msd_request]
  /\ match assoc "storage" r with
     | None => fst (AsyncMSD.list_images w) = Ok (PyDict [])
     | Some (PyDict s) =>
         fst (AsyncMSD.list_images w) = Ok (field "images" s (PyDict []))
     | Some _ => fst (AsyncMSD.list_images w) = Raise AttributeError
     end.
Proof.
  intros Ho Hs Hc Hj Ht Hr. unfold AsyncMSD.list_images, AsyncMSD.status.
  rewrite (bind_ok _ _ _ _ _ (api_get_2xx "msd" _ _ _ _ Ho Hs Hc Hj Ht)).
  rewrite Hr. unfold bind, lift, py_get. split.
  - destruct (assoc "storage" r) as [[]|]; simpl; exact (requests_emit _ _).
  - destruct (assoc "storage" r) as [[]|]; reflexivity.
Qed.

End Images.

Lemma list_images_defaults_witness :
  let w := Sample.facing [Sample.answer 200 "<info>"] [] [] in
  requests (log (snd (AsyncMSD.list_images w))) = requests (log w) ++ [msd_request]
  /\ fst (AsyncMSD.list_images w) = Ok (PyDict []).
Proof.
  intros w.
  exact (list_images_defaults (rt := Sample.runtime) w
           {| status_code := 200; content := "<info>" |} []
           [("ok", PyBool true); ("result", PyDict [("version", PyStr "1.0")])]
           [("version", PyStr "1.0")]
           eq_refl eq_refl ltac:(unfold is_success; simpl; lia) eq_refl eq_refl eq_refl).
Defined.

(* ================================================================== *)
(** * Scoped use of the client *)

Section Scoped.
Context {rt : Runtime}.
Import AsyncKVMClient.

Lemma close_cases w :
  one_live w ->
  if sub_close_fails w
  then close w = (Raise CloseFailed, snd (fault w))
  else exists w', close w = (Ok tt, w')
         /\ http_closed w' = true /\ _ws w' = None /\ no_open_connection w'.
Proof.
  intros Hl. destruct (sub_close_fails w) eqn:Hf.
  - exact (close_sub_close_fails _ Hf).
  - destruct (_ws w) as [c|] eqn:Hw.
    + rewrite (close_with_ws _ _ Hw Hf). cbv zeta.
      pose proof (no_open_after_sub_close _ _ Hl Hw) as N.
      destruct (fault_same w) as (_ & _ & Hh).
      destruct (http_closed w) eqn:Hc; eexists; (split; [reflexivity|]);
        repeat split;
        first [ reflexivity
              | simpl; congruence
              | revert N; apply no_open_same; reflexivity ].
    + rewrite (close_without_ws _ Hw).
      pose proof (one_live_no_handle _ Hl Hw) as N.
      destruct (http_closed w) eqn:Hc; eexists; (split; [reflexivity|]);
        repeat split;
        first [ assumption
              | reflexivity
              | revert N; apply no_open_same; reflexivity ].
Qed.

(** X22. Used as [async with client: body], the client is closed
    when the block is left, by its end or by an exception: provided
    the WebSocket sub-close does not fail, afterwards the HTTP client
    is released, no connection is held or open, and the outcome of the
    block is the outcome of its body, an exception of the body being
    raised again.  When the sub-close fails, its failure is raised in
    place of whatever the body did. *)
Theorem async_with_closes {A : Type} (body : M A) w :
  one_live w -> preserves one_live body ->
  let w1 := snd (body w) in
  let w' := snd (async_with body w) in
  if sub_close_fails w1
  then fst (async_with body w) = Raise CloseFailed
  else fst (async_with body w) = fst (body w)
       /\ http_closed w' = true /\ _ws w' = None /\ no_open_connection w'.
Proof.
  intros Hl Hb. cbv zeta. unfold async_with, __aexit__.
  destruct (body w) as [r w1] eqn:E. simpl.
  pose proof (close_cases w1 (Hb _ _ _ Hl E)) as C.
  destruct (sub_close_fails w1).
  - rewrite C. reflexivity.
  - destruct C as (w' & -> & H1 & H2 & H3). simpl. auto.
Qed.

End Scoped.

Lemma async_with_closes_witness :
  let w := Sample.facing [Sample.answer 401 "Unauthorized"] [Some Sample.burst] [] in
  let body := bind (AsyncKeyboard.press "Enter") (fun _ => AsyncKVMClient.info) in
  fst (AsyncKVMClient.async_with body w) = Raise (AuthError "Authentication failed")
  /\ http_closed (snd (AsyncKVMClient.async_with body w)) = true
  /\ _ws (snd (AsyncKVMClient.async_with body w)) = None
  /\ no_open_connection (snd (AsyncKVMClient.async_with body w)).
Proof.
  intros w body.
  assert (B : preserves one_live body).
  { apply preserves_bind.
    - apply preserves_bind; [apply one_live_ws_send|]. intros _.
      apply preserves_bind; [apply one_live_sleep | intros; apply one_live_ws_send].
    - intros _. apply one_live_api_get. }
  pose proof (async_with_closes body w
                (one_live_facing _ _ _) B) as H.
  cbv zeta in H.
  assert (F : sub_close_fails (snd (body w)) = false) by (vm_compute; reflexivity).
  rewrite F in H. destruct H as (H0 & H1 & H2 & H3).
  split; [|auto].
  rewrite H0. vm_compute. reflexivity.
Defined.

(* ================================================================== *)
(** * The synchronous client *)

Section SyncClient.
Context {rt : Runtime}.

(** X23. [KVMClient.close] on a running loop closes the asynchronous
    client and then stops the loop, provided the WebSocket sub-close
    does not fail.  When it fails, the failure is raised on the
    calling thread before [stop] is reached: the loop thread keeps
    running and the HTTP client stays open, so that only a second
    [close] can release them. *)
Theorem sync_close_stops_loop s :
  KVMClient.loop_running s = true ->
  one_live (KVMClient._async_client s) ->
  if sub_close_fails (KVMClient._async_client s)
  then exists s', KVMClient.close s = Some (Raise CloseFailed, s')
         /\ KVMClient.loop_running s' = true
         /\ http_closed (KVMClient._async_client s')
            = http_closed (KVMClient._async_client s)
         /\ _ws (KVMClient._async_client s') = _ws (KVMClient._async_client s)
  else exists s', KVMClient.close s = Some (Ok tt, s')
         /\ KVMClient.loop_running s' = false
         /\ http_closed (KVMClient._async_client s') = true
         /\ no_open_connection (KVMClient._async_client s').
Proof.
  intros Hr Hl. unfold KVMClient.close, KVMClient.sbind, KVMClient.run. rewrite Hr.
  pose proof (close_cases _ Hl) as C.
  destruct (sub_close_fails (KVMClient._async_client s)).
  - rewrite C. eexists. split; [reflexivity|]. simpl.
    destruct (fault_same (KVMClient._async_client s)) as (_ & H2 & H3). auto.
  - destruct C as (w' & -> & H1 & H2 & H3).
    eexists. split; [reflexivity|]. simpl. auto.
Qed.

(** X24. Once [KVMClient.close] has returned, the client cannot be
    used: every later call, whatever coroutine it hands to the loop,
    never comes back, for the loop no longer runs anything.  This
    holds for [close] itself, which is therefore not repeatable, and
    for leaving a [with] block whose body has already closed the
    client. *)
Theorem sync_call_after_close_blocks s s' :
  KVMClient.close s = Some (Ok tt, s') ->
  (forall (A : Type) (coro : M A), KVMClient.run coro s' = None)
  /\ KVMClient.close s' = None
  /\ KVMClient.info s' = None
  /\ KVMClient.sync_with KVMClient.close s = None.
Proof.
  intros H.
  assert (Hs : KVMClient.loop_running s' = false).
  { revert H. unfold KVMClient.close, KVMClient.sbind, KVMClient.run, KVMClient.stop.
    destruct (KVMClient.loop_running s); [|discriminate].
    destruct (AsyncKVMClient.close (KVMClient._async_client s)) as [[u|e] w1];
      [|discriminate].
    intros [= <-]. reflexivity. }
  assert (R : forall (A : Type) (coro : M A), KVMClient.run coro s' = None).
  { intros A coro. unfold KVMClient.run. rewrite Hs. reflexivity. }
  assert (C : KVMClient.close s' = None).
  { unfold KVMClient.close, KVMClient.sbind. rewrite R. reflexivity. }
  split; [exact R|]. split; [exact C|]. split; [apply R|].
  unfold KVMClient.sync_with, KVMClient.__exit__. rewrite H, C. reflexivity.
Qed.

End SyncClient.

Lemma sync_close_stops_loop_witness :
  (exists s', KVMClient.close sync_connected = Some (Ok tt, s')
     /\ KVMClient.loop_running s' = false
     /\ http_closed (KVMClient._async_client s') = true
     /\ no_open_connection (KVMClient._async_client s'))
  /\ (exists s', KVMClient.close sync_stubborn = Some (Raise CloseFailed, s')
        /\ KVMClient.loop_running s' = true
        /\ http_closed (KVMClient._async_client s') = false).
Proof.
  split.
  - exact (sync_close_stops_loop sync_connected eq_refl one_live_connected).
  - destruct (sync_close_stops_loop sync_stubborn eq_refl one_live_stubborn)
      as (s' & E & R & H & _).
    exists s'. split; [exact E|]. split; [exact R|]. rewrite H. reflexivity.
Defined.

Lemma sync_call_after_close_blocks_witness :
  exists s', KVMClient.close sync_connected = Some (Ok tt, s')
    /\ KVMClient.close s' = None
    /\ KVMClient.info s' = None.
Proof.
  pose (s' := {| KVMClient._async_client := snd (AsyncKVMClient.close Sample.connected);
                 KVMClient.loop_running := false |}).
  assert (E : KVMClient.close sync_connected = Some (Ok tt, s'))
    by (vm_compute; reflexivity).
  exists s'. split; [exact E|].
  destruct (sync_call_after_close_blocks (rt := Sample.runtime) _ _ E) as (_ & C & I & _).
  split; [exact C | exact I].
Defined.

(* ================================================================== *)
(** * Images fetched by the device *)

Section Remote.
Context {rt : Runtime}.
Import AsyncKVMClient.

Lemma api_post_log path p d c h w :
  http_closed w = false ->
  log (snd (_api_post path p d c h w))
  = log w ++ [HttpRequest {| method := "POST"; url := "/api/" ++ path; params := p;
                             data := d; body := c; headers := h |}].
Proof.
  intros Ho. unfold _api_post, bind, http_request. rewrite Ho. simpl.
  destruct (http_script w) as [|[resp|] rest]; reflexivity.
Qed.

(** X26. On an open client [upload_url] does one thing, whatever the
    device answers and even when the request fails: it issues one
    POST to [msd/write_remote] without a body, whose parameters are
    the [url] and, only when an image name is given and is not the
    empty string, the [image]; no local file is read.  With the name
    omitted or empty the device is left to derive it from the URL. *)
Theorem upload_url_one_request url_ image_name w :
  http_closed w = false ->
  log (snd (AsyncMSD.upload_url url_ image_name w))
  = log w ++ [HttpRequest (upload_url_request url_ image_name)].
Proof.
  intros Ho. unfold AsyncMSD.upload_url. rewrite (api_post_log _ _ _ _ _ _ Ho).
  unfold upload_url_request. destruct image_name as [n|]; [|reflexivity].
  simpl. destruct (String.eqb n ""); reflexivity.
Qed.

End Remote.

Lemma upload_url_one_request_witness :
  let w := Sample.facing [Sample.answer 200 "<written>"] [] [] in
  log (snd (AsyncMSD.upload_url "https://mirror.example/debian.iso" (Some "") w))
  = [HttpRequest
       {| method := "POST"; url := "/api/msd/write_remote";
          params := Some [("url", PyStr "https://mirror.example/debian.iso")];
          data := None; body := None; headers := [] |}].
Proof.
  intros w.
  exact (upload_url_one_request (rt := Sample.runtime)
           "https://mirror.example/debian.iso" (Some "") w eq_refl).
Defined.

(* ================================================================== *)
(** * A new client *)

Section Constructor.
Import AsyncKVMClient.

Lemma rstrip_slash_spec s :
  (exists n, s = (rstrip_slash s ++ slashes n)%string)
  /\ last_char (rstrip_slash s) <> Some "/"%char.
Proof.
  induction s as [|a s' [(n & En) Hl]].
  - split; [exists 0%nat; reflexivity | discriminate].
  - simpl. destruct (rstrip_slash s') as [|b t] eqn:Er.
    + destruct (Ascii.eqb a "/") eqn:Ea.
      * apply Ascii.eqb_eq in Ea. subst a. split; [|discriminate].
        exists (S n). simpl. now rewrite En at 1.
      * apply Ascii.eqb_neq in Ea. split.
        -- exists n. simpl. now rewrite En at 1.
        -- simpl. congruence.
    + split.
      * exists n. simpl. now rewrite En at 1.
      * exact Hl.
Qed.

(** X25. The constructor keeps the host without its trailing
    slashes, all of them and nothing else; the address used for the
    WebSocket is the resolved one, or that stripped host when the name
    does not resolve.  The new client holds no token and no
    connection, its HTTP client is open and no connection is open. *)
Theorem constructor_normalises_host h u p v r f :
  let w := __init__ h u p v r f in
  (exists n, h = (host (cfg w) ++ slashes n)%string)
  /\ last_char (host (cfg w)) <> Some "/"%char
  /\ _resolved_ip (cfg w) = match r with Some ip => ip | None => host (cfg w) end
  /\ _ws w = None /\ _token w = PyNone /\ http_closed w = false
  /\ no_open_connection w.
Proof.
  cbv zeta. simpl. destruct (rstrip_slash_spec h) as [H1 H2].
  repeat split; try assumption.
  intros c. unfold conn_closed. simpl. destruct c; reflexivity.
Qed.

End Constructor.

(* ================================================================== *)
(** * What the drain receives *)

Section DrainExact.
Context {rt : Runtime}.
Import AsyncKVMClient.


Lemma conn_open_inv c w :
  conn_closed c w = false ->
  exists k, nth_error (conns w) c = Some k /\ closed k = false.
Proof.
  unfold conn_closed. destruct (nth_error (conns w) c) as [k|]; [|discriminate].
  intros H. exists k. auto.
Qed.








End DrainExact.


